(** * ExamCreator: the variant-generation pipeline and the exam-data service worker

    A shallow embedding of [exam_variant_builder_react_prototype.jsx]
    (seeded PRNG, parameter sampling, template rendering, answer
    evaluation, option matching, variant assembly; the image lists, the
    HTML export, the variant counter and its marker; the worker for exam
    and solutions data that the file carries) and of [sw.js] (the message
    handler that stores the exam JSON text and the fetch handler that
    serves it).

    JavaScript numbers are IEEE-754 binary64 values.  They are represented
    by [spec_float] with the operations of the standard library's
    [SpecFloat] at precision 53 and exponent bound 1024; what the language
    adds on top (Math.floor, Math.round, the remainder, the 32-bit integer
    conversions, decimal parsing and printing) is defined here on the same
    representation.  Strings are sequences of code units below 256.

    Answer expressions are JavaScript.  The arithmetic part of the
    language is modelled: number literals, names, parentheses, the signs,
    the operators [+ - * / % **], the constants and functions of [Math].
    The functions whose results the language leaves to the engine are a
    parameter of the host, next to Math.random and the global object.
    Text outside this part has the outcome [Unmodelled]. *)

From Stdlib Require Import ZArith List String Ascii Bool Lia Permutation.
From Stdlib Require Import Floats.SpecFloat.
Import ListNotations.
Local Open Scope string_scope.
Local Open Scope Z_scope.

(* ================================================================== *)
(** * Part I.  Definitions                                              *)
(* ================================================================== *)

(** ** JavaScript numbers *)

Module JS.

Definition number := spec_float.

Definition prec : Z := 53.
Definition emax : Z := 1024.

Definition NaN : number := S754_nan.
Definition Infinity : number := S754_infinity false.

(** The Number nearest to an integer (exact up to 2^53). *)
Definition of_Z (z : Z) : number := binary_normalize prec emax z 0 false.

(** The Number nearest to the ratio [n / d] of two positive integers,
    negated when [s] is set: the quotient is developed to full precision
    with its remainder location and rounded once, to nearest even. *)
Definition of_ratio (s : bool) (n d : positive) : number :=
  let '(mz, ez, lz) := SFdiv_core_binary prec emax (Zpos n) 0 (Zpos d) 0 in
  binary_round_aux prec emax s mz ez lz.

Definition add : number -> number -> number := SFadd prec emax.
Definition sub : number -> number -> number := SFsub prec emax.
Definition mul : number -> number -> number := SFmul prec emax.
Definition div : number -> number -> number := SFdiv prec emax.
Definition neg : number -> number := SFopp.

(** [x === y] on two Numbers. *)
Definition strict_eq : number -> number -> bool := SFeqb.
Definition ltb : number -> number -> bool := SFltb.
Definition leb : number -> number -> bool := SFleb.

Definition is_finite (x : number) : bool :=
  match x with
  | S754_zero _ | S754_finite _ _ _ => true
  | _ => false
  end.

(** The signed mantissa of a finite Number. *)
Definition signed (s : bool) (m : positive) : Z :=
  if s then Zneg m else Zpos m.

(** Math.floor: the largest integral Number not above [x]. *)
Definition floor (x : number) : number :=
  match x with
  | S754_finite s m e =>
      if 0 <=? e then x
      else binary_normalize prec emax (signed s m / 2 ^ (- e)) 0 false
  | _ => x
  end.

(** Math.round: the integral Number nearest to [x], halves going up;
    a result of zero keeps the sign of [x]. *)
Definition round (x : number) : number :=
  match x with
  | S754_finite s m e =>
      if 0 <=? e then x
      else binary_normalize prec emax
             ((2 * signed s m + 2 ^ (- e)) / 2 ^ (1 - e)) 0 s
  | _ => x
  end.

(** The integer part of a finite Number, truncated toward zero; 0 for
    NaN and the infinities (the first steps of ToInt32 and ToUint32). *)
Definition trunc (x : number) : Z :=
  match x with
  | S754_finite s m e =>
      if 0 <=? e then signed s m * 2 ^ e
      else Z.quot (signed s m) (2 ^ (- e))
  | _ => 0
  end.

(** ToUint32 and ToInt32 of an integer: reduction modulo 2^32 into
    [0, 2^32) and into [-2^31, 2^31). *)
Definition two32 : Z := 4294967296.
Definition uint32 (z : Z) : Z := z mod two32.
Definition int32 (z : Z) : Z :=
  let u := z mod two32 in if u <? 2147483648 then u else u - two32.

(** The bitwise operators work on the 32-bit conversions of their
    operands: [^] and [|] give an Int32, [>>>] a Uint32. *)
Definition bxor (x y : Z) : Z := int32 (Z.lxor (int32 x) (int32 y)).
Definition bor (x y : Z) : Z := int32 (Z.lor (int32 x) (int32 y)).
Definition ushr (x n : Z) : Z := Z.shiftr (uint32 x) (uint32 n mod 32).

(** Math.imul: the low 32 bits of the product, as an Int32. *)
Definition imul (x y : Z) : Z := int32 (uint32 x * uint32 y).

(** [x % y] on Numbers: the remainder of the truncated division, exact,
    with the sign of the dividend. *)
Definition remainder (x y : number) : number :=
  match x, y with
  | S754_nan, _ | _, S754_nan => NaN
  | S754_infinity _, _ => NaN
  | _, S754_zero _ => NaN
  | _, S754_infinity _ => x
  | S754_zero _, _ => x
  | S754_finite sx mx ex, S754_finite _ my ey =>
      let e := Z.min ex ey in
      let r := (Zpos mx * 2 ^ (ex - e)) mod (Zpos my * 2 ^ (ey - e)) in
      binary_normalize prec emax (if sx then - r else r) e sx
  end.

(** *** Decimal parsing and printing *)

Definition code (c : ascii) : Z := Z.of_N (N_of_ascii c).

Definition is_digit (c : ascii) : bool := (48 <=? code c) && (code c <=? 57).

Definition digit_char (d : Z) : ascii := ascii_of_N (Z.to_N (48 + d)).

(** The decimal digits of a non-negative integer. *)
Fixpoint decimal_fuel (fuel : nat) (n : Z) (acc : string) : string :=
  match fuel with
  | O => acc
  | S f =>
      let acc' := String (digit_char (n mod 10)) acc in
      if n <? 10 then acc' else decimal_fuel f (n / 10) acc'
  end.

Definition decimal (n : Z) : string :=
  decimal_fuel (S (Z.to_nat (Z.log2 n))) n "".

(** The value of a run of decimal digits read left to right. *)
Fixpoint digits_value (s : string) (acc : Z) : Z :=
  match s with
  | EmptyString => acc
  | String c r => digits_value r (10 * acc + (code c - 48))
  end.

Fixpoint span_digits (s : string) : string * string :=
  match s with
  | String c r =>
      if is_digit c then let '(d, t) := span_digits r in (String c d, t)
      else ("", s)
  | EmptyString => ("", "")
  end.

(** The Number denoted by sign, integer digits and fraction digits. *)
Definition of_decimal (s : bool) (int frac : string) : number :=
  match digits_value (int ++ frac) 0 with
  | Zpos n => of_ratio s n (Z.to_pos (10 ^ Z.of_nat (String.length frac)))
  | _ => S754_zero s
  end.

(** parseFloat on text that starts with a decimal literal: an optional
    sign, digits and an optional fraction; NaN when no digit is found. *)
Definition parseFloat (s : string) : number :=
  let '(sg, body) :=
    match s with
    | String "-" r => (true, r)
    | String "+" r => (false, r)
    | _ => (false, s)
    end in
  let '(int, rest) := span_digits body in
  let frac :=
    match rest with
    | String "." r => fst (span_digits r)
    | _ => ""
    end in
  match int ++ frac with
  | EmptyString => NaN
  | _ => of_decimal sg int frac
  end.

(** Number::toString in radix 10.  For a positive finite value [X] =
    [num / den] the digits are the shortest decimal [c * 10^t] that reads
    back as the same Number, the nearest to [X] among those of that
    length. *)
Definition exact_ratio (m : positive) (e : Z) : Z * Z :=
  if 0 <=? e then (Zpos m * 2 ^ e, 1) else (Zpos m, 2 ^ (- e)).

Definition below_pow10 (num den n : Z) : bool :=
  if 0 <=? n then num <? 10 ^ n * den else num * 10 ^ (- n) <? den.

Fixpoint magnitude_up (fuel : nat) (num den n : Z) : Z :=
  match fuel with
  | O => n
  | S f => if below_pow10 num den n then n
           else magnitude_up f num den (n + 1)
  end.

Fixpoint magnitude_down (fuel : nat) (num den n : Z) : Z :=
  match fuel with
  | O => n
  | S f => if below_pow10 num den (n - 1) then magnitude_down f num den (n - 1)
           else n
  end.

(** The least [n] with [X < 10^n], searched from an estimate. *)
Definition magnitude (num den : Z) : Z :=
  let n := (Z.log2 num - Z.log2 den) * 3 / 10 in
  if below_pow10 num den n then magnitude_down 700 num den n
  else magnitude_up 700 num den n.

Definition scaled_floor (num den t : Z) : Z :=
  if 0 <=? t then num / (den * 10 ^ t) else (num * 10 ^ (- t)) / den.

Definition of_scaled (c t : Z) : number :=
  if 0 <=? t then of_ratio false (Z.to_pos (c * 10 ^ t)) 1
  else of_ratio false (Z.to_pos c) (Z.to_pos (10 ^ (- t))).

(** Is [c * 10^t] strictly nearer to [X] than [(c+1) * 10^t]?  [Eq] on a
    tie. *)
Definition nearer (num den c t : Z) : comparison :=
  if 0 <=? t then 2 * num ?= (2 * c + 1) * 10 ^ t * den
  else 2 * num * 10 ^ (- t) ?= (2 * c + 1) * den.

Fixpoint shortest_from (fuel : nat) (x : number) (num den n0 k : Z) : Z * Z :=
  let t := n0 - k in
  let lo := scaled_floor num den t in
  match fuel with
  | O => (lo, t)
  | S f =>
      let lo_ok := strict_eq (of_scaled lo t) x in
      let hi_ok := strict_eq (of_scaled (lo + 1) t) x in
      match lo_ok, hi_ok with
      | true, true =>
          match nearer num den lo t with
          | Lt => (lo, t)
          | Gt => (lo + 1, t)
          | Eq => if Z.even lo then (lo, t) else (lo + 1, t)
          end
      | true, false => (lo, t)
      | false, true => (lo + 1, t)
      | false, false => shortest_from f x num den n0 (k + 1)
      end
  end.

Fixpoint strip_zeros (fuel : nat) (c t : Z) : Z * Z :=
  match fuel with
  | O => (c, t)
  | S f => if (c mod 10 =? 0) && (0 <? c) then strip_zeros f (c / 10) (t + 1)
           else (c, t)
  end.

Fixpoint zeros (n : nat) : string :=
  match n with O => "" | S n' => String "0" (zeros n') end.

Definition take (n : nat) (s : string) : string := substring 0 n s.
Definition drop (n : nat) (s : string) : string :=
  substring n (String.length s - n) s.

Definition format_digits (digits : string) (n : Z) : string :=
  let k := Z.of_nat (String.length digits) in
  if (k <=? n) && (n <=? 21) then digits ++ zeros (Z.to_nat (n - k))
  else if (0 <? n) && (n <=? 21) then
    take (Z.to_nat n) digits ++ "." ++ drop (Z.to_nat n) digits
  else if (-6 <? n) && (n <=? 0) then "0." ++ zeros (Z.to_nat (- n)) ++ digits
  else
    let e := n - 1 in
    let sg := if e <? 0 then "-" else "+" in
    if k =? 1 then digits ++ "e" ++ sg ++ decimal (Z.abs e)
    else take 1 digits ++ "." ++ drop 1 digits ++ "e" ++ sg ++ decimal (Z.abs e).

Definition to_string (x : number) : string :=
  match x with
  | S754_nan => "NaN"
  | S754_zero _ => "0"
  | S754_infinity s => if s then "-Infinity" else "Infinity"
  | S754_finite s m e =>
      let '(num, den) := exact_ratio m e in
      let n0 := magnitude num den in
      let '(c0, t0) := shortest_from 17 (S754_finite false m e) num den n0 1 in
      let '(c, t) := strip_zeros 17 c0 t0 in
      let digits := decimal c in
      (if s then "-" else "") ++
      format_digits digits (Z.of_nat (String.length digits) + t)
  end.

End JS.

(** ** Strings, values and objects *)

Definition is_space (c : ascii) : bool :=
  let n := JS.code c in
  ((9 <=? n) && (n <=? 13)) || (n =? 32) || (n =? 160).

(** The class [\w] of regular expressions. *)
Definition is_word (c : ascii) : bool :=
  let n := JS.code c in
  JS.is_digit c || ((65 <=? n) && (n <=? 90)) || ((97 <=? n) && (n <=? 122))
  || (n =? 95).

Fixpoint skip_spaces (s : string) : string :=
  match s with
  | String c r => if is_space c then skip_spaces r else s
  | EmptyString => s
  end.

Fixpoint span_word (s : string) : string * string :=
  match s with
  | String c r =>
      if is_word c then let '(w, t) := span_word r in (String c w, t)
      else ("", s)
  | EmptyString => ("", "")
  end.

Fixpoint rev_string (s acc : string) : string :=
  match s with
  | EmptyString => acc
  | String c r => rev_string r (String c acc)
  end.

(** String.prototype.trim. *)
Definition trim (s : string) : string :=
  rev_string (skip_spaces (rev_string (skip_spaces s) "")) "".

(** The value of the literal [int.frac e exp]. *)
Definition of_literal (int frac : string) (exp : Z) : JS.number :=
  let n := JS.digits_value (int ++ frac) 0 in
  let t := exp - Z.of_nat (String.length frac) in
  match n with
  | Zpos p =>
      if 0 <=? t then JS.of_ratio false (Z.to_pos (n * 10 ^ t)) 1
      else JS.of_ratio false p (Z.to_pos (10 ^ (- t)))
  | _ => S754_zero false
  end.

(** A digit in the given radix. *)
Definition digit_in (radix : Z) (c : ascii) : option Z :=
  let n := JS.code c in
  let d := if (48 <=? n) && (n <=? 57) then n - 48
           else if (97 <=? n) && (n <=? 102) then n - 87
           else if (65 <=? n) && (n <=? 70) then n - 55
           else radix in
  if d <? radix then Some d else None.

Fixpoint radix_value (radix : Z) (s : string) (acc : Z) : option Z :=
  match s with
  | EmptyString => Some acc
  | String c r =>
      match digit_in radix c with
      | Some d => radix_value radix r (radix * acc + d)
      | None => None
      end
  end.

(** The forms [0x...], [0o...] and [0b...], in either case of the letter,
    with at least one digit. *)
Definition radix_literal (s : string) : option JS.number :=
  match s with
  | String "0" (String c (String d r)) =>
      let n := JS.code c in
      let radix := if (n =? 120) || (n =? 88) then 16
                   else if (n =? 111) || (n =? 79) then 8
                   else if (n =? 98) || (n =? 66) then 2
                   else 0 in
      if radix =? 0 then None
      else option_map JS.of_Z (radix_value radix (String d r) 0)
  | _ => None
  end.

(** An unsigned decimal literal that makes up the whole of [s]: digits
    with an optional fraction, a fraction alone, and an optional
    exponent. *)
Definition decimal_literal (s : string) : option JS.number :=
  let '(int, r1) := JS.span_digits s in
  let '(frac, r2) :=
    match r1 with
    | String "." r => JS.span_digits r
    | _ => ("", r1)
    end in
  match int ++ frac with
  | EmptyString => None
  | _ =>
      match r2 with
      | EmptyString => Some (of_literal int frac 0)
      | String c r =>
          if (JS.code c =? 101) || (JS.code c =? 69) then
            let '(sg, body) :=
              match r with
              | String "-" b => (-1, b)
              | String "+" b => (1, b)
              | _ => (1, r)
              end in
            match JS.span_digits body with
            | (String d ds, EmptyString) =>
                Some (of_literal int frac (sg * JS.digits_value (String d ds) 0))
            | _ => None
            end
          else None
      end
  end.

(** StringToNumber.  White space at both ends is dropped; what is left
    is nothing (0), an unsigned literal in radix 16, 8 or 2, or, after an
    optional sign, [Infinity] or a decimal literal; any other text is
    NaN. *)
Definition StringToNumber (s : string) : JS.number :=
  let t := trim s in
  match t with
  | EmptyString => S754_zero false
  | _ =>
      match radix_literal t with
      | Some x => x
      | None =>
          let '(negative, body) :=
            match t with
            | String "-" r => (true, r)
            | String "+" r => (false, r)
            | _ => (false, t)
            end in
          let magnitude :=
            if (body =? "Infinity")%string then Some JS.Infinity
            else decimal_literal body in
          match magnitude with
          | Some x => if negative then JS.neg x else x
          | None => JS.NaN
          end
      end
  end.

(** The values that reach the pipeline: the primitive values other than
    BigInts, and the built-in objects a lookup on a plain object or on
    [Math] can return.  A Symbol is represented by its description. *)
Inductive value :=
  | VUndefined
  | VNum (x : JS.number)
  | VMath
  | VNative (name : string)
  | VObjectPrototype
  | VNull
  | VBool (b : bool)
  | VStr (s : string)
  | VSymbol (description : string).

(** String(v).  The text of a built-in function is the engine's; the
    usual rendering is taken. *)
Definition String_of (v : value) : string :=
  match v with
  | VUndefined => "undefined"
  | VNum x => JS.to_string x
  | VMath => "[object Math]"
  | VNative name => "function " ++ name ++ "() { [native code] }"
  | VObjectPrototype => "[object Object]"
  | VNull => "null"
  | VBool b => if b then "true" else "false"
  | VStr s => s
  | VSymbol description => "Symbol(" ++ description ++ ")"
  end.

(** The Number a value converts to: objects and functions convert
    through their text, which is not numeric.  A Symbol has no Number:
    the conversion throws (see [to_number]) and the NaN given here is
    never used. *)
Definition Number_of (v : value) : JS.number :=
  match v with
  | VNum x => x
  | VNull => S754_zero false
  | VBool b => if b then JS.of_Z 1 else S754_zero false
  | VStr s => StringToNumber s
  | _ => JS.NaN
  end.

(** A plain object whose own properties hold Numbers, in insertion
    order: the shape of Bindings. *)
Definition bindings := list (string * JS.number).

Fixpoint own (b : bindings) (name : string) : option JS.number :=
  match b with
  | [] => None
  | (k, v) :: r => if String.eqb k name then Some v else own r name
  end.

Fixpoint set_own (b : bindings) (name : string) (v : JS.number) : bindings :=
  match b with
  | [] => [(name, v)]
  | (k, w) :: r =>
      if String.eqb k name then (k, v) :: r else (k, w) :: set_own r name v
  end.

(** [out[name] = v] on a plain object: the inherited [__proto__] setter
    ignores a Number. *)
Definition assign (b : bindings) (name : string) (v : JS.number) : bindings :=
  if String.eqb name "__proto__" then b else set_own b name v.

(** The function-valued properties every plain object inherits from
    Object.prototype. *)
Definition object_prototype_methods : list string :=
  [ "hasOwnProperty"; "isPrototypeOf"; "propertyIsEnumerable";
    "toLocaleString"; "toString"; "valueOf"; "__defineGetter__";
    "__defineSetter__"; "__lookupGetter__"; "__lookupSetter__" ].

Definition mem_string (x : string) (l : list string) : bool :=
  existsb (String.eqb x) l.

(** [bindings[name]]: own property first, then the prototype. *)
Definition get (b : bindings) (name : string) : value :=
  match own b name with
  | Some x => VNum x
  | None =>
      if String.eqb name "constructor" then VNative "Object"
      else if mem_string name object_prototype_methods then VNative name
      else if String.eqb name "__proto__" then VObjectPrototype
      else VUndefined
  end.

(** ** Seeded PRNG (mulberry32) *)

(** [mulberry32(a)] returns a closure over the Number [a]; the closure
    is represented by the current content of [a]. *)
Definition mulberry32 (a : JS.number) : JS.number := a.

(** One call of the closure: the value returned and the new content of
    [a].  [a += 0x6d2b79f5] is an addition of Numbers; the bit operators
    and Math.imul then work on the 32-bit conversions of [t]. *)
Definition mix (t : Z) : Z :=
  let t := JS.imul (JS.bxor t (JS.ushr t 15)) (JS.bor t 1) in
  let t := JS.bxor t (t + JS.imul (JS.bxor t (JS.ushr t 7)) (JS.bor t 61)) in
  JS.ushr (JS.bxor t (JS.ushr t 14)) 0.

Definition rand (a : JS.number) : JS.number * JS.number :=
  let a' := JS.add a (JS.of_Z 1831565813) in
  let t := JS.trunc a' in
  (JS.div (JS.of_Z (mix t)) (JS.of_Z 4294967296), a').

(** The outputs of [n] successive calls. *)
Fixpoint draws (n : nat) (a : JS.number) : list JS.number :=
  match n with
  | O => []
  | S n' => let '(r, a') := rand a in r :: draws n' a'
  end.

(** ** Problem schema *)

Record param_spec := {
  name : string;
  min : JS.number;
  max : JS.number;
  step : option JS.number
}.

Record select_rule := {
  rule_match : string;
  rounding : option nat
}.

Record problem := {
  id : string;
  stem : string;
  params : list param_spec;
  options : list string;
  answerExpr : string;
  selectRule : option select_rule
}.

(** ** Helpers *)

Definition pickParam (a : JS.number) (min max : JS.number)
    (step : option JS.number) : JS.number * JS.number :=
  let step := match step with Some s => s | None => JS.of_Z 1 end in
  let nSteps := JS.add (JS.floor (JS.div (JS.sub max min) step)) (JS.of_Z 1) in
  let '(r, a') := rand a in
  let k := JS.floor (JS.mul r nSteps) in
  (JS.add min (JS.mul k step), a').

(** The placeholder pattern [\{\{\s*(\w+)\s*\}\}] at the head of [s]: the
    captured name and the text after the match. *)
Definition match_placeholder (s : string) : option (string * string) :=
  match s with
  | String "{" (String "{" r) =>
      let '(w, r') := span_word (skip_spaces r) in
      match w, skip_spaces r' with
      | String _ _, String "}" (String "}" r'') => Some (w, r'')
      | _, _ => None
      end
  | _ => None
  end.

(** [bindings[name] ?? ""] as text. *)
Definition substitute (b : bindings) (name : string) : string :=
  match get b name with
  | VUndefined => ""
  | v => String_of v
  end.

Fixpoint replace_placeholders (fuel : nat) (s : string) (b : bindings)
    : string :=
  match fuel with
  | O => s
  | S f =>
      match match_placeholder s with
      | Some (w, r) => substitute b w ++ replace_placeholders f r b
      | None =>
          match s with
          | EmptyString => ""
          | String c r => String c (replace_placeholders f r b)
          end
      end
  end.

Definition renderTemplate (stem : string) (b : bindings) : string :=
  replace_placeholders (S (String.length stem)) stem b.

(** [Math.pow(10, d)] for a number of decimals [d]. *)
Definition pow10 (d : nat) : JS.number := JS.of_Z (10 ^ Z.of_nat d).

Definition roundTo (x : JS.number) (d : nat) : JS.number :=
  let p := pow10 d in
  JS.div (JS.round (JS.mul x p)) p.

(** The pattern [-?\d+(?:\.\d+)?] at the head of [s]. *)
Definition match_numeric (s : string) : option string :=
  let '(sg, body) :=
    match s with
    | String "-" r => ("-", r)
    | _ => ("", s)
    end in
  match JS.span_digits body with
  | (String c int, rest) =>
      let frac :=
        match rest with
        | String "." r =>
            match fst (JS.span_digits r) with
            | EmptyString => ""
            | d => String "." d
            end
        | _ => ""
        end in
      Some (sg ++ String c int ++ frac)
  | _ => None
  end.

Fixpoint first_numeric (s : string) : option string :=
  match match_numeric s with
  | Some t => Some t
  | None =>
      match s with
      | EmptyString => None
      | String _ r => first_numeric r
      end
  end.

Definition numericFromOption (opt : string) : JS.number :=
  match first_numeric opt with
  | Some t => JS.parseFloat t
  | None => JS.NaN
  end.

(** ** Completions and the host *)

Inductive error :=
  | SyntaxError
  | ReferenceError (name : string)
  | TypeError (what : string).

(** How a piece of JavaScript ends: normally, by throwing, or outside
    what this development models. *)
Inductive completion (A : Type) :=
  | Normal (a : A)
  | Throw (e : error)
  | Unmodelled.
Arguments Normal {A} a.
Arguments Throw {A} e.
Arguments Unmodelled {A}.

(** What the engine supplies from outside the program: the values
    Math.random hands out, how many were taken, the global object, and
    its implementation of the functions of [Math] and of [**] whose
    results the language leaves to the implementation (or that are not
    defined here), as functions of their converted arguments. *)
Record host := {
  entropy : nat -> JS.number;
  taken : nat;
  global : string -> option value;
  math : string -> list JS.number -> JS.number
}.

Definition M (A : Type) : Type := host -> completion A * host.

Definition ret {A} (a : A) : M A := fun h => (Normal a, h).
Definition throw {A} (e : error) : M A := fun h => (Throw e, h).
Definition unmodelled {A} : M A := fun h => (Unmodelled, h).

Definition bind {A B} (m : M A) (k : A -> M B) : M B :=
  fun h =>
    match m h with
    | (Normal a, h') => k a h'
    | (Throw e, h') => (Throw e, h')
    | (Unmodelled, h') => (Unmodelled, h')
    end.

Notation "x <- m ;; k" := (bind m (fun x => k))
  (at level 61, m at next level, right associativity).

Definition Math_random : M JS.number :=
  fun h => (Normal (entropy h (taken h)),
            {| entropy := entropy h; taken := S (taken h); global := global h;
               math := math h |}).

(** The global object of the language itself. *)
Definition standard_global (x : string) : option value :=
  if String.eqb x "undefined" then Some VUndefined
  else if String.eqb x "NaN" then Some (VNum JS.NaN)
  else if String.eqb x "Infinity" then Some (VNum JS.Infinity)
  else if String.eqb x "Math" then Some VMath
  else None.

(** ** Answer expressions *)

(** The part of the expression language that is modelled: decimal
    literals, identifiers, members and calls of [Math], unary and binary
    arithmetic, parentheses. *)
Inductive binop := Add | Sub | Mul | Div | Mod | Pow.

#[warnings="-register-all"] Inductive expr :=
  | ENum (x : JS.number)
  | EVar (x : string)
  | EMathGet (m : string)
  | EMathCall (m : string) (args : list expr)
  | ENeg (e : expr)
  | EPos (e : expr)
  | EBin (op : binop) (l r : expr).

Inductive token :=
  | TNum (x : JS.number)
  | TIdent (x : string)
  | TPlus | TMinus | TStar | TSlash | TPercent | TPower
  | TLParen | TRParen | TDot | TComma.

Definition is_ident_start (c : ascii) : bool :=
  let n := JS.code c in
  ((65 <=? n) && (n <=? 90)) || ((97 <=? n) && (n <=? 122))
  || (n =? 95) || (n =? 36).

Definition is_ident_part (c : ascii) : bool :=
  is_ident_start c || JS.is_digit c.

Fixpoint span_ident (s : string) : string * string :=
  match s with
  | String c r =>
      if is_ident_part c then let '(w, t) := span_ident r in (String c w, t)
      else ("", s)
  | EmptyString => ("", "")
  end.

(** Words of the language that are not variable names. *)
Definition keywords : list string :=
  [ "break"; "case"; "catch"; "class"; "const"; "continue"; "debugger";
    "default"; "delete"; "do"; "else"; "enum"; "export"; "extends"; "false";
    "finally"; "for"; "function"; "if"; "import"; "in"; "instanceof"; "new";
    "null"; "return"; "super"; "switch"; "this"; "throw"; "true"; "try";
    "typeof"; "var"; "void"; "while"; "with"; "let"; "static"; "yield";
    "await"; "implements"; "interface"; "package"; "private"; "protected";
    "public"; "arguments"; "eval"; "async"; "of"; "get"; "set" ].

Definition simple_identifier (x : string) : bool :=
  match x with
  | String c r =>
      is_ident_start c && (snd (span_ident r) =? "")%string
      && negb (mem_string x keywords)
  | EmptyString => false
  end.

(** A decimal literal at the head of [s] (which starts with a digit):
    its value and the rest.  Legacy octal forms, a dot without fraction
    digits and a literal glued to a name are left out. *)
Definition lex_number (s : string) : option (JS.number * string) :=
  let '(int, r1) := JS.span_digits s in
  match int with
  | String "0" (String _ _) => None
  | _ =>
      let '(frac, r2, ok) :=
        match r1 with
        | String "." r =>
            let '(f, r') := JS.span_digits r in
            (f, r', negb (f =? "")%string)
        | _ => ("", r1, true)
        end in
      let '(exp, r3, ok') :=
        match r2 with
        | String c r =>
            if (JS.code c =? 101) || (JS.code c =? 69) then
              let '(sg, body) :=
                match r with
                | String "-" b => (-1, b)
                | String "+" b => (1, b)
                | _ => (1, r)
                end in
              let '(d, r') := JS.span_digits body in
              (sg * JS.digits_value d 0, r', negb (d =? "")%string)
            else (0, r2, true)
        | _ => (0, r2, true)
        end in
      let glued :=
        match r3 with
        | String c _ => is_ident_part c || (JS.code c =? 46)
        | _ => false
        end in
      if ok && ok' && negb glued then Some (of_literal int frac exp, r3)
      else None
  end.

(** Tokens of the modelled language; [None] on anything else, among it
    the operators [++] and [--], the spread [...] and comments. *)
Fixpoint lex (fuel : nat) (s : string) : option (list token) :=
  match fuel with
  | O => None
  | S f =>
      match s with
      | EmptyString => Some []
      | String c r =>
          let next := match r with String d _ => JS.code d | _ => 0 end in
          let one (t : token) := option_map (cons t) (lex f r) in
          if is_space c then lex f r
          else if JS.is_digit c then
            match lex_number s with
            | Some (x, r') => option_map (cons (TNum x)) (lex f r')
            | None => None
            end
          else if is_ident_start c then
            let '(w, r') := span_ident s in
            option_map (cons (TIdent w)) (lex f r')
          else
            match JS.code c with
            | 43 => if next =? 43 then None else one TPlus
            | 45 => if next =? 45 then None else one TMinus
            | 42 =>
                if next =? 42 then
                  match r with
                  | String _ r' => option_map (cons TPower) (lex f r')
                  | EmptyString => None
                  end
                else one TStar
            | 37 => one TPercent
            | 47 => if (next =? 47) || (next =? 42) then None else one TSlash
            | 40 => one TLParen
            | 41 => one TRParen
            | 46 =>
                if ((48 <=? next) && (next <=? 57)) || (next =? 46) then None
                else one TDot
            | 44 => one TComma
            | _ => None
            end
      end
  end.

(** Recursive descent with the precedences of the language: additive
    over multiplicative over exponentiation over unary over primary.  The
    base of [**] cannot be a signed operand without parentheses. *)
Fixpoint parse_additive (fuel : nat) (ts : list token)
    : option (expr * list token) :=
  match fuel with
  | O => None
  | S f =>
      match parse_multiplicative f ts with
      | Some (l, r) => parse_additive_rest f l r
      | None => None
      end
  end
with parse_additive_rest (fuel : nat) (l : expr) (ts : list token)
    : option (expr * list token) :=
  match fuel with
  | O => None
  | S f =>
      match ts with
      | TPlus :: r =>
          match parse_multiplicative f r with
          | Some (e, r') => parse_additive_rest f (EBin Add l e) r'
          | None => None
          end
      | TMinus :: r =>
          match parse_multiplicative f r with
          | Some (e, r') => parse_additive_rest f (EBin Sub l e) r'
          | None => None
          end
      | _ => Some (l, ts)
      end
  end
with parse_multiplicative (fuel : nat) (ts : list token)
    : option (expr * list token) :=
  match fuel with
  | O => None
  | S f =>
      match parse_exponent f ts with
      | Some (l, r) => parse_multiplicative_rest f l r
      | None => None
      end
  end
with parse_multiplicative_rest (fuel : nat) (l : expr) (ts : list token)
    : option (expr * list token) :=
  match fuel with
  | O => None
  | S f =>
      match ts with
      | TStar :: r =>
          match parse_exponent f r with
          | Some (e, r') => parse_multiplicative_rest f (EBin Mul l e) r'
          | None => None
          end
      | TSlash :: r =>
          match parse_exponent f r with
          | Some (e, r') => parse_multiplicative_rest f (EBin Div l e) r'
          | None => None
          end
      | TPercent :: r =>
          match parse_exponent f r with
          | Some (e, r') => parse_multiplicative_rest f (EBin Mod l e) r'
          | None => None
          end
      | _ => Some (l, ts)
      end
  end
with parse_exponent (fuel : nat) (ts : list token)
    : option (expr * list token) :=
  match fuel with
  | O => None
  | S f =>
      match ts with
      | TPlus :: _ | TMinus :: _ =>
          match parse_unary f ts with
          | Some (e, TPower :: _) => None
          | res => res
          end
      | _ =>
          match parse_primary f ts with
          | Some (l, TPower :: r) =>
              match parse_exponent f r with
              | Some (e, r') => Some (EBin Pow l e, r')
              | None => None
              end
          | res => res
          end
      end
  end
with parse_unary (fuel : nat) (ts : list token)
    : option (expr * list token) :=
  match fuel with
  | O => None
  | S f =>
      match ts with
      | TMinus :: r =>
          match parse_unary f r with
          | Some (e, r') => Some (ENeg e, r')
          | None => None
          end
      | TPlus :: r =>
          match parse_unary f r with
          | Some (e, r') => Some (EPos e, r')
          | None => None
          end
      | _ => parse_primary f ts
      end
  end
with parse_primary (fuel : nat) (ts : list token)
    : option (expr * list token) :=
  match fuel with
  | O => None
  | S f =>
      match ts with
      | TNum x :: r =>
          match r with
          | TDot :: _ | TLParen :: _ => None
          | _ => Some (ENum x, r)
          end
      | TIdent "Math" :: TDot :: TIdent m :: TLParen :: TRParen :: r =>
          match r with
          | TDot :: _ | TLParen :: _ => None
          | _ => Some (EMathCall m [], r)
          end
      | TIdent "Math" :: TDot :: TIdent m :: TLParen :: r =>
          match parse_arguments f r with
          | Some (args, TDot :: _) | Some (args, TLParen :: _) => None
          | Some (args, r') => Some (EMathCall m args, r')
          | None => None
          end
      | TIdent "Math" :: TDot :: TIdent m :: r =>
          match r with
          | TDot :: _ => None
          | _ => Some (EMathGet m, r)
          end
      | TIdent x :: r =>
          match r with
          | TDot :: _ | TLParen :: _ => None
          | _ => if mem_string x keywords then None else Some (EVar x, r)
          end
      | TLParen :: r =>
          match parse_additive f r with
          | Some (e, TRParen :: TDot :: _) | Some (e, TRParen :: TLParen :: _) =>
              None
          | Some (e, TRParen :: r') => Some (e, r')
          | _ => None
          end
      | _ => None
      end
  end
with parse_arguments (fuel : nat) (ts : list token)
    : option (list expr * list token) :=
  match fuel with
  | O => None
  | S f =>
      match parse_additive f ts with
      | Some (e, TComma :: r) =>
          match parse_arguments f r with
          | Some (es, r') => Some (e :: es, r')
          | None => None
          end
      | Some (e, TRParen :: r) => Some ([e], r)
      | _ => None
      end
  end.

(** The grammar of the language itself over the same tokens: member
    access and calls on any operand, argument lists with a trailing
    comma, the comma operator.  A token list it cannot derive is no
    expression at all.  [Undecided] stands for what is not settled here: a
    [/] where an operand is expected (it would start a regular
    expression) and, for the recursion, the end of the fuel. *)
Inductive verdict :=
  | Rest (ts : list token)
  | Rejected
  | Undecided.

Fixpoint derive_expression (fuel : nat) (ts : list token) : verdict :=
  match fuel with
  | O => Undecided
  | S f =>
      match derive_binary f ts with
      | Rest (TComma :: r) => derive_expression f r
      | v => v
      end
  end
with derive_binary (fuel : nat) (ts : list token) : verdict :=
  match fuel with
  | O => Undecided
  | S f =>
      match derive_exponent f ts with
      | Rest (TPlus :: r) | Rest (TMinus :: r) | Rest (TStar :: r)
      | Rest (TSlash :: r) | Rest (TPercent :: r) => derive_binary f r
      | v => v
      end
  end
with derive_exponent (fuel : nat) (ts : list token) : verdict :=
  match fuel with
  | O => Undecided
  | S f =>
      match ts with
      | TPlus :: _ | TMinus :: _ =>
          match derive_unary f ts with
          | Rest (TPower :: _) => Rejected
          | v => v
          end
      | _ =>
          match derive_operand f ts with
          | Rest (TPower :: r) => derive_exponent f r
          | v => v
          end
      end
  end
with derive_unary (fuel : nat) (ts : list token) : verdict :=
  match fuel with
  | O => Undecided
  | S f =>
      match ts with
      | TPlus :: r | TMinus :: r => derive_unary f r
      | _ => derive_operand f ts
      end
  end
with derive_operand (fuel : nat) (ts : list token) : verdict :=
  match fuel with
  | O => Undecided
  | S f =>
      match ts with
      | TNum _ :: r | TIdent _ :: r => derive_suffixes f r
      | TLParen :: r =>
          match derive_expression f r with
          | Rest (TRParen :: r') => derive_suffixes f r'
          | Rest _ => Rejected
          | v => v
          end
      | TSlash :: _ => Undecided
      | _ => Rejected
      end
  end
with derive_suffixes (fuel : nat) (ts : list token) : verdict :=
  match fuel with
  | O => Undecided
  | S f =>
      match ts with
      | TDot :: TIdent _ :: r => derive_suffixes f r
      | TDot :: _ => Rejected
      | TLParen :: TRParen :: r => derive_suffixes f r
      | TLParen :: r =>
          match derive_arguments f r with
          | Rest r' => derive_suffixes f r'
          | v => v
          end
      | _ => Rest ts
      end
  end
with derive_arguments (fuel : nat) (ts : list token) : verdict :=
  match fuel with
  | O => Undecided
  | S f =>
      match derive_binary f ts with
      | Rest (TComma :: TRParen :: r) => Rest r
      | Rest (TComma :: r) => derive_arguments f r
      | Rest (TRParen :: r) => Rest r
      | Rest _ => Rejected
      | v => v
      end
  end.

Definition is_keyword_token (t : token) : bool :=
  match t with
  | TIdent x => mem_string x keywords
  | _ => false
  end.

Fixpoint has_line_terminator (s : string) : bool :=
  match s with
  | EmptyString => false
  | String c r =>
      (JS.code c =? 10) || (JS.code c =? 13) || has_line_terminator r
  end.

(** Is [return (<text>);] certainly no function body?  The text is on
    one line (no semicolon can be inserted), none of its names is a word
    of the language, and [( <tokens> )] is not an expression followed by
    nothing. *)
Definition not_an_expression (text : string) (ts : list token) : bool :=
  negb (has_line_terminator text)
  && negb (existsb is_keyword_token ts)
  && match derive_expression (16 * List.length ts + 32)
             (TLParen :: ts ++ [TRParen]) with
     | Rest [] => false
     | Rest (_ :: _) => true
     | Rejected => true
     | Undecided => false
     end.

Inductive parsed :=
  | Parsed (e : expr)
  | Malformed
  | NotCovered.

(** The body [return (<text>);] handed to [Function]: blank text leaves
    [return ();], which no engine accepts; text of the modelled language
    gives its tree; text over the same tokens that is no expression is
    rejected by every engine. *)
Definition parse (text : string) : parsed :=
  match skip_spaces text with
  | EmptyString => Malformed
  | _ =>
      match lex (S (String.length text)) text with
      | Some ts =>
          match parse_additive (16 * List.length ts + 16) ts with
          | Some (e, []) => Parsed e
          | _ => if not_an_expression text ts then Malformed else NotCovered
          end
      | None => NotCovered
      end
  end.

(** ** Answer evaluation *)

(** The scope object [{ ...bindings, Math }]. *)
Definition scope := list (string * value).

Fixpoint scope_get (sc : scope) (x : string) : option value :=
  match sc with
  | [] => None
  | (k, v) :: r => if String.eqb k x then Some v else scope_get r x
  end.

Fixpoint scope_set (sc : scope) (x : string) (v : value) : scope :=
  match sc with
  | [] => [(x, v)]
  | (k, w) :: r =>
      if String.eqb k x then (k, v) :: r else (k, w) :: scope_set r x v
  end.

Definition scope_of (b : bindings) : scope :=
  scope_set (map (fun kv => (fst kv, VNum (snd kv))) b) "Math" VMath.

(** ToNumber, which is also what [Number(v)] does on these values: a
    Symbol cannot be converted. *)
Definition to_number (v : value) : M JS.number :=
  match v with
  | VSymbol _ => throw (TypeError "Cannot convert a Symbol value to a number")
  | _ => ret (Number_of v)
  end.

(** ToString, as the operator [+] applies it. *)
Definition to_string (v : value) : M string :=
  match v with
  | VSymbol _ => throw (TypeError "Cannot convert a Symbol value to a string")
  | _ => ret (String_of v)
  end.

(** ToPrimitive: the built-in objects become their text. *)
Definition to_primitive (v : value) : value :=
  match v with
  | VMath | VNative _ | VObjectPrototype => VStr (String_of v)
  | _ => v
  end.

(** The constants of [Math]. *)
Definition Math_E : JS.number := S754_finite false 6121026514868073 (-51).
Definition Math_LN10 : JS.number := S754_finite false 5184960683398422 (-51).
Definition Math_LN2 : JS.number := S754_finite false 6243314768165359 (-53).
Definition Math_LOG10E : JS.number := S754_finite false 7823553867474190 (-54).
Definition Math_LOG2E : JS.number := S754_finite false 6497320848556798 (-52).
Definition PI : JS.number := S754_finite false 7074237752028440 (-51).
Definition Math_SQRT1_2 : JS.number := S754_finite false 6369051672525773 (-53).
Definition Math_SQRT2 : JS.number := S754_finite false 6369051672525773 (-52).

Definition math_constants : list (string * JS.number) :=
  [ ("E", Math_E); ("LN10", Math_LN10); ("LN2", Math_LN2);
    ("LOG10E", Math_LOG10E); ("LOG2E", Math_LOG2E); ("PI", PI);
    ("SQRT1_2", Math_SQRT1_2); ("SQRT2", Math_SQRT2) ].

(** The functions of [Math].  Those of [math_defined] are computed here;
    the others take their result from the host. *)
Definition math_functions : list string :=
  [ "abs"; "acos"; "acosh"; "asin"; "asinh"; "atan"; "atanh"; "atan2";
    "cbrt"; "ceil"; "clz32"; "cos"; "cosh"; "exp"; "expm1"; "floor";
    "fround"; "hypot"; "imul"; "log"; "log1p"; "log10"; "log2"; "max";
    "min"; "pow"; "random"; "round"; "sign"; "sin"; "sinh"; "sqrt"; "tan";
    "tanh"; "trunc" ].

(** What else [Math] answers to: newer functions, and what it inherits
    from Object.prototype.  These are not modelled. *)
Definition math_others : list string :=
  [ "f16round"; "sumPrecise"; "constructor"; "__proto__" ]
  ++ object_prototype_methods.

Definition math_get (m : string) : M value :=
  match own math_constants m with
  | Some x => ret (VNum x)
  | None =>
      if mem_string m math_functions then ret (VNative m)
      else if mem_string m math_others then unmodelled
      else ret VUndefined
  end.

(** How many arguments a function of [Math] converts to Numbers, missing
    ones counting as [undefined]; [None] for the functions that convert
    every argument they are given. *)
Definition math_arity (m : string) : option nat :=
  if mem_string m ["atan2"; "imul"; "pow"] then Some 2%nat
  else if mem_string m ["hypot"; "max"; "min"] then None
  else Some 1%nat.

Fixpoint converted (n : nat) (vs : list value) : list value :=
  match n with
  | O => []
  | S n' =>
      match vs with
      | v :: r => v :: converted n' r
      | [] => VUndefined :: converted n' []
      end
  end.

Fixpoint to_numbers (vs : list value) : M (list JS.number) :=
  match vs with
  | [] => ret []
  | v :: r =>
      x <- to_number v ;;
      xs <- to_numbers r ;;
      ret (x :: xs)
  end.

(** The result of a function of [Math] on its converted arguments. *)
Definition apply_math (m : string) (xs : list JS.number) : M JS.number :=
  let x := match xs with x :: _ => x | [] => JS.NaN end in
  if String.eqb m "abs" then ret (SFabs x)
  else if String.eqb m "floor" then ret (JS.floor x)
  else if String.eqb m "round" then ret (JS.round x)
  else if String.eqb m "sqrt" then ret (SFsqrt JS.prec JS.emax x)
  else fun h => (Normal (math h m xs), h).

(** Calling the value [f] found in [Math]. *)
Definition call (f : value) (vs : list value) : M value :=
  match f with
  | VNative m =>
      if String.eqb m "random" then x <- Math_random ;; ret (VNum x)
      else if mem_string m math_functions then
        xs <- to_numbers (match math_arity m with
                          | Some n => converted n vs
                          | None => vs
                          end) ;;
        x <- apply_math m xs ;;
        ret (VNum x)
      else unmodelled
  | VUndefined => throw (TypeError "not a function")
  | VNum _ => throw (TypeError "not a function")
  | _ => unmodelled
  end.

(** The operators on two Numbers; the result of [**] is the host's. *)
Definition arith (op : binop) (x y : JS.number) : M JS.number :=
  match op with
  | Add => ret (JS.add x y)
  | Sub => ret (JS.sub x y)
  | Mul => ret (JS.mul x y)
  | Div => ret (JS.div x y)
  | Mod => ret (JS.remainder x y)
  | Pow => fun h => (Normal (math h "pow" [x; y]), h)
  end.

(** The operators other than [+] on two values: they work on the
    Numbers the operands convert to, the left one first. *)
Definition numeric (op : binop) (v w : value) : M value :=
  x <- to_number v ;;
  y <- to_number w ;;
  z <- arith op x y ;;
  ret (VNum z).

(** [v + w] joins the operands as text when one of them is a string or
    an object, and adds the Numbers they convert to otherwise. *)
Definition plus (v w : value) : M value :=
  match to_primitive v, to_primitive w with
  | VStr s, b => t <- to_string b ;; ret (VStr (s ++ t))
  | a, VStr t => s <- to_string a ;; ret (VStr (s ++ t))
  | _, _ => numeric Add v w
  end.

Definition binary (op : binop) (v w : value) : M value :=
  match op with
  | Add => plus v w
  | _ => numeric op v w
  end.

(** A name resolves to a parameter of the built function, then to a
    property of the global object; otherwise the reference fails. *)
Definition resolve (sc : scope) (x : string) : M value :=
  match scope_get sc x with
  | Some v => ret v
  | None =>
      fun h =>
        match global h x with
        | Some v => (Normal v, h)
        | None => (Throw (ReferenceError x), h)
        end
  end.

Fixpoint eval (sc : scope) (e : expr) {struct e} : M value :=
  match e with
  | ENum x => ret (VNum x)
  | EVar x => resolve sc x
  | EMathGet m => math_get m
  | EMathCall m args =>
      f <- math_get m ;;
      vs <- (fix eval_arguments (l : list expr) : M (list value) :=
               match l with
               | [] => ret []
               | a :: r =>
                   v <- eval sc a ;;
                   vs <- eval_arguments r ;;
                   ret (v :: vs)
               end) args ;;
      call f vs
  | ENeg a => v <- eval sc a ;; x <- to_number v ;; ret (VNum (JS.neg x))
  | EPos a => v <- eval sc a ;; x <- to_number v ;; ret (VNum x)
  | EBin op l r =>
      v <- eval sc l ;;
      w <- eval sc r ;;
      binary op v w
  end.

(** Words that are reserved everywhere, also as parameter names. *)
Definition reserved_words : list string :=
  [ "break"; "case"; "catch"; "class"; "const"; "continue"; "debugger";
    "default"; "delete"; "do"; "else"; "enum"; "export"; "extends"; "false";
    "finally"; "for"; "function"; "if"; "import"; "in"; "instanceof"; "new";
    "null"; "return"; "super"; "switch"; "this"; "throw"; "true"; "try";
    "typeof"; "var"; "void"; "while"; "with" ].

Fixpoint name_characters (x : string) : bool :=
  match x with
  | EmptyString => true
  | String c r => (is_ident_part c || (JS.code c =? 45)) && name_characters r
  end.

Fixpoint has_hyphen (x : string) : bool :=
  match x with
  | EmptyString => false
  | String c r => (JS.code c =? 45) || has_hyphen r
  end.

(** A key that is certainly no parameter name: made of letters, digits,
    [_], [$] and hyphens only, it has a hyphen, starts with a digit or is
    a reserved word. *)
Definition invalid_parameter (x : string) : bool :=
  match x with
  | EmptyString => false
  | String c _ =>
      name_characters x
      && (has_hyphen x || JS.is_digit c || mem_string x reserved_words)
  end.

(** [Function(...Object.keys(scope), `return (${text});`)
      (...Object.values(scope))].  The constructor rejects a parameter
    list or a body that is not valid. *)
Definition evaluate (sc : scope) (text : string) : M value :=
  if forallb (fun kv => simple_identifier (fst kv)) sc then
    match parse text with
    | Parsed e => eval sc e
    | Malformed => throw SyntaxError
    | NotCovered => unmodelled
    end
  else if forallb (fun kv => simple_identifier (fst kv)
                             || invalid_parameter (fst kv)) sc
  then throw SyntaxError
  else unmodelled.

(** ** Option matching *)

Record choice := {
  index : Z;
  numericAnswer : option JS.number
}.

(** The loop over the options in numeric mode, from position [i]. *)
Fixpoint numeric_loop (opts : list string) (i : Z) (r : nat)
    (target : JS.number) : Z :=
  match opts with
  | [] => -1
  | o :: rest =>
      let v := numericFromOption o in
      if negb (JS.is_finite v) then numeric_loop rest (i + 1) r target
      else if JS.strict_eq (roundTo v r) target then i
      else numeric_loop rest (i + 1) r target
  end.

(** Array.prototype.findIndex, from position [i]. *)
Fixpoint findIndex {A} (f : A -> bool) (l : list A) (i : Z) : Z :=
  match l with
  | [] => -1
  | x :: rest => if f x then i else findIndex f rest (i + 1)
  end.

Definition is_numeric_rule (p : problem) : bool :=
  match selectRule p with
  | Some rule => String.eqb (rule_match rule) "numeric"
  | None => false
  end.

Definition rounding_of (p : problem) : nat :=
  match selectRule p with
  | Some {| rounding := Some d |} => d
  | _ => 2%nat
  end.

(** What [chooseCorrectIndex] does once the answer is evaluated and, in
    numeric mode, converted to a Number. *)
Definition matchAnswer (p : problem) (answer : value) : choice :=
  if is_numeric_rule p then
    let r := rounding_of p in
    let target := roundTo (Number_of answer) r in
    {| index := numeric_loop (options p) 0 r target;
       numericAnswer := Some target |}
  else
    {| index :=
         findIndex (fun o => String.eqb (trim o) (trim (String_of answer)))
           (options p) 0;
       numericAnswer := None |}.

(** The rest of [chooseCorrectIndex], from the evaluated answer on: in
    numeric mode [Number(answer)] comes first, and throws for a Symbol. *)
Definition selectOption (p : problem) (answer : value) : M choice :=
  if is_numeric_rule p then
    x <- to_number answer ;;
    ret (matchAnswer p answer)
  else ret (matchAnswer p answer).

Definition chooseCorrectIndex (p : problem) (b : bindings) : M choice :=
  answer <- evaluate (scope_of b) (answerExpr p) ;;
  selectOption p answer.

(** ** Bindings and variants *)

Fixpoint bind_params (ps : list param_spec) (a : JS.number) (out : bindings)
    : bindings :=
  match ps with
  | [] => out
  | p :: rest =>
      let '(v, a') := pickParam a (min p) (max p) (step p) in
      bind_params rest a' (assign out (name p) v)
  end.

Definition generateBindings (p : problem) (seed : JS.number) : bindings :=
  bind_params (params p) (mulberry32 seed) [].

Record rendered_item := {
  item_problem : problem;
  item_bindings : bindings;
  item_index : Z;
  item_numericAnswer : option JS.number
}.

(** The body of [bank.map] in [ExamView], with the generator [rng]
    shared by the whole bank. *)
Fixpoint render_bank (rng : JS.number) (bank : list problem)
    : M (list rendered_item) :=
  match bank with
  | [] => ret []
  | p :: rest =>
      let '(r, rng') := rand rng in
      let b := generateBindings p (JS.floor (JS.mul r (JS.of_Z 1000000000))) in
      c <- chooseCorrectIndex p b ;;
      items <- render_bank rng' rest ;;
      ret ({| item_problem := p; item_bindings := b;
              item_index := index c;
              item_numericAnswer := numericAnswer c |} :: items)
  end.

Definition ExamView (bank : list problem) (seedIndex : Z)
    : M (list rendered_item) :=
  let variantSeed := JS.add (JS.of_Z 12345) (JS.of_Z seedIndex) in
  render_bank (mulberry32 variantSeed) bank.

(** The variant result of one problem for one seed: rendered stem,
    correct option index, numeric answer. *)
Record variant_result := {
  rendered_stem : string;
  correct_index : Z;
  numeric_answer : option JS.number
}.

Definition variantResult (p : problem) (seed : JS.number) : M variant_result :=
  let b := generateBindings p seed in
  c <- chooseCorrectIndex p b ;;
  ret {| rendered_stem := renderTemplate (stem p) b;
         correct_index := index c;
         numeric_answer := numericAnswer c |}.

(** ** The demonstration bank

    The Greek letters of the two stems lie outside the code units
    modelled and are spelled out. *)

Definition int (z : Z) : JS.number := JS.of_Z z.

Definition spec_R : param_spec :=
  {| name := "R"; min := int 4; max := int 12; step := Some (int 1) |}.
Definition spec_V : param_spec :=
  {| name := "V"; min := int 6; max := int 24; step := Some (int 2) |}.

Definition ohm1 : problem := {|
  id := "ohm1";
  stem := "A copper wire has resistance R = {{R}} ohm. A battery of V = {{V}} V is applied. The steady current is closest to:";
  params := [spec_R; spec_V];
  options := ["0.2 A"; "0.4 A"; "0.5 A"; "1.0 A"; "2.0 A"];
  answerExpr := "V / R";
  selectRule := Some {| rule_match := "numeric"; rounding := Some 1%nat |}
|}.

Definition capRC1 : problem := {|
  id := "capRC1";
  stem := "An RC circuit has R = {{R}} kohm and C = {{C}} uF. The time constant is:";
  params := [ {| name := "R"; min := int 5; max := int 25; step := Some (int 5) |};
              {| name := "C"; min := int 2; max := int 12; step := Some (int 2) |} ];
  options := ["10 ms"; "50 ms"; "100 ms"; "120 ms"; "250 ms"];
  answerExpr := "(R*1e3) * (C*1e-6)";
  selectRule := Some {| rule_match := "numeric"; rounding := Some 2%nat |}
|}.

Definition DEMO_BANK : list problem := [ohm1; capRC1].

(** A host with the language's own global object, whose Math.random
    hands out 0, 1/4, 2/4, 3/4 in turn; the functions of [Math] left to
    the host are not used on it. *)
Definition sample_host : host := {|
  entropy := fun n => JS.div (JS.of_Z (Z.of_nat n mod 4)) (JS.of_Z 4);
  taken := 0;
  global := standard_global;
  math := fun _ _ => JS.NaN
|}.

(** The same host on a page that has defined a global [sym] holding a
    Symbol. *)
Definition symbol_host : host := {|
  entropy := entropy sample_host;
  taken := 0;
  global := fun x => if String.eqb x "sym" then Some (VSymbol "")
                     else standard_global x;
  math := math sample_host
|}.

(** ** The service worker (sw.js) *)

Module ServiceWorker.

(** JSON.parse, as far as the worker uses it: the text is accepted or
    rejected with the engine's message.  The grammar is that of RFC 8259. *)
Inductive json_token :=
  | JLBrace | JRBrace | JLBracket | JRBracket | JColon | JComma
  | JString | JScalar.

Definition is_json_space (c : ascii) : bool :=
  let n := JS.code c in (n =? 32) || (n =? 9) || (n =? 10) || (n =? 13).

Definition is_hex (c : ascii) : bool :=
  let n := JS.code c in
  JS.is_digit c || ((65 <=? n) && (n <=? 70)) || ((97 <=? n) && (n <=? 102)).

(** The rest of the text after a string body, the opening quote being
    consumed. *)
Fixpoint lex_json_string (s : string) : option string :=
  match s with
  | EmptyString => None
  | String c r =>
      let n := JS.code c in
      if n =? 34 then Some r
      else if n <? 32 then None
      else if n =? 92 then
        match r with
        | String d r' =>
            let m := JS.code d in
            if (m =? 34) || (m =? 92) || (m =? 47) || (m =? 98) || (m =? 102)
               || (m =? 110) || (m =? 114) || (m =? 116)
            then lex_json_string r'
            else if m =? 117 then
              match r' with
              | String h1 (String h2 (String h3 (String h4 r''))) =>
                  if is_hex h1 && is_hex h2 && is_hex h3 && is_hex h4
                  then lex_json_string r''
                  else None
              | _ => None
              end
            else None
        | EmptyString => None
        end
      else lex_json_string r
  end.

(** A JSON number at the head of [s]; the rest of the text. *)
Definition lex_json_number (s : string) : option string :=
  let body := match s with String "-" r => r | _ => s end in
  let '(int, r1) := JS.span_digits body in
  let int_ok :=
    match int with
    | EmptyString => false
    | String "0" (String _ _) => false
    | _ => true
    end in
  let '(r2, frac_ok) :=
    match r1 with
    | String "." r =>
        let '(f, r') := JS.span_digits r in (r', negb (f =? "")%string)
    | _ => (r1, true)
    end in
  let '(r3, exp_ok) :=
    match r2 with
    | String c r =>
        if (JS.code c =? 101) || (JS.code c =? 69) then
          let b := match r with
                   | String "-" b => b
                   | String "+" b => b
                   | _ => r
                   end in
          let '(d, r') := JS.span_digits b in (r', negb (d =? "")%string)
        else (r2, true)
    | _ => (r2, true)
    end in
  if int_ok && frac_ok && exp_ok then Some r3 else None.

Definition strip_prefix (p s : string) : option string :=
  if String.prefix p s
  then Some (substring (String.length p) (String.length s - String.length p) s)
  else None.

Fixpoint lex_json (fuel : nat) (s : string) : option (list json_token) :=
  match fuel with
  | O => None
  | S f =>
      match s with
      | EmptyString => Some []
      | String c r =>
          let one (t : json_token) := option_map (cons t) (lex_json f r) in
          let word (w : string) :=
            match strip_prefix w s with
            | Some r' => option_map (cons JScalar) (lex_json f r')
            | None => None
            end in
          if is_json_space c then lex_json f r
          else
            match JS.code c with
            | 123 => one JLBrace
            | 125 => one JRBrace
            | 91 => one JLBracket
            | 93 => one JRBracket
            | 58 => one JColon
            | 44 => one JComma
            | 34 =>
                match lex_json_string r with
                | Some r' => option_map (cons JString) (lex_json f r')
                | None => None
                end
            | 116 => word "true"
            | 102 => word "false"
            | 110 => word "null"
            | _ =>
                match lex_json_number s with
                | Some r' =>
                    if (String.length r' <? String.length s)%nat
                    then option_map (cons JScalar) (lex_json f r')
                    else None
                | None => None
                end
            end
      end
  end.

Fixpoint json_value (fuel : nat) (ts : list json_token)
    : option (list json_token) :=
  match fuel with
  | O => None
  | S f =>
      match ts with
      | JString :: r | JScalar :: r => Some r
      | JLBracket :: JRBracket :: r => Some r
      | JLBracket :: r => json_elements f r
      | JLBrace :: JRBrace :: r => Some r
      | JLBrace :: r => json_members f r
      | _ => None
      end
  end
with json_elements (fuel : nat) (ts : list json_token)
    : option (list json_token) :=
  match fuel with
  | O => None
  | S f =>
      match json_value f ts with
      | Some (JComma :: r) => json_elements f r
      | Some (JRBracket :: r) => Some r
      | _ => None
      end
  end
with json_members (fuel : nat) (ts : list json_token)
    : option (list json_token) :=
  match fuel with
  | O => None
  | S f =>
      match ts with
      | JString :: JColon :: r =>
          match json_value f r with
          | Some (JComma :: r') => json_members f r'
          | Some (JRBrace :: r') => Some r'
          | _ => None
          end
      | _ => None
      end
  end.

Definition is_json (text : string) : bool :=
  match lex_json (S (String.length text)) text with
  | Some ts =>
      match json_value (2 * List.length ts + 2) ts with
      | Some [] => true
      | _ => false
      end
  | None => false
  end.

(** [JSON.parse(text)]: [None] when it returns, the message of the
    SyntaxError when it throws.  A missing text is converted to
    ["undefined"] first. *)
Definition JSON_parse (text : option string) : option string :=
  let s := match text with Some s => s | None => "undefined" end in
  if is_json s then None else Some "Unexpected token in JSON".

(** The data of a message event and the ports that came with it. *)
Record message_data := {
  type : option string;
  text : option string
}.

Record message_event := {
  data : option message_data;
  ports : list nat
}.

(** What the handler does to the outside. *)
Inductive reply :=
  | Ok
  | Failed (error : string).

Inductive action :=
  | PostMessage (port : nat) (r : reply)
  | ClaimClients.

(** [let currentExamText = null]. *)
Definition state := option string.

Definition initial : state := None.

(** [event.ports[0] && event.ports[0].postMessage(r)]. *)
Definition post (ev : message_event) (r : reply) : list action :=
  match ports ev with
  | p :: _ => [PostMessage p r]
  | [] => []
  end.

(** The listener for 'message'. *)
Definition on_message (currentExamText : state) (ev : message_event)
    : state * list action :=
  let d := match data ev with
           | Some d => d
           | None => {| type := None; text := None |}
           end in
  match type d with
  | Some "setExamData" =>
      match JSON_parse (text d) with
      | None => (text d, post ev Ok)
      | Some msg => (currentExamText, post ev (Failed msg))
      end
  | Some "claim" => (currentExamText, [ClaimClients])
  | _ => (currentExamText, [])
  end.

(** A 'setExamData' message with text [t] and ports [ps]. *)
Definition set_exam (t : string) (ps : list nat) : message_event :=
  {| data := Some {| type := Some "setExamData"; text := Some t |};
     ports := ps |}.

End ServiceWorker.

(** ** Vocabulary of the statements *)

(** The selection rule of a problem as a test on one option. *)
Definition option_matches (p : problem) (answer : value) (o : string) : bool :=
  if is_numeric_rule p then
    JS.is_finite (numericFromOption o)
    && JS.strict_eq (roundTo (numericFromOption o) (rounding_of p))
         (roundTo (Number_of answer) (rounding_of p))
  else String.eqb (trim o) (trim (String_of answer)).

(** The number of bits of an integer, its mantissa scaled to 53 bits, and
    the Number of value [z * 2^k] for an integer [z] of at most 53 bits. *)
Definition digits (z : Z) : Z := Z.log2 (Z.abs z) + 1.

Definition mantissa (z : Z) : Z := Z.abs z * 2 ^ (53 - digits z).

Definition dyadic (z k : Z) : JS.number :=
  match z with
  | Z0 => S754_zero false
  | Zpos _ => S754_finite false (Z.to_pos (mantissa z)) (k + digits z - 53)
  | Zneg _ => S754_finite true (Z.to_pos (mantissa z)) (k + digits z - 53)
  end.

Definition negative (z : Z) : bool := z <? 0.

(** A shift record and a location with nothing lost. *)
Definition exact_record (m : Z) : shr_record :=
  {| shr_m := m; shr_r := false; shr_s := false |}.

(** The locations on which rounding to nearest can go up. *)
Definition rounds_up (l : location) : Prop :=
  l = loc_Inexact Eq \/ l = loc_Inexact Gt.

(** The mixing steps of mulberry32 on an unsigned 32-bit word, every
    product and sum reduced modulo 2^32, and the word of position [n] of
    the sequence of a seed: the state is the seed advanced [n + 1] times
    by 0x6D2B79F5 modulo 2^32. *)
Definition mix_word (z : Z) : Z :=
  let z := (Z.lxor z (Z.shiftr z 15) * Z.lor z 1) mod JS.two32 in
  let z :=
    Z.lxor z
      ((z + (Z.lxor z (Z.shiftr z 7) * Z.lor z 61) mod JS.two32) mod JS.two32) in
  Z.lxor z (Z.shiftr z 14).

Definition mulberry32_word (seed : Z) (n : nat) : Z :=
  mix_word ((seed + (Z.of_nat n + 1) * 1831565813) mod JS.two32).

(** The generator after [n] calls, and the value its next call returns. *)
Fixpoint advance (n : nat) (a : JS.number) : JS.number :=
  match n with
  | O => a
  | S n' => advance n' (snd (rand a))
  end.

Definition draw_at (n : nat) (a : JS.number) : JS.number :=
  fst (rand (advance n a)).

(** What [pickParam] makes of one draw [r]. *)
Definition sample (r : JS.number) (sp : param_spec) : JS.number :=
  let st := match step sp with Some s => s | None => JS.of_Z 1 end in
  let nSteps :=
    JS.add (JS.floor (JS.div (JS.sub (max sp) (min sp)) st)) (JS.of_Z 1) in
  JS.add (min sp) (JS.mul (JS.floor (JS.mul r nSteps)) st).

(** Expressions that never call Math.random. *)
Fixpoint random_free (e : expr) : bool :=
  match e with
  | ENum _ | EVar _ | EMathGet _ => true
  | EMathCall m args =>
      negb (String.eqb m "random")
      && (fix all (l : list expr) : bool :=
            match l with
            | [] => true
            | a :: r => random_free a && all r
            end) args
  | ENeg a | EPos a => random_free a
  | EBin _ l r => random_free l && random_free r
  end.

(** Evaluation of an argument list, left to right. *)
Fixpoint eval_list (sc : scope) (l : list expr) : M (list value) :=
  match l with
  | [] => ret []
  | a :: r =>
      v <- eval sc a ;;
      vs <- eval_list sc r ;;
      ret (v :: vs)
  end.

Fixpoint all_random_free (l : list expr) : bool :=
  match l with
  | [] => true
  | a :: r => random_free a && all_random_free r
  end.

(** Expressions that name no member of [Math] outside what is modelled:
    constants, functions, and names that [Math] does not have. *)
Fixpoint math_covered (e : expr) : bool :=
  match e with
  | ENum _ | EVar _ => true
  | EMathGet m => negb (mem_string m math_others)
  | EMathCall m args =>
      negb (mem_string m math_others)
      && (fix all (l : list expr) : bool :=
            match l with
            | [] => true
            | a :: r => math_covered a && all r
            end) args
  | ENeg a | EPos a => math_covered a
  | EBin _ l r => math_covered l && math_covered r
  end.

Fixpoint all_math_covered (l : list expr) : bool :=
  match l with
  | [] => true
  | a :: r => math_covered a && all_math_covered r
  end.

(** Answer expressions in the arithmetic language modelled here that do
    not call Math.random: number literals, names, parentheses, the signs
    [+] and [-], the operators [+ - * / % **], constants and functions of
    [Math]; and texts over these tokens that are no expression at all. *)
Definition arithmetic (text : string) : Prop :=
  match parse text with
  | Parsed e => random_free e = true /\ math_covered e = true
  | Malformed => True
  | NotCovered => False
  end.

(** Parameter names that are identifiers, or certainly are not. *)
Definition settled_names (p : problem) : Prop :=
  forallb (fun sp => simple_identifier (name sp) || invalid_parameter (name sp))
    (params p) = true.

(** An outcome the model accounts for. *)
Definition modelled {A} (c : completion A) : Prop := c <> Unmodelled.

(** The names a plain object answers to without owning them. *)
Definition inherited (name : string) : bool :=
  String.eqb name "constructor" || mem_string name object_prototype_methods
  || String.eqb name "__proto__".

(** A template in which the placeholder pattern matches nowhere. *)
Fixpoint no_placeholder (s : string) : Prop :=
  match_placeholder s = None /\
  match s with
  | EmptyString => True
  | String _ r => no_placeholder r
  end.

Definition all_chars (f : ascii -> bool) (s : string) : Prop :=
  forall c, In c (list_ascii_of_string s) -> f c = true.

(** ** The selection rule in the words of the specification

    Numeric mode: round the answer to the declared precision (2 when none
    is declared); of each option take the leading numeric token, the first
    run of an optional sign, digits, and an optional decimal point with
    digits, and round it to the same precision; an option matches when
    its rounded value equals the rounded answer.  String mode: an option
    matches when its trimmed text equals the trimmed string form of the
    answer.  Rounding to [d] decimals is Math.round(x * 10^d) / 10^d,
    halves going up. *)
Module Rule.

Fixpoint without_leading (s : string) : string :=
  match s with
  | String c r => if is_space c then without_leading r else s
  | EmptyString => EmptyString
  end.

Fixpoint without_trailing (s : string) : string :=
  match s with
  | EmptyString => EmptyString
  | String c r =>
      match without_trailing r with
      | EmptyString => if is_space c then EmptyString else String c EmptyString
      | r' => String c r'
      end
  end.

Definition trimmed (s : string) : string :=
  without_trailing (without_leading s).

(** The digits at the head of [s], with the fraction that follows them
    when there is one. *)
Definition number_at (s : string) : string :=
  let '(int, rest) := JS.span_digits s in
  match rest with
  | String "." r =>
      match fst (JS.span_digits r) with
      | EmptyString => int
      | frac => int ++ "." ++ frac
      end
  | _ => int
  end.

Definition starts_with_digit (s : string) : bool :=
  match s with
  | String c _ => JS.is_digit c
  | EmptyString => false
  end.

Fixpoint leading_number (o : string) : option string :=
  match o with
  | EmptyString => None
  | String c r =>
      if JS.is_digit c then Some (number_at o)
      else if (JS.code c =? 45) && starts_with_digit r
      then Some ("-" ++ number_at r)
      else leading_number r
  end.

Definition rounded (x : JS.number) (d : nat) : JS.number :=
  JS.div (JS.round (JS.mul x (JS.of_Z (10 ^ Z.of_nat d))))
         (JS.of_Z (10 ^ Z.of_nat d)).

Definition numeric (p : problem) : bool :=
  match selectRule p with
  | Some rule => String.eqb (rule_match rule) "numeric"
  | None => false
  end.

Definition precision (p : problem) : nat :=
  match selectRule p with
  | Some rule =>
      match rounding rule with
      | Some d => d
      | None => 2%nat
      end
  | None => 2%nat
  end.

(** Does option [o] match the answer?  An option without a number, or
    whose number is not finite, matches no answer in numeric mode. *)
Definition matches (p : problem) (answer : value) (o : string) : bool :=
  if numeric p then
    match leading_number o with
    | Some t =>
        let v := JS.parseFloat t in
        JS.is_finite v
        && JS.strict_eq (rounded v (precision p))
             (rounded (Number_of answer) (precision p))
    | None => false
    end
  else String.eqb (trimmed o) (trimmed (String_of answer)).

End Rule.

(** Is the answer a Symbol? *)
Definition is_symbol (v : value) : bool :=
  match v with
  | VSymbol _ => true
  | _ => false
  end.

(** Problems and specifications used in the statements. *)

(** The same problem with other options, and with another answer
    expression. *)
Definition with_options (p : problem) (os : list string) : problem :=
  {| id := id p; stem := stem p; params := params p; options := os;
     answerExpr := answerExpr p; selectRule := selectRule p |}.

Definition with_answerExpr (p : problem) (text : string) : problem :=
  {| id := id p; stem := stem p; params := params p; options := options p;
     answerExpr := text; selectRule := selectRule p |}.

(** The same problem with another parameter list. *)
Definition with_params (p : problem) (ps : list param_spec) : problem :=
  {| id := id p; stem := stem p; params := ps; options := options p;
     answerExpr := answerExpr p; selectRule := selectRule p |}.

(** An integer specification. *)
Definition integer_spec (mn mx : Z) (sto : option JS.number) : param_spec :=
  {| name := "p"; min := int mn; max := int mx; step := sto |}.

(** A problem whose answer is a call of Math.random. *)
Definition random_answer : problem := {|
  id := "rnd";
  stem := "Pick {{R}}";
  params := [spec_R];
  options := ["0"; "0.25"];
  answerExpr := "Math.random()";
  selectRule := Some {| rule_match := "numeric"; rounding := Some 2%nat |}
|}.

(** min above max, and a step of zero. *)
Definition malformed : problem := {|
  id := "bad";
  stem := "x = {{x}}, y = {{y}}";
  params := [ {| name := "x"; min := int 5; max := int 1; step := Some (int 1) |};
              {| name := "y"; min := int 1; max := int 5; step := Some (int 0) |} ];
  options := ["3"; "4"];
  answerExpr := "x";
  selectRule := None
|}.

(** The demonstration problem with an undeclared name in its answer
    expression. *)
Definition broken : problem := {|
  id := "ohm2";
  stem := stem ohm1;
  params := [spec_R; spec_V];
  options := options ohm1;
  answerExpr := "V / Q";
  selectRule := selectRule ohm1
|}.

(** What every computation leaves of the host: the global object, the
    source of random values and the functions of [Math]. *)
Definition keeps (h h' : host) : Prop :=
  global h' = global h /\ entropy h' = entropy h /\ math h' = math h.

(** A computation that hands the host on unchanged, whatever its
    outcome; one that keeps of it what [keeps] names; one that has the
    same outcome on two hosts; one whose outcome the model accounts
    for. *)
Definition pure {A} (m : M A) : Prop := forall h, snd (m h) = h.

Definition keeping {A} (m : M A) : Prop := forall h, keeps h (snd (m h)).

Definition alike (h1 h2 : host) {A} (m : M A) : Prop :=
  fst (m h1) = fst (m h2).

Definition accounted {A} (m : M A) : Prop := forall h, modelled (fst (m h)).

(** Induction on expressions, argument lists included. *)
Section ExprInduction.

Variable P : expr -> Prop.
Hypothesis HNum : forall x, P (ENum x).
Hypothesis HVar : forall x, P (EVar x).
Hypothesis HGet : forall m, P (EMathGet m).
Hypothesis HCall : forall m args, Forall P args -> P (EMathCall m args).
Hypothesis HNeg : forall a, P a -> P (ENeg a).
Hypothesis HPos : forall a, P a -> P (EPos a).
Hypothesis HBin : forall op l r, P l -> P r -> P (EBin op l r).

Fixpoint expr_induction (e : expr) : P e :=
  match e with
  | ENum x => HNum x
  | EVar x => HVar x
  | EMathGet m => HGet m
  | EMathCall m args =>
      HCall m args
        ((fix go (l : list expr) : Forall P l :=
            match l with
            | [] => Forall_nil P
            | a :: r => Forall_cons a (expr_induction a) (go r)
            end) args)
  | ENeg a => HNeg a (expr_induction a)
  | EPos a => HPos a (expr_induction a)
  | EBin op l r => HBin op l r (expr_induction l) (expr_induction r)
  end.

End ExprInduction.

(** ** Text *)

(** The double quote and the line feed. *)
Definition dq : string := String (ascii_of_nat 34) EmptyString.
Definition nl : string := String (ascii_of_nat 10) EmptyString.

(** [s.includes(pat)]. *)
Fixpoint includes (s pat : string) : bool :=
  if String.prefix pat s then true
  else
    match s with
    | EmptyString => false
    | String _ r => includes r pat
    end.

(** The sub-seed [ExamView] hands to [generateBindings] for the problem at
    position [k] of the bank: [Math.floor(rng() * 1e9)] at the [k]-th call
    of [rng]. *)
Definition sub_seed (variantSeed : JS.number) (k : nat) : JS.number :=
  JS.floor (JS.mul (draw_at k (mulberry32 variantSeed)) (JS.of_Z 1000000000)).

(** ** Images of a problem (ImageEditor, ExamView, App) *)

Module Images.

(** An element of [problem.images]: [src] and the optional [alt],
    [widthPct] and [align]. *)
Record image := {
  src : string;
  alt : option string;
  widthPct : option JS.number;
  align : option string
}.

(** A problem of the bank with its [images] property, which may be
    missing. *)
Record entry := {
  problem_of : problem;
  images : option (list image)
}.

(** [p.images || []]. *)
Definition images_of (e : entry) : list image :=
  match images e with
  | Some l => l
  | None => []
  end.

(** [next[i] = v] for an index [i] of the array. *)
Fixpoint store {A} (l : list A) (i : nat) (v : A) : list A :=
  match l, i with
  | [], _ => []
  | _ :: r, O => v :: r
  | x :: r, S j => x :: store r j v
  end.

(** The buttons of the [i]-th image.  They are created by [map] over the
    array they copy, so [i] is an index of it; [None] stands for an index
    that is not, for which no button exists.

    Up: [if (i>0) [next[i-1], next[i]] = [next[i], next[i-1]]]. *)
Definition move_up (imgs : list image) (i : nat) : option (list image) :=
  match nth_error imgs i with
  | None => None
  | Some cur =>
      if (0 <? i)%nat then
        match nth_error imgs (i - 1) with
        | Some prev => Some (store (store imgs (i - 1) cur) i prev)
        | None => None
        end
      else Some imgs
  end.

(** Down: [if (i<next.length-1) [next[i+1], next[i]] = [next[i], next[i+1]]]. *)
Definition move_down (imgs : list image) (i : nat) : option (list image) :=
  match nth_error imgs i with
  | None => None
  | Some cur =>
      if Z.of_nat i <? Z.of_nat (List.length imgs) - 1 then
        match nth_error imgs (i + 1) with
        | Some following => Some (store (store imgs (i + 1) cur) i following)
        | None => None
        end
      else Some imgs
  end.

(** Remove: [next.splice(i,1)]. *)
Definition remove_image (imgs : list image) (i : nat) : option (list image) :=
  match nth_error imgs i with
  | None => None
  | Some _ => Some (firstn i imgs ++ skipn (S i) imgs)%list
  end.

(** [setBank(prev => prev.map(p => p.id === id ? { ...p, images: imgs } : p))]. *)
Definition update_images (bank : list entry) (pid : string) (imgs : list image)
    : list entry :=
  map (fun e =>
         if String.eqb (id (problem_of e)) pid
         then {| problem_of := problem_of e; images := Some imgs |}
         else e) bank.

(** [bank.find(p => p.id === imageEditorFor)]. *)
Definition find_problem (bank : list entry) (pid : string) : option entry :=
  List.find (fun e => String.eqb (id (problem_of e)) pid) bank.

(** An image with a source only. *)
Definition pic (n : string) : image :=
  {| src := n; alt := None; widthPct := None; align := None |}.

End Images.

(** ** Export (exportNow, buildStandaloneHTML) *)

Module HtmlExport.
Import Images.

(** [x || fallback] on an optional string: a missing and an empty string
    both give the fallback. *)
Definition or_else (x : option string) (fallback : string) : string :=
  match x with
  | Some (String c r) => String c r
  | _ => fallback
  end.

(** The markup of one image. *)
Definition image_html (img : image) : string :=
  let width :=
    match widthPct img with
    | Some w => w
    | None => JS.of_Z 60
    end in
  let style :=
    "style=" ++ dq ++ "width:" ++ JS.to_string width
    ++ "%;display:inline-block;" ++ dq in
  let alignWrapStart :=
    "<div style=" ++ dq ++ "text-align:" ++ or_else (align img) "center"
    ++ dq ++ ">" in
  let alignWrapEnd := "</div>" in
  alignWrapStart ++ "<img src=" ++ dq ++ src img ++ dq ++ " alt=" ++ dq
  ++ or_else (alt img) "" ++ dq ++ " " ++ style ++ "/>" ++ alignWrapEnd.

(** [String.fromCharCode(97 + i)], for the positions whose letter is a
    code unit below 256. *)
Definition option_letter (i : nat) : option string :=
  if (i <? 159)%nat then Some (String (ascii_of_nat (97 + i)) EmptyString)
  else None.

(** The markup of the options from position [i] on, joined. *)
Fixpoint options_html (opts : list string) (i : nat) (index : Z)
    (showSolutions : bool) : option string :=
  match opts with
  | [] => Some ""
  | opt :: rest =>
      let cls :=
        if showSolutions && (Z.of_nat i =? index)
        then "option" ++ " solutions-correct" else "option" in
      match option_letter i, options_html rest (S i) index showSolutions with
      | Some letter, Some tail =>
          Some ("<div class=" ++ dq ++ cls ++ dq ++ ">" ++ letter ++ ". " ++ opt
                ++ "</div>" ++ tail)
      | _, _ => None
      end
  end.

(** The markup of one question: the callback of [bank.map] in
    [exportNow], once bindings and index are known. *)
Definition question_html (e : entry) (idx : nat) (b : bindings) (index : Z)
    (showSolutions : bool) : option string :=
  let p := problem_of e in
  let stem := renderTemplate (stem p) b in
  let imgs := String.concat "" (map image_html (images_of e)) in
  match options_html (options p) 0 index showSolutions with
  | Some opts =>
      Some ("<div class=" ++ dq ++ "question" ++ dq ++ "><div class=" ++ dq
            ++ "stem" ++ dq ++ "><span class=" ++ dq ++ "q-label" ++ dq ++ ">[Q"
            ++ JS.to_string (JS.of_Z (Z.of_nat idx + 1)) ++ "]</span> " ++ stem
            ++ "</div>"
            ++ (match imgs with
                | EmptyString => ""
                | _ => "<div class=" ++ dq ++ "images" ++ dq ++ ">" ++ imgs
                       ++ "</div>"
                end)
            ++ "<div class=" ++ dq ++ "options" ++ dq ++ ">" ++ opts
            ++ "</div></div>")
  | None => None
  end.

(** [bank.map((p, idx) => ...)] in [exportNow], from position [idx], with
    the generator [rng] shared by the whole bank.  A problem with more
    options than there are letters below 256 is outside the model. *)
Fixpoint export_items (rng : JS.number) (bank : list entry) (idx : nat)
    (showSolutions : bool) : M (list string) :=
  match bank with
  | [] => ret []
  | e :: rest =>
      let p := problem_of e in
      let '(r, rng') := rand rng in
      let b := generateBindings p (JS.floor (JS.mul r (JS.of_Z 1000000000))) in
      c <- chooseCorrectIndex p b ;;
      item <- match question_html e idx b (index c) showSolutions with
              | Some text => ret text
              | None => unmodelled
              end ;;
      items <- export_items rng' rest (S idx) showSolutions ;;
      ret (item :: items)
  end.

(** The [html] string of [exportNow]. *)
Definition export_body (bank : list entry) (seedIndex : Z)
    (showSolutions : bool) : M string :=
  let rng := mulberry32 (JS.add (JS.of_Z 12345) (JS.of_Z seedIndex)) in
  items <- export_items rng bank 0 showSolutions ;;
  ret ("<div>" ++ String.concat "" items ++ "</div>").

(** The style sheet of the exported document. *)
Definition baseCss : string :=
  nl ++ "  /* Minimal print-friendly CSS; align class names with your templates */"
  ++ nl ++ "  body { font-family: 'Times New Roman', Georgia, serif; font-size: 11pt; line-height: 1.4; color: #000; }"
  ++ nl ++ "  .q-label { color: #2b579a; font-weight: 700; }"
  ++ nl ++ "  .option { margin: 0.18rem 0; }"
  ++ nl ++ "  .options { margin-top: 0.35rem; }"
  ++ nl ++ "  img { page-break-inside: avoid; }"
  ++ nl ++ "  @media print { @page { size: Letter; margin: 0.5in; } }"
  ++ nl ++ "  .solutions .option { background: #fff59d; font-weight: 700; }"
  ++ nl ++ "  ".

Definition buildStandaloneHTML (title bodyHTML : string) (showSolutions : bool)
    : string :=
  "<!DOCTYPE html><html><head><meta charset=" ++ dq ++ "utf-8" ++ dq ++ "/>"
  ++ nl ++ "  <title>" ++ title ++ "</title>"
  ++ nl ++ "  <style>" ++ baseCss ++ "</style>"
  ++ nl ++ "  </head>"
  ++ nl ++ "  <body class=" ++ dq
  ++ (if showSolutions then "solutions" else "") ++ dq ++ ">"
  ++ nl ++ "    " ++ bodyHTML
  ++ nl ++ "  </body></html>".

End HtmlExport.

(** The questions of the exported document that correspond to the items
    of a rendered variant, from position [idx]. *)
Fixpoint questions_of (bank : list Images.entry) (items : list rendered_item)
    (idx : nat) (showSolutions : bool) : list string :=
  match bank, items with
  | e :: bank', it :: items' =>
      match HtmlExport.question_html e idx (item_bindings it) (item_index it)
              showSolutions with
      | Some text => text
      | None => ""
      end :: questions_of bank' items' (S idx) showSolutions
  | _, _ => []
  end.

(** ** The variant counter and its Greek marker (App, VariantHeader) *)

Module Variant.

(** [Math.max(x, y)]. *)
Definition Math_max (x y : JS.number) : JS.number :=
  match x, y with
  | S754_nan, _ | _, S754_nan => JS.NaN
  | S754_zero true, S754_zero false => y
  | _, _ => if JS.ltb x y then y else x
  end.

(** [array[n]] for a Number [n]: the element when [n] is an integer
    within the array, [undefined] otherwise. *)
Definition element {A} (l : list A) (n : JS.number) : option A :=
  match n with
  | S754_zero _ => nth_error l 0
  | S754_finite false m e =>
      if 0 <=? e then
        if Zpos m * 2 ^ e <? Z.of_nat (List.length l)
        then nth_error l (Z.to_nat (Zpos m * 2 ^ e)) else None
      else if Zpos m mod 2 ^ (- e) =? 0 then
        nth_error l (Z.to_nat (Zpos m / 2 ^ (- e)))
      else None
  | _ => None
  end.

(** The letters of [GREEK], each a string of one code unit, by their
    code units: alpha to omega without the final sigma. *)
Definition GREEK : list Z :=
  [ 945; 946; 947; 948; 949; 950; 951; 952; 953; 954; 955; 956;
    957; 958; 959; 960; 961; 963; 964; 965; 966; 967; 968; 969 ].

(** [GREEK[seedIndex % GREEK.length] || "alpha"]. *)
Definition marker (seedIndex : JS.number) : Z :=
  match element GREEK
          (JS.remainder seedIndex (JS.of_Z (Z.of_nat (List.length GREEK)))) with
  | Some letter => letter
  | None => 945
  end.

(** The buttons of the variant counter:
    [setSeedIndex((s) => Math.max(0, s - 1))] and
    [setSeedIndex((s) => s + 1)]. *)
Definition previous (s : JS.number) : JS.number :=
  Math_max (JS.of_Z 0) (JS.sub s (JS.of_Z 1)).

Definition next (s : JS.number) : JS.number := JS.add s (JS.of_Z 1).

(** The values the counter takes: it starts at 0 and changes by the two
    buttons only. *)
Inductive counter : JS.number -> Prop :=
  | counter_start : counter (JS.of_Z 0)
  | counter_previous : forall s, counter s -> counter (previous s)
  | counter_next : forall s, counter s -> counter (next s).

End Variant.

(** ** The fetch handler of the service worker (sw.js) *)

Module ExamDataWorker.

(** [s.endsWith(suffix)]. *)
Definition endsWith (s suffix : string) : bool :=
  (String.length suffix <=? String.length s)%nat
  && String.eqb
       (substring (String.length s - String.length suffix)
          (String.length suffix) s)
       suffix.

(** What [event.respondWith] is given: status, content type and body. *)
Record response := {
  status : Z;
  content_type : string;
  body : string
}.

(** [JSON.stringify({ error: message }, null, 2)] for a message without
    characters to escape. *)
Definition error_object (message : string) : string :=
  "{" ++ nl ++ "  " ++ dq ++ "error" ++ dq ++ ": " ++ dq ++ message ++ dq
  ++ nl ++ "}".

Definition served (text : string) : response :=
  {| status := 200;
     content_type := "application/json; charset=utf-8";
     body := text |}.

Definition missing (message : string) : response :=
  {| status := 400;
     content_type := "application/json";
     body := error_object message |}.

(** The listener for 'fetch', on the path of the requested URL: the
    response, or [None] when the request is left to the network. *)
Definition on_fetch (currentExamText : ServiceWorker.state) (pathname : string)
    : option response :=
  if endsWith pathname "/exam_data.json" then
    match currentExamText with
    | Some (String c r) => Some (served (String c r))
    | _ =>
        Some (missing
                "No exam JSON loaded. Open loader.html and choose a file first.")
    end
  else None.

(** The stored text after a sequence of messages. *)
Fixpoint after (st : ServiceWorker.state)
    (events : list ServiceWorker.message_event) : ServiceWorker.state :=
  match events with
  | [] => st
  | ev :: rest => after (fst (ServiceWorker.on_message st ev)) rest
  end.


(** A message that does not set the exam text: any type other than
    'setExamData', or a text that does not parse. *)
Definition ignored (ev : ServiceWorker.message_event) : Prop :=
  forall d, ServiceWorker.data ev = Some d ->
    ServiceWorker.type d = Some "setExamData" ->
    ServiceWorker.JSON_parse (ServiceWorker.text d) <> None.

End ExamDataWorker.

(** ** The worker for exam and solutions data *)

Module SolutionsWorker.

Record message_data := {
  type : option string;
  text : option string;
  target : option string
}.

Record message_event := {
  data : option message_data;
  ports : list nat
}.

(** [currentExamText] and [currentSolutionsText], both [null] at first. *)
Record stores := {
  currentExamText : option string;
  currentSolutionsText : option string
}.

Definition initial : stores :=
  {| currentExamText := None; currentSolutionsText := None |}.

Definition post (ev : message_event) (r : ServiceWorker.reply)
    : list ServiceWorker.action :=
  match ports ev with
  | p :: _ => [ServiceWorker.PostMessage p r]
  | [] => []
  end.

(** [x === s] for a property that holds a string or is missing. *)
Definition holds (x : option string) (s : string) : bool :=
  match x with
  | Some t => String.eqb t s
  | None => false
  end.

(** The listener for 'message'. *)
Definition on_message (st : stores) (ev : message_event)
    : stores * list ServiceWorker.action :=
  let d := match data ev with
           | Some d => d
           | None => {| type := None; text := None; target := None |}
           end in
  if holds (type d) "setExamData" then
    match ServiceWorker.JSON_parse (text d) with
    | None =>
        ({| currentExamText := text d;
            currentSolutionsText := currentSolutionsText st |},
         post ev ServiceWorker.Ok)
    | Some msg => (st, post ev (ServiceWorker.Failed msg))
    end
  else if holds (type d) "setSolutionsData" then
    match ServiceWorker.JSON_parse (text d) with
    | None =>
        ({| currentExamText := currentExamText st;
            currentSolutionsText := text d |},
         post ev ServiceWorker.Ok)
    | Some msg => (st, post ev (ServiceWorker.Failed msg))
    end
  else if holds (type d) "setData" then
    match ServiceWorker.JSON_parse (text d) with
    | None =>
        (if holds (target d) "solutions" then
           {| currentExamText := currentExamText st;
              currentSolutionsText := text d |}
         else if holds (target d) "exam" then
           {| currentExamText := text d;
              currentSolutionsText := currentSolutionsText st |}
         else
           {| currentExamText := text d; currentSolutionsText := text d |},
         post ev ServiceWorker.Ok)
    | Some msg => (st, post ev (ServiceWorker.Failed msg))
    end
  else if holds (type d) "claim" then (st, [ServiceWorker.ClaimClients])
  else (st, []).

(** The listener for 'fetch'. *)
Definition on_fetch (st : stores) (pathname : string)
    : option ExamDataWorker.response :=
  if ExamDataWorker.endsWith pathname "/exam_data.json" then
    match currentExamText st with
    | Some (String c r) => Some (ExamDataWorker.served (String c r))
    | _ =>
        Some (ExamDataWorker.missing
                "No exam JSON loaded. Open loader.html and choose a file first.")
    end
  else if ExamDataWorker.endsWith pathname "/solutions_data.json" then
    match currentSolutionsText st with
    | Some (String c r) => Some (ExamDataWorker.served (String c r))
    | _ =>
        Some (ExamDataWorker.missing
                "No solutions JSON loaded. Open loader.html and choose a file first.")
    end
  else None.

Fixpoint after (st : stores) (events : list message_event) : stores :=
  match events with
  | [] => st
  | ev :: rest => after (fst (on_message st ev)) rest
  end.

(** The same message as sw.js receives it: without the target. *)
Definition plain (ev : message_event) : ServiceWorker.message_event :=
  {| ServiceWorker.data :=
       match data ev with
       | Some d => Some {| ServiceWorker.type := type d;
                           ServiceWorker.text := text d |}
       | None => None
       end;
     ServiceWorker.ports := ports ev |}.


(** A 'setSolutionsData' message with text [t] and no port. *)
Definition set_solutions (t : string) : message_event :=
  {| data := Some {| type := Some "setSolutionsData"; text := Some t;
                     target := None |};
     ports := [] |}.

End SolutionsWorker.

(** ** Arithmetic answer expressions *)

(** Expressions made of Number literals, names bound to Numbers in the
    scope, signs and binary operators. *)
Fixpoint plain_arithmetic (sc : scope) (e : expr) : bool :=
  match e with
  | ENum _ => true
  | EVar x =>
      match scope_get sc x with
      | Some (VNum _) => true
      | _ => false
      end
  | ENeg a | EPos a => plain_arithmetic sc a
  | EBin _ l r => plain_arithmetic sc l && plain_arithmetic sc r
  | EMathGet _ | EMathCall _ _ => false
  end.

(** ** More problems used in the statements *)

(** The name x declared twice. *)
Definition twice_x : problem := {|
  id := "dup";
  stem := "x = {{x}}";
  params := [ {| name := "x"; min := int 1; max := int 3; step := None |};
              {| name := "x"; min := int 10; max := int 20; step := None |} ];
  options := [];
  answerExpr := "x";
  selectRule := None
|}.

(** An option without a digit, in numeric mode. *)
Definition worded : problem := {|
  id := "w";
  stem := "";
  params := [];
  options := ["none of these"; "1"];
  answerExpr := "NaN";
  selectRule := Some {| rule_match := "numeric"; rounding := None |}
|}.

(* ================================================================== *)
(** * Part II.  Properties                                              *)
(* ================================================================== *)

(** ** Exact arithmetic on Numbers *)

Lemma digits2_pos_size : forall p, digits2_pos p = Pos.size p.
Proof. induction p; simpl; congruence. Qed.

Lemma Zdigits2_log2 : forall z, 0 < z -> Zdigits2 z = Z.log2 z + 1.
Proof.
  intros z Hz. destruct z as [|p|p]; try lia.
  unfold Zdigits2. rewrite digits2_pos_size.
  destruct p; simpl; lia.
Qed.

Lemma log2_mul_pow2 : forall z n, 0 < z -> 0 <= n -> Z.log2 (z * 2 ^ n) = Z.log2 z + n.
Proof.
  intros z n Hz Hn. rewrite <- Z.shiftl_mul_pow2 by lia.
  apply Z.log2_shiftl; lia.
Qed.

Lemma digits_bounds : forall z, 0 < z -> 2 ^ (digits z - 1) <= z < 2 ^ digits z.
Proof.
  intros z Hz. unfold digits. rewrite Z.abs_eq by lia.
  replace (Z.log2 z + 1 - 1) with (Z.log2 z) by lia.
  replace (Z.log2 z + 1) with (Z.succ (Z.log2 z)) by lia.
  apply Z.log2_spec. exact Hz.
Qed.

Lemma digits_pos : forall z, 0 < z -> 1 <= digits z.
Proof. intros z Hz. unfold digits. pose proof (Z.log2_nonneg (Z.abs z)). lia. Qed.

Lemma digits_le_53 : forall z, 0 < z < 9007199254740992 -> digits z <= 53.
Proof.
  intros z Hz. unfold digits. rewrite Z.abs_eq by lia.
  assert (Z.log2 z < 53); [|lia].
  apply Z.log2_lt_pow2; [lia|]. change (2 ^ 53) with 9007199254740992. lia.
Qed.

Lemma mantissa_bounds :
  forall z, 0 < z < 9007199254740992 ->
    4503599627370496 <= mantissa z < 9007199254740992.
Proof.
  intros z Hz. unfold mantissa. rewrite Z.abs_eq by lia.
  pose proof (digits_bounds z ltac:(lia)) as [B1 B2].
  pose proof (digits_le_53 z Hz) as D. pose proof (digits_pos z ltac:(lia)) as D1.
  assert (P : 0 < 2 ^ (53 - digits z)) by (apply Z.pow_pos_nonneg; lia).
  split.
  - change 4503599627370496 with (2 ^ 52).
    replace 52 with ((digits z - 1) + (53 - digits z)) by lia.
    rewrite Z.pow_add_r by lia. apply Z.mul_le_mono_pos_r; assumption.
  - change 9007199254740992 with (2 ^ 53).
    replace 53 with (digits z + (53 - digits z)) at 2 by lia.
    rewrite Z.pow_add_r by lia. apply Z.mul_lt_mono_pos_r; assumption.
Qed.

(** [iter_pos] is iteration [Pos.to_nat] times. *)
Lemma iter_pos_nat :
  forall {A} (f : A -> A) p x, iter_pos f p x = Nat.iter (Pos.to_nat p) f x.
Proof.
  intros A f. 
  assert (C : forall n x, Nat.iter n f (f x) = f (Nat.iter n f x)).
  { induction n; intro x; simpl; [reflexivity|]. rewrite IHn. reflexivity. }
  assert (D : forall n m x, Nat.iter (n + m) f x = Nat.iter n f (Nat.iter m f x)).
  { induction n; intros m x; simpl; [reflexivity|]. rewrite IHn. reflexivity. }
  induction p as [p IH|p IH|]; intro x; cbn [iter_pos].
  - rewrite !IH. rewrite Pos2Nat.inj_xI.
    replace (S (2 * Pos.to_nat p)) with (Pos.to_nat p + S (Pos.to_nat p))%nat by lia.
    rewrite D.
    change (Nat.iter (S (Pos.to_nat p)) f x) with (f (Nat.iter (Pos.to_nat p) f x)).
    rewrite (C _ x). reflexivity.
  - rewrite !IH. rewrite Pos2Nat.inj_xO.
    replace (2 * Pos.to_nat p)%nat with (Pos.to_nat p + Pos.to_nat p)%nat by lia.
    rewrite D. reflexivity.
  - reflexivity.
Qed.

Lemma shr_1_double : forall z, 0 <= z -> shr_1 (exact_record (2 * z)) = exact_record z.
Proof. intros [|p|p] Hz; try lia; reflexivity. Qed.

Lemma shr_exact_nat :
  forall n z, 0 <= z ->
    Nat.iter n shr_1 (exact_record (z * 2 ^ Z.of_nat n)) = exact_record z.
Proof.
  induction n as [|n IH]; intros z Hz.
  - simpl. rewrite Z.mul_1_r. reflexivity.
  - rewrite Nat2Z.inj_succ, Z.pow_succ_r by lia.
    rewrite Nat.iter_succ_r.
    replace (z * (2 * 2 ^ Z.of_nat n)) with (2 * (z * 2 ^ Z.of_nat n)) by ring.
    rewrite shr_1_double by (apply Z.mul_nonneg_nonneg; [lia|apply Z.pow_nonneg; lia]).
    apply IH. exact Hz.
Qed.

Lemma shr_exact :
  forall z n e, 0 <= z -> 0 <= n ->
    shr (exact_record (z * 2 ^ n)) e n = (exact_record z, e + n).
Proof.
  intros z n e Hz Hn. destruct n as [|p|p]; try lia.
  - simpl. rewrite Z.mul_1_r, Z.add_0_r. reflexivity.
  - unfold shr. rewrite iter_pos_nat.
    rewrite <- (positive_nat_Z p) at 1.
    rewrite shr_exact_nat by exact Hz. reflexivity.
Qed.

Lemma fexp_normal : forall e, -1021 <= e -> fexp 53 1024 e = e - 53.
Proof. intros e H. unfold fexp, emin. lia. Qed.

Lemma log2_53 : forall m, 4503599627370496 <= m < 9007199254740992 -> Z.log2 m = 52.
Proof.
  intros m H. apply Z.log2_unique; [lia|].
  change (2 ^ 52) with 4503599627370496.
  change (2 ^ Z.succ 52) with 9007199254740992. exact H.
Qed.

Lemma Zdigits2_shifted :
  forall m n, 4503599627370496 <= m < 9007199254740992 -> 0 <= n ->
    Zdigits2 (m * 2 ^ n) = 53 + n.
Proof.
  intros m n Hm Hn.
  assert (P : 0 < 2 ^ n) by (apply Z.pow_pos_nonneg; lia).
  rewrite Zdigits2_log2 by (apply Z.mul_pos_pos; lia).
  rewrite Z.log2_mul_pow2 by lia. rewrite (log2_53 m Hm). lia.
Qed.

Lemma shr_fexp_exact :
  forall m n e,
    4503599627370496 <= m < 9007199254740992 -> 0 <= n -> -1074 <= e + n ->
    shr_fexp 53 1024 (m * 2 ^ n) e loc_Exact = (exact_record m, e + n).
Proof.
  intros m n e Hm Hn He. unfold shr_fexp.
  rewrite Zdigits2_shifted by assumption.
  rewrite fexp_normal by lia.
  replace (53 + n + e - 53 - e) with n by lia.
  change (shr_record_of_loc (m * 2 ^ n) loc_Exact) with (exact_record (m * 2 ^ n)).
  apply shr_exact; lia.
Qed.

(** Rounding a value that fits: a 53-bit mantissa shifted left by [n]
    comes back as that mantissa, [n] exponents higher. *)
Lemma round_aux_exact :
  forall s m n e,
    4503599627370496 <= m < 9007199254740992 -> 0 <= n ->
    -1074 <= e + n <= 971 ->
    binary_round_aux 53 1024 s (m * 2 ^ n) e loc_Exact
    = S754_finite s (Z.to_pos m) (e + n).
Proof.
  intros s m n e Hm Hn He. unfold binary_round_aux.
  rewrite shr_fexp_exact by (try assumption; lia).
  cbn [exact_record shr_m loc_of_shr_record round_nearest_even].
  pose proof (shr_fexp_exact m 0 (e + n) Hm ltac:(lia) ltac:(lia)) as E.
  rewrite Z.pow_0_r, Z.mul_1_r, Z.add_0_r in E. rewrite E.
  cbn [exact_record shr_m].
  destruct m as [|p|p]; try lia.
  replace (e + n <=? 1024 - 53) with true by (symmetry; apply Z.leb_le; lia).
  reflexivity.
Qed.

Lemma pos_iter_xO : forall m d, Zpos (Pos.iter xO m d) = Zpos m * 2 ^ Zpos d.
Proof.
  intros m d. induction d as [|d IH] using Pos.peano_ind.
  - cbn [Pos.iter]. rewrite Z.pow_1_r. lia.
  - rewrite Pos.iter_succ. rewrite Pos2Z.inj_xO, IH.
    rewrite Pos2Z.inj_succ, Z.pow_succ_r by lia. ring.
Qed.

Lemma shl_align_left :
  forall mx ex ex', ex' < ex ->
    shl_align mx ex ex' = (Z.to_pos (Zpos mx * 2 ^ (ex - ex')), ex').
Proof.
  intros mx ex ex' H. unfold shl_align.
  destruct (ex' - ex) as [|d|d] eqn:E; try lia.
  replace (ex - ex') with (Zpos d) by lia.
  rewrite <- pos_iter_xO. reflexivity.
Qed.

Lemma shl_align_keep :
  forall mx ex ex', ex <= ex' -> shl_align mx ex ex' = (mx, ex).
Proof.
  intros mx ex ex' H. unfold shl_align.
  destruct (ex' - ex) as [|d|d] eqn:E; try lia; reflexivity.
Qed.

Lemma pow2_pos : forall n, 0 <= n -> 0 < 2 ^ n.
Proof. intros n H. apply Z.pow_pos_nonneg; lia. Qed.

(** [binary_round] of any representation of [z * 2^k] with a lower
    exponent is the canonical form. *)
Lemma round_exact :
  forall s mp z e k,
    0 < z < 9007199254740992 -> Zpos mp = z * 2 ^ (k - e) -> e <= k ->
    -1074 <= k + digits z - 53 <= 971 ->
    binary_round 53 1024 s mp e
    = S754_finite s (Z.to_pos (mantissa z)) (k + digits z - 53).
Proof.
  intros s mp z e k Hz Hm Hek Hr. unfold binary_round.
  pose proof (digits_pos z ltac:(lia)) as D1.
  pose proof (digits_le_53 z Hz) as D2.
  pose proof (mantissa_bounds z Hz) as MB.
  assert (Dg : Zpos (digits2_pos mp) = digits z + (k - e)).
  { change (Zpos (digits2_pos mp)) with (Zdigits2 (Zpos mp)).
    rewrite Zdigits2_log2 by lia. rewrite Hm.
    rewrite Z.log2_mul_pow2 by lia. unfold digits.
    rewrite Z.abs_eq by lia. lia. }
  rewrite Dg. rewrite fexp_normal by lia.
  set (t := digits z + (k - e) + e - 53).
  assert (Ht : t = k + digits z - 53) by (unfold t; lia).
  destruct (Z_lt_le_dec t e) as [L|L].
  - rewrite shl_align_left by exact L.
    assert (Em : Zpos mp * 2 ^ (e - t) = mantissa z).
    { rewrite Hm. rewrite <- Z.mul_assoc, <- Z.pow_add_r by lia.
      unfold mantissa. rewrite Z.abs_eq by lia. f_equal. f_equal. lia. }
    rewrite Em. rewrite Z2Pos.id by lia.
    pose proof (round_aux_exact s (mantissa z) 0 t MB ltac:(lia) ltac:(lia)) as R.
    rewrite Z.pow_0_r, Z.mul_1_r, Z.add_0_r in R. rewrite R. rewrite Ht.
    reflexivity.
  - rewrite shl_align_keep by exact L.
    assert (Em : Zpos mp = mantissa z * 2 ^ (t - e)).
    { rewrite Hm. unfold mantissa. rewrite Z.abs_eq by lia.
      rewrite <- Z.mul_assoc, <- Z.pow_add_r by lia. f_equal. f_equal. lia. }
    rewrite Em.
    rewrite (round_aux_exact s (mantissa z) (t - e) e MB ltac:(lia) ltac:(lia)).
    f_equal. lia.
Qed.

Lemma digits_abs : forall z, digits (Z.abs z) = digits z.
Proof. intro z. unfold digits. rewrite Z.abs_idemp. reflexivity. Qed.

Lemma digits_range :
  forall z, z <> 0 -> Z.abs z < 9007199254740992 -> 1 <= digits z <= 53.
Proof.
  intros z Hne Hz. rewrite <- digits_abs. split.
  - apply digits_pos. lia.
  - apply digits_le_53. lia.
Qed.

Lemma digits_opp : forall z, digits (- z) = digits z.
Proof. intro z. unfold digits. rewrite Z.abs_opp. reflexivity. Qed.

Lemma mantissa_opp : forall z, mantissa (- z) = mantissa z.
Proof. intro z. unfold mantissa. rewrite Z.abs_opp, digits_opp. reflexivity. Qed.

(** Normalising any representation of [z * 2^k] with a lower exponent
    gives the canonical form. *)
Lemma normalize_exact :
  forall z e k,
    Z.abs z < 9007199254740992 -> e <= k ->
    (z <> 0 -> -1074 <= k + digits z - 53 <= 971) ->
    binary_normalize 53 1024 (z * 2 ^ (k - e)) e false = dyadic z k.
Proof.
  intros z e k Hz Hek Hr.
  pose proof (pow2_pos (k - e) ltac:(lia)) as P.
  destruct z as [|p|p].
  - reflexivity.
  - specialize (Hr ltac:(lia)).
    destruct (Zpos p * 2 ^ (k - e)) as [|mp|mp] eqn:E; try lia.
    unfold binary_normalize, dyadic.
    apply round_exact; try lia.
  - specialize (Hr ltac:(lia)).
    destruct (Zneg p * 2 ^ (k - e)) as [|mp|mp] eqn:E; try lia.
    unfold binary_normalize, dyadic.
    change (Zneg p) with (- Zpos p). rewrite digits_opp, mantissa_opp.
    change (Zneg p) with (- Zpos p) in Hr. rewrite digits_opp in Hr.
    apply round_exact; try lia.
Qed.

Lemma of_Z_dyadic :
  forall z, Z.abs z < 9007199254740992 -> JS.of_Z z = dyadic z 0.
Proof.
  intros z Hz. unfold JS.of_Z, JS.prec, JS.emax.
  pose proof (normalize_exact z 0 0 Hz ltac:(lia)) as N.
  rewrite Z.sub_diag, Z.pow_0_r, Z.mul_1_r in N. apply N.
  intro Hne. pose proof (digits_range z Hne Hz). lia.
Qed.

Lemma dyadic_finite :
  forall z k, z <> 0 ->
    dyadic z k = S754_finite (negative z) (Z.to_pos (mantissa z)) (k + digits z - 53).
Proof. intros [|p|p] k H; [contradiction| |]; reflexivity. Qed.

Lemma mantissa_abs_bounds :
  forall z, z <> 0 -> Z.abs z < 9007199254740992 ->
    4503599627370496 <= mantissa z < 9007199254740992.
Proof.
  intros z Hne Hz.
  replace (mantissa z) with (mantissa (Z.abs z)).
  - apply mantissa_bounds. lia.
  - unfold mantissa. rewrite Z.abs_idemp, digits_abs. reflexivity.
Qed.

Lemma shl_align_value :
  forall mx ex ez, ez <= ex ->
    Zpos (fst (shl_align mx ex ez)) = Zpos mx * 2 ^ (ex - ez).
Proof.
  intros mx ex ez H. destruct (Z_lt_le_dec ez ex) as [L|L].
  - rewrite shl_align_left by exact L. cbn [fst].
    rewrite Z2Pos.id; [reflexivity|].
    apply Z.mul_pos_pos; [lia|apply pow2_pos; lia].
  - rewrite shl_align_keep by exact L. cbn [fst].
    replace (ex - ez) with 0 by lia. rewrite Z.pow_0_r. lia.
Qed.

(** The aligned signed mantissa of an integer Number is that integer,
    scaled. *)
Lemma aligned_value :
  forall z ez, z <> 0 -> Z.abs z < 9007199254740992 -> ez <= digits z - 53 ->
    cond_Zopp (negative z)
      (Zpos (fst (shl_align (Z.to_pos (mantissa z)) (digits z - 53) ez)))
    = z * 2 ^ (0 - ez).
Proof.
  intros z ez Hne Hz He.
  pose proof (mantissa_abs_bounds z Hne Hz) as MB.
  pose proof (digits_range z Hne Hz) as DR.
  rewrite shl_align_value by exact He. rewrite Z2Pos.id by lia.
  unfold mantissa. rewrite <- Z.mul_assoc, <- Z.pow_add_r by lia.
  replace (53 - digits z + (digits z - 53 - ez)) with (0 - ez) by lia.
  unfold negative, cond_Zopp. destruct (Z.ltb_spec z 0).
  - rewrite Z.abs_neq by lia. ring.
  - rewrite Z.abs_eq by lia. reflexivity.
Qed.

(** Addition of integers below 2^53 is exact. *)
Lemma add_exact :
  forall a b,
    Z.abs a < 9007199254740992 -> Z.abs b < 9007199254740992 ->
    Z.abs (a + b) < 9007199254740992 ->
    JS.add (dyadic a 0) (dyadic b 0) = dyadic (a + b) 0.
Proof.
  intros a b Ha Hb Hab.
  destruct (Z.eq_dec a 0) as [Ea|Ea].
  { subst a. rewrite Z.add_0_l. destruct b; reflexivity. }
  destruct (Z.eq_dec b 0) as [Eb|Eb].
  { subst b. rewrite Z.add_0_r. destruct a; reflexivity. }
  rewrite (dyadic_finite a 0 Ea), (dyadic_finite b 0 Eb).
  unfold JS.add, SFadd, JS.prec, JS.emax. rewrite !Z.add_0_l.
  pose proof (digits_range a Ea Ha). pose proof (digits_range b Eb Hb).
  set (ez := Z.min (digits a - 53) (digits b - 53)).
  rewrite (aligned_value a ez Ea Ha) by (unfold ez; lia).
  rewrite (aligned_value b ez Eb Hb) by (unfold ez; lia).
  rewrite <- Z.mul_add_distr_r.
  apply normalize_exact; [exact Hab|unfold ez; lia|].
  intro Hne. pose proof (digits_range (a + b) Hne Hab). lia.
Qed.

Lemma dyadic_opp :
  forall z k, z <> 0 -> dyadic (- z) k = SFopp (dyadic z k).
Proof.
  intros [|p|p] k H; [contradiction| |]; reflexivity.
Qed.

(** Subtraction of integers below 2^53 is exact. *)
Lemma sub_exact :
  forall a b,
    Z.abs a < 9007199254740992 -> Z.abs b < 9007199254740992 ->
    Z.abs (a - b) < 9007199254740992 ->
    JS.sub (dyadic a 0) (dyadic b 0) = dyadic (a - b) 0.
Proof.
  intros a b Ha Hb Hab.
  destruct (Z.eq_dec b 0) as [Eb|Eb].
  { subst b. rewrite Z.sub_0_r. destruct a; reflexivity. }
  destruct (Z.eq_dec a 0) as [Ea|Ea].
  { subst a. rewrite Z.sub_0_l. rewrite dyadic_opp by exact Eb.
    rewrite (dyadic_finite b 0 Eb). reflexivity. }
  rewrite (dyadic_finite a 0 Ea), (dyadic_finite b 0 Eb).
  unfold JS.sub, SFsub, JS.prec, JS.emax. rewrite !Z.add_0_l.
  pose proof (digits_range a Ea Ha). pose proof (digits_range b Eb Hb).
  set (ez := Z.min (digits a - 53) (digits b - 53)).
  rewrite (aligned_value a ez Ea Ha) by (unfold ez; lia).
  rewrite (aligned_value b ez Eb Hb) by (unfold ez; lia).
  rewrite <- Z.mul_sub_distr_r.
  apply normalize_exact; [exact Hab|unfold ez; lia|].
  intro Hne. pose proof (digits_range (a - b) Hne Hab). lia.
Qed.

Lemma digits_mul_lower :
  forall a b, 0 < a -> 0 < b -> digits a + digits b - 1 <= digits (a * b).
Proof.
  intros a b Ha Hb. unfold digits.
  rewrite !Z.abs_eq by (try apply Z.mul_nonneg_nonneg; lia).
  pose proof (Z.log2_mul_below a b Ha Hb). lia.
Qed.

(** Multiplication of non-negative dyadic values is exact when the
    product has at most 53 bits. *)
Lemma mul_exact :
  forall a j b k,
    0 <= a -> 0 <= b -> a * b < 9007199254740992 ->
    (0 < a * b -> -1074 <= j + k + digits (a * b) - 53 <= 971) ->
    JS.mul (dyadic a j) (dyadic b k) = dyadic (a * b) (j + k).
Proof.
  intros a j b k Ha Hb Hab Hr.
  destruct (Z.eq_dec a 0) as [Ea|Ea].
  { subst a. rewrite Z.mul_0_l. destruct b; try lia; reflexivity. }
  destruct (Z.eq_dec b 0) as [Eb|Eb].
  { subst b. rewrite Z.mul_0_r. destruct a; try lia; reflexivity. }
  assert (Pab : 0 < a * b) by (apply Z.mul_pos_pos; lia).
  specialize (Hr Pab).
  assert (Ba : a < 9007199254740992) by nia.
  assert (Bb : b < 9007199254740992) by nia.
  rewrite (dyadic_finite a j Ea), (dyadic_finite b k Eb).
  rewrite (dyadic_finite (a * b) (j + k)) by lia.
  replace (negative a) with false by (symmetry; apply Z.ltb_ge; lia).
  replace (negative b) with false by (symmetry; apply Z.ltb_ge; lia).
  replace (negative (a * b)) with false by (symmetry; apply Z.ltb_ge; lia).
  unfold JS.mul, SFmul, JS.prec, JS.emax. cbn [xorb].
  pose proof (mantissa_bounds a ltac:(lia)) as Ma.
  pose proof (mantissa_bounds b ltac:(lia)) as Mb.
  pose proof (mantissa_bounds (a * b) ltac:(lia)) as Mab.
  pose proof (digits_range a Ea ltac:(lia)) as Da.
  pose proof (digits_range b Eb ltac:(lia)) as Db.
  pose proof (digits_range (a * b) ltac:(lia) ltac:(lia)) as Dab.
  pose proof (digits_mul_lower a b ltac:(lia) ltac:(lia)) as Dl.
  set (n := 53 + digits (a * b) - digits a - digits b).
  assert (Em : Zpos (Z.to_pos (mantissa a) * Z.to_pos (mantissa b))
               = mantissa (a * b) * 2 ^ n).
  { rewrite Pos2Z.inj_mul, !Z2Pos.id by lia. unfold mantissa.
    rewrite !Z.abs_eq by lia.
    assert (E2 : 2 ^ (53 - digits (a * b)) * 2 ^ n
                 = 2 ^ (53 - digits a) * 2 ^ (53 - digits b)).
    { rewrite <- !Z.pow_add_r by (unfold n; lia). f_equal. unfold n. lia. }
    rewrite <- (Z.mul_assoc (a * b)). rewrite E2. ring. }
  rewrite Em.
  rewrite round_aux_exact by (unfold n; lia).
  f_equal. unfold n. lia.
Qed.

(** The integer part of an integer Number is that integer. *)
Lemma trunc_exact :
  forall z, Z.abs z < 9007199254740992 -> JS.trunc (dyadic z 0) = z.
Proof.
  intros z Hz. destruct (Z.eq_dec z 0) as [E|E]; [subst; reflexivity|].
  rewrite (dyadic_finite z 0 E). unfold JS.trunc.
  pose proof (digits_range z E Hz) as D.
  pose proof (mantissa_abs_bounds z E Hz) as MB.
  assert (S : JS.signed (negative z) (Z.to_pos (mantissa z))
              = z * 2 ^ (53 - digits z)).
  { unfold JS.signed, negative, mantissa. destruct (Z.ltb_spec z 0).
    - rewrite <- Pos2Z.opp_pos, Z2Pos.id by (unfold mantissa in MB; lia).
      rewrite Z.abs_neq by lia. ring.
    - rewrite Z2Pos.id by (unfold mantissa in MB; lia).
      rewrite Z.abs_eq by lia. reflexivity. }
  rewrite S. rewrite Z.add_0_l.
  destruct (Z.leb_spec 0 (digits z - 53)) as [L|L].
  - replace (digits z) with 53 by lia. simpl. lia.
  - replace (- (digits z - 53)) with (53 - digits z) by lia.
    apply Z.quot_mul. pose proof (pow2_pos (53 - digits z) ltac:(lia)). lia.
Qed.

(** Math.floor of a non-negative dyadic value. *)
Lemma floor_exact :
  forall z k,
    0 <= z < 9007199254740992 -> k <= 0 ->
    JS.floor (dyadic z k) = dyadic (z / 2 ^ (- k)) 0.
Proof.
  intros z k Hz Hk.
  pose proof (pow2_pos (- k) ltac:(lia)) as P.
  destruct (Z.eq_dec z 0) as [E|E].
  { subst z. rewrite Z.div_0_l by lia. reflexivity. }
  rewrite (dyadic_finite z k E).
  replace (negative z) with false by (symmetry; apply Z.ltb_ge; lia).
  pose proof (digits_range z E ltac:(lia)) as D.
  pose proof (mantissa_bounds z ltac:(lia)) as MB.
  unfold JS.floor.
  destruct (Z.leb_spec 0 (k + digits z - 53)) as [L|L].
  - assert (k = 0) by lia. assert (digits z = 53) by lia. subst k.
    rewrite Z.div_1_r. rewrite (dyadic_finite z 0 E).
    replace (negative z) with false by (symmetry; apply Z.ltb_ge; lia).
    reflexivity.
  - unfold JS.signed. rewrite Z2Pos.id by lia.
    assert (Q : mantissa z / 2 ^ (- (k + digits z - 53)) = z / 2 ^ (- k)).
    { unfold mantissa. rewrite Z.abs_eq by lia.
      replace (- (k + digits z - 53)) with (- k + (53 - digits z)) by lia.
      rewrite Z.pow_add_r by lia.
      apply Z.div_mul_cancel_r; [lia|].
      pose proof (pow2_pos (53 - digits z) ltac:(lia)). lia. }
    rewrite Q.
    assert (B : 0 <= z / 2 ^ (- k) < 9007199254740992).
    { split; [apply Z.div_pos; lia|].
      apply Z.le_lt_trans with z; [|lia].
      apply Z.div_le_upper_bound; [lia|]. nia. }
    change (binary_normalize JS.prec JS.emax (z / 2 ^ (- k)) 0 false)
      with (JS.of_Z (z / 2 ^ (- k))).
    apply of_Z_dyadic. lia.
Qed.

(** Dividing an integer below 2^53 by 2^32 is exact. *)
Lemma div_two32_exact :
  forall w, 0 <= w < 9007199254740992 ->
    JS.div (dyadic w 0) (dyadic 4294967296 0) = dyadic w (-32).
Proof.
  intros w Hw.
  destruct (Z.eq_dec w 0) as [E|E]; [subst; reflexivity|].
  rewrite (dyadic_finite w 0 E), (dyadic_finite w (-32) E).
  replace (negative w) with false by (symmetry; apply Z.ltb_ge; lia).
  change (dyadic 4294967296 0) with (S754_finite false 4503599627370496 (-20)).
  pose proof (digits_range w E ltac:(lia)) as D.
  pose proof (mantissa_bounds w ltac:(lia)) as MB.
  unfold JS.div, SFdiv, SFdiv_core_binary, JS.prec, JS.emax.
  rewrite Z2Pos.id by lia.
  rewrite (Zdigits2_log2 (mantissa w)) by lia. rewrite (log2_53 _ MB).
  change (Zdigits2 4503599627370496) with 53.
  rewrite fexp_normal by lia.
  replace (Z.min (52 + 1 + (0 + digits w - 53) - (53 + -20) - 53)
             (0 + digits w - 53 - -20)) with (digits w - 86) by lia.
  replace (0 + digits w - 53 - -20 - (digits w - 86)) with 53 by lia.
  rewrite Z.shiftl_mul_pow2 by lia.
  assert (Ed : Z.div_eucl (mantissa w * 2 ^ 53) 4503599627370496
               = (2 * mantissa w, 0)).
  { pose proof (Z.div_eucl_eq (mantissa w * 2 ^ 53) 4503599627370496 ltac:(lia)) as Q.
    pose proof (Z.mod_pos_bound (mantissa w * 2 ^ 53) 4503599627370496 ltac:(lia)) as R.
    unfold Z.modulo in R.
    destruct (Z.div_eucl (mantissa w * 2 ^ 53) 4503599627370496) as [q r].
    change (2 ^ 53) with 9007199254740992 in Q.
    f_equal; lia. }
  rewrite Ed. change (new_location 4503599627370496 0) with loc_Exact.
  cbn [xorb].
  replace (2 * mantissa w) with (mantissa w * 2 ^ 1) by (rewrite Z.pow_1_r; ring).
  rewrite round_aux_exact by lia.
  f_equal. lia.
Qed.

(** *** Division of integers and its integer part *)

Lemma record_of_loc_m : forall q l, shr_m (shr_record_of_loc q l) = q.
Proof. intros q [|[]]; reflexivity. Qed.

Lemma loc_of_record_of_loc :
  forall q l, loc_of_shr_record (shr_record_of_loc q l) = l.
Proof. intros q [|[]]; reflexivity. Qed.

Lemma round_nearest_even_cases :
  forall m l,
    round_nearest_even m l = m
    \/ (round_nearest_even m l = m + 1 /\ rounds_up l).
Proof.
  intros m [|[]]; simpl; auto.
  - destruct (Z.even m); [left; reflexivity|right; split; [reflexivity|left; reflexivity]].
  - right. split; [reflexivity|right; reflexivity].
Qed.

Lemma shr_1_pos :
  forall q r s, 0 < q ->
    shr_1 {| shr_m := q; shr_r := r; shr_s := s |}
    = {| shr_m := q / 2; shr_r := Z.odd q; shr_s := r || s |}.
Proof.
  intros q r s Hq. destruct q as [|p|p]; try lia.
  destruct p as [p|p|]; cbn [shr_1].
  - f_equal. rewrite Pos2Z.inj_xI.
    apply Z.div_unique with 1; lia.
  - f_equal. rewrite Pos2Z.inj_xO.
    apply Z.div_unique with 0; lia.
  - reflexivity.
Qed.

Lemma Zdigits2_53 :
  forall m, 4503599627370496 <= m < 9007199254740992 -> Zdigits2 m = 53.
Proof.
  intros m H. rewrite Zdigits2_log2 by lia. rewrite (log2_53 m H). reflexivity.
Qed.

Lemma Zdigits2_54 :
  forall m, 9007199254740992 <= m < 18014398509481984 -> Zdigits2 m = 54.
Proof.
  intros m H. rewrite Zdigits2_log2 by lia.
  rewrite (Z.log2_unique m 53); [reflexivity|lia|].
  change (2 ^ 53) with 9007199254740992.
  change (2 ^ Z.succ 53) with 18014398509481984. exact H.
Qed.

(** The second, exact normalisation step of [binary_round_aux] on a
    mantissa that is 53 bits wide or exactly 2^53. *)
Lemma renormalize :
  forall m e,
    4503599627370496 <= m <= 9007199254740992 -> -1074 <= e <= 970 ->
    (let '(mrs, e') := shr_fexp 53 1024 m e loc_Exact in
     match shr_m mrs with
     | Z0 => S754_zero false
     | Zpos p => if e' <=? 1024 - 53 then S754_finite false p e'
                 else S754_infinity false
     | Zneg _ => S754_nan
     end)
    = if m <? 9007199254740992 then S754_finite false (Z.to_pos m) e
      else S754_finite false 4503599627370496 (e + 1).
Proof.
  intros m e Hm He. destruct (Z.ltb_spec m 9007199254740992) as [L|L].
  - pose proof (shr_fexp_exact m 0 e ltac:(lia) ltac:(lia) ltac:(lia)) as E.
    rewrite Z.pow_0_r, Z.mul_1_r, Z.add_0_r in E. rewrite E.
    cbn [exact_record shr_m]. destruct m as [|p|p]; try lia.
    replace (e <=? 1024 - 53) with true by (symmetry; apply Z.leb_le; lia).
    reflexivity.
  - assert (m = 4503599627370496 * 2 ^ 1) by (rewrite Z.pow_1_r; lia). subst m.
    rewrite shr_fexp_exact by lia.
    cbn [exact_record shr_m].
    replace (e + 1 <=? 1024 - 53) with true by (symmetry; apply Z.leb_le; lia).
    reflexivity.
Qed.

(** Rounding a quotient of 53 or 54 bits with its location: the mantissa
    is the quotient reduced to 53 bits, or one more, and it is one more
    only on a location at or above the half (without a shift) or on an odd
    quotient (with a shift). *)
Lemma round_aux_54 :
  forall q e l,
    4503599627370496 <= q < 18014398509481984 -> -1074 <= e <= 900 ->
    exists n m1,
      (n = 0 \/ n = 1)
      /\ 4503599627370496 <= q / 2 ^ n < 9007199254740992
      /\ (m1 = q / 2 ^ n
          \/ (m1 = q / 2 ^ n + 1
              /\ (n = 0 -> rounds_up l) /\ (n = 1 -> Z.odd q = true)))
      /\ binary_round_aux 53 1024 false q e l
         = if m1 <? 9007199254740992
           then S754_finite false (Z.to_pos m1) (e + n)
           else S754_finite false 4503599627370496 (e + n + 1).
Proof.
  intros q e l Hq He. unfold binary_round_aux.
  destruct (Z_lt_le_dec q 9007199254740992) as [L|L].
  - (* 53 bits: no shift *)
    exists 0. exists (round_nearest_even q l).
    assert (S : shr_fexp 53 1024 q e l = (shr_record_of_loc q l, e)).
    { unfold shr_fexp. rewrite Zdigits2_53 by lia.
      rewrite fexp_normal by lia.
      replace (53 + e - 53 - e) with 0 by lia. reflexivity. }
    rewrite S. rewrite record_of_loc_m, loc_of_record_of_loc.
    rewrite Z.pow_0_r, Z.div_1_r, Z.add_0_r.
    split; [left; reflexivity|]. split; [lia|]. split.
    + destruct (round_nearest_even_cases q l) as [E|[E R]].
      * left. exact E.
      * right. split; [exact E|]. split; [intros _; exact R|intro; lia].
    + apply renormalize; [|lia].
      destruct (round_nearest_even_cases q l) as [E|[E R]]; rewrite E; lia.
  - (* 54 bits: one shift *)
    set (r1 := shr_1 (shr_record_of_loc q l)).
    exists 1. exists (round_nearest_even (shr_m r1) (loc_of_shr_record r1)).
    assert (S : shr_fexp 53 1024 q e l = (r1, e + 1)).
    { unfold shr_fexp. rewrite Zdigits2_54 by lia.
      rewrite fexp_normal by lia.
      replace (54 + e - 53 - e) with 1 by lia. reflexivity. }
    rewrite S.
    assert (M : shr_m r1 = q / 2 /\ shr_r r1 = Z.odd q).
    { unfold r1. destruct (shr_record_of_loc q l) as [m0 r0 s0] eqn:E.
      assert (m0 = q) by (rewrite <- (record_of_loc_m q l), E; reflexivity).
      subst m0. rewrite shr_1_pos by lia. split; reflexivity. }
    destruct M as [M1 M2]. rewrite Z.pow_1_r.
    assert (Q : 4503599627370496 <= q / 2 < 9007199254740992).
    { split.
      - apply Z.div_le_lower_bound; lia.
      - apply Z.div_lt_upper_bound; lia. }
    split; [right; reflexivity|]. split; [exact Q|]. split.
    + destruct (round_nearest_even_cases (shr_m r1) (loc_of_shr_record r1))
        as [E|[E R]].
      * left. rewrite E. exact M1.
      * right. rewrite E, M1. split; [reflexivity|].
        split; [intro; lia|intros _].
        rewrite <- M2. destruct r1 as [m0 [] s0]; [reflexivity|].
        destruct R as [R|R]; destruct s0; discriminate R.
    + apply renormalize; [|lia].
      destruct (round_nearest_even_cases (shr_m r1) (loc_of_shr_record r1))
        as [E|[E R]]; rewrite E, M1; lia.
Qed.

Lemma div_core :
  forall ma ea mb eb,
    4503599627370496 <= ma < 9007199254740992 ->
    4503599627370496 <= mb < 9007199254740992 ->
    -900 <= ea - eb <= 900 ->
    SFdiv_core_binary 53 1024 ma ea mb eb
    = ((ma * 2 ^ 53) / mb, ea - eb - 53,
       new_location mb ((ma * 2 ^ 53) mod mb)).
Proof.
  intros ma ea mb eb Ha Hb He. unfold SFdiv_core_binary.
  rewrite !Zdigits2_53 by assumption.
  replace (53 + ea - (53 + eb)) with (ea - eb) by lia.
  rewrite fexp_normal by lia.
  replace (Z.min (ea - eb - 53) (ea - eb)) with (ea - eb - 53) by lia.
  replace (ea - eb - (ea - eb - 53)) with 53 by lia.
  rewrite Z.shiftl_mul_pow2 by lia.
  unfold Z.div, Z.modulo.
  destruct (Z.div_eucl (ma * 2 ^ 53) mb) as [q r]. reflexivity.
Qed.

Lemma new_location_up :
  forall nb k, 0 < nb -> rounds_up (new_location nb k) -> nb <= 2 * k.
Proof.
  intros nb k Hnb H. unfold new_location in H.
  destruct (Z.even nb).
  - unfold new_location_even in H. destruct (k =? 0).
    + destruct H as [H|H]; discriminate H.
    + destruct (Z.compare_spec (2 * k) nb) as [E|E|E]; try lia.
      destruct H as [H|H]; discriminate H.
  - unfold new_location_odd in H. destruct (k =? 0).
    + destruct H as [H|H]; discriminate H.
    + destruct (Z.compare_spec (2 * k + 1) nb) as [E|E|E]; try lia;
        destruct H as [H|H]; discriminate H.
Qed.

(** The integer part survives rounding to 53 bits: if [m1] is the
    quotient [a * U / b] or, at or above the half, one more, then
    [m1 / U] is still [a / b]. *)
Lemma floor_of_rounded_quotient :
  forall a b U m1,
    0 <= a < 9007199254740992 -> 0 < b -> 0 < U ->
    4503599627370496 <= (a * U) / b ->
    (m1 = (a * U) / b \/ (m1 = (a * U) / b + 1 /\ b <= 2 * ((a * U) mod b))) ->
    m1 / U = a / b.
Proof.
  intros a b U m1 Ha Hb HU Hm0 Hm1.
  pose proof (Z.div_mod a b ltac:(lia)) as Da.
  pose proof (Z.mod_pos_bound a b Hb) as Ra.
  set (N := a / b) in *. set (rho := a mod b) in *.
  pose proof (Z.div_mod (rho * U) b ltac:(lia)) as Dt.
  pose proof (Z.mod_pos_bound (rho * U) b Hb) as Rt.
  set (t := (rho * U) / b) in *. set (s := (rho * U) mod b) in *.
  assert (Et : (a * U) / b = N * U + t /\ (a * U) mod b = s).
  { assert (E : a * U = b * (N * U + t) + s) by nia.
    split.
    - symmetry. apply Z.div_unique with s; [lia|exact E].
    - symmetry. apply Z.mod_unique with (N * U + t); [lia|exact E]. }
  destruct Et as [Eq Er]. rewrite Eq, Er in *.
  assert (T0 : 0 <= t) by (apply Z.div_pos; nia).
  assert (T1 : t < U).
  { apply Z.div_lt_upper_bound; [lia|nia]. }
  destruct Hm1 as [E|[E Hup]]; subst m1.
  - symmetry. apply Z.div_unique with t; [lia|ring].
  - assert (t + 1 < U).
    { destruct (Z_lt_le_dec (t + 1) U) as [L|L]; [exact L|exfalso].
      assert (t = U - 1) by lia.
      assert (b <= 2 * (rho * U - (U - 1) * b)) by nia.
      assert (2 * U <= b) by nia.
      assert (4503599627370496 * b <= a * U) by nia.
      nia. }
    symmetry. apply Z.div_unique with (t + 1); [lia|ring].
Qed.

Lemma odd_double_quotient :
  forall X b, 0 <= X -> 0 < b -> Z.odd ((2 * X) / b) = true ->
    b <= 2 * (X mod b) /\ ((2 * X) / b) / 2 = X / b.
Proof.
  intros X b HX Hb Hodd.
  pose proof (Z.div_mod X b ltac:(lia)) as D.
  pose proof (Z.mod_pos_bound X b Hb) as R.
  split.
  - destruct (Z_le_gt_dec b (2 * (X mod b))) as [L|L]; [exact L|exfalso].
    assert (E : (2 * X) / b = 2 * (X / b)).
    { symmetry. apply Z.div_unique with (2 * (X mod b)); [lia|lia]. }
    rewrite E, Z.odd_mul in Hodd. discriminate Hodd.
  - rewrite Z.div_div by lia.
    rewrite (Z.mul_comm b 2). apply Z.div_mul_cancel_l; lia.
Qed.

(** Math.floor of the quotient of two integers is their integer
    quotient. *)
Lemma floor_div_exact :
  forall a b,
    0 <= a < 4503599627370496 -> 0 < b < 9007199254740992 ->
    JS.floor (JS.div (dyadic a 0) (dyadic b 0)) = dyadic (a / b) 0.
Proof.
  intros a b Ha Hb.
  assert (Eb : b <> 0) by lia.
  rewrite (dyadic_finite b 0 Eb).
  replace (negative b) with false by (symmetry; apply Z.ltb_ge; lia).
  destruct (Z.eq_dec a 0) as [Ea|Ea].
  { subst a. rewrite Z.div_0_l by lia. reflexivity. }
  rewrite (dyadic_finite a 0 Ea).
  replace (negative a) with false by (symmetry; apply Z.ltb_ge; lia).
  pose proof (mantissa_bounds a ltac:(lia)) as Ma.
  pose proof (mantissa_bounds b ltac:(lia)) as Mb.
  pose proof (digits_range a Ea ltac:(lia)) as Da.
  pose proof (digits_range b Eb ltac:(lia)) as Db.
  assert (Da' : digits a <= 52).
  { unfold digits. rewrite Z.abs_eq by lia.
    assert (Z.log2 a < 52); [|lia].
    apply Z.log2_lt_pow2; [lia|]. change (2 ^ 52) with 4503599627370496. lia. }
  unfold JS.div, SFdiv, JS.prec, JS.emax.
  rewrite !Z2Pos.id by lia.
  rewrite div_core by (try assumption; lia).
  cbn [xorb].
  set (g := 53 + digits b - digits a).
  set (P := 2 ^ (53 - digits b)).
  assert (HP : 0 < P) by (apply pow2_pos; lia).
  assert (HU0 : 0 < 2 ^ g) by (apply pow2_pos; unfold g; lia).
  assert (Em : mantissa a * 2 ^ 53 = a * 2 ^ g * P).
  { unfold mantissa, P. rewrite Z.abs_eq by lia.
    rewrite <- !Z.mul_assoc, <- !Z.pow_add_r by (unfold g; lia).
    f_equal. f_equal. unfold g. lia. }
  assert (Eb' : mantissa b = b * P).
  { unfold mantissa, P. rewrite Z.abs_eq by lia. reflexivity. }
  assert (Eq : (mantissa a * 2 ^ 53) / mantissa b = (a * 2 ^ g) / b).
  { rewrite Em, Eb'. apply Z.div_mul_cancel_r; lia. }
  assert (Er : (mantissa a * 2 ^ 53) mod mantissa b = ((a * 2 ^ g) mod b) * P).
  { rewrite Em, Eb'. apply Z.mul_mod_distr_r; lia. }
  rewrite Eq, Er.
  assert (Bq : 4503599627370496 <= (a * 2 ^ g) / b < 18014398509481984).
  { rewrite <- Eq. change (2 ^ 53) with 9007199254740992. split.
    - apply Z.div_le_lower_bound; [lia|nia].
    - apply Z.div_lt_upper_bound; [lia|nia]. }
  replace (0 + digits a - 53 - (0 + digits b - 53) - 53) with (- g)
    by (unfold g; lia).
  destruct (round_aux_54 ((a * 2 ^ g) / b) (- g)
              (new_location (mantissa b) ((a * 2 ^ g) mod b * P)) Bq
              ltac:(unfold g; lia))
    as [n [m1 [Hn [Hm0 [Hm1 Hr]]]]].
  rewrite Hr. clear Hr.
  set (u := g - n).
  assert (Hu : 1 <= u) by (unfold u, g; lia).
  assert (HU : 0 < 2 ^ u) by (apply pow2_pos; lia).
  assert (Ediv : (a * 2 ^ g) / b / 2 ^ n = (a * 2 ^ u) / b).
  { destruct Hn as [Hn|Hn]; subst n.
    - rewrite Z.pow_0_r, Z.div_1_r. unfold u. rewrite Z.sub_0_r. reflexivity.
    - rewrite Z.pow_1_r, Z.div_div by lia.
      replace (2 ^ g) with (2 * 2 ^ u)
        by (unfold u; rewrite <- Z.pow_succ_r by lia; f_equal; lia).
      replace (a * (2 * 2 ^ u)) with (2 * (a * 2 ^ u)) by ring.
      rewrite (Z.mul_comm b 2). apply Z.div_mul_cancel_l; lia. }
  assert (F : m1 / 2 ^ u = a / b).
  { apply (floor_of_rounded_quotient a b (2 ^ u) m1 ltac:(lia) ltac:(lia) HU).
    - rewrite <- Ediv. lia.
    - rewrite <- Ediv. destruct Hm1 as [E|[E [H0 H1]]]; [left; exact E|].
      right. split; [exact E|].
      destruct Hn as [Hn|Hn]; subst n.
      + specialize (H0 eq_refl). apply new_location_up in H0; [|lia].
        rewrite Eb' in H0. unfold u. rewrite Z.sub_0_r. nia.
      + specialize (H1 eq_refl).
        replace (2 ^ g) with (2 * 2 ^ u) in H1
          by (unfold u; rewrite <- Z.pow_succ_r by lia; f_equal; lia).
        replace (a * (2 * 2 ^ u)) with (2 * (a * 2 ^ u)) in H1 by ring.
        apply odd_double_quotient in H1; [lia|nia|lia]. }
  assert (Bab : 0 <= a / b < 9007199254740992).
  { split; [apply Z.div_pos; lia|].
    apply Z.div_lt_upper_bound; [lia|nia]. }
  assert (Bm1 : 4503599627370496 <= m1 <= 9007199254740992) by lia.
  destruct (Z.ltb_spec m1 9007199254740992) as [L|L].
  - unfold JS.floor.
    replace (0 <=? - g + n) with false by (symmetry; apply Z.leb_gt; lia).
    unfold JS.signed. rewrite Z2Pos.id by lia.
    replace (- (- g + n)) with u by (unfold u; lia).
    rewrite F.
    change (binary_normalize JS.prec JS.emax (a / b) 0 false)
      with (JS.of_Z (a / b)).
    apply of_Z_dyadic. lia.
  - assert (m1 = 9007199254740992) by lia. subst m1.
    assert (F' : 4503599627370496 / 2 ^ (u - 1) = a / b).
    { rewrite <- F.
      replace (2 ^ u) with (2 * 2 ^ (u - 1))
        by (rewrite <- Z.pow_succ_r by lia; f_equal; lia).
      change 9007199254740992 with (2 * 4503599627370496).
      symmetry. apply Z.div_mul_cancel_l; [|lia].
      pose proof (pow2_pos (u - 1) ltac:(lia)). lia. }
    unfold JS.floor.
    destruct (Z.leb_spec 0 (- g + n + 1)) as [L0|L0].
    + assert (u = 1) by (unfold u; lia).
      replace (u - 1) with 0 in F' by lia.
      rewrite Z.pow_0_r, Z.div_1_r in F'. rewrite <- F'.
      replace (- g + n + 1) with 0 by lia. reflexivity.
    + unfold JS.signed.
      replace (- (- g + n + 1)) with (u - 1) by (unfold u; lia).
      rewrite F'.
      change (binary_normalize JS.prec JS.emax (a / b) 0 false)
        with (JS.of_Z (a / b)).
      apply of_Z_dyadic. lia.
Qed.

(** *** Comparison of integer Numbers *)

Lemma compare_magnitudes :
  forall a b,
    0 < a < 9007199254740992 -> 0 < b < 9007199254740992 ->
    match Z.compare (0 + digits a - 53) (0 + digits b - 53) with
    | Lt => Lt
    | Gt => Gt
    | Eq => Pos.compare_cont Eq (Z.to_pos (mantissa a)) (Z.to_pos (mantissa b))
    end = Z.compare a b.
Proof.
  intros a b Ha Hb.
  pose proof (digits_bounds a ltac:(lia)) as [A1 A2].
  pose proof (digits_bounds b ltac:(lia)) as [B1 B2].
  pose proof (digits_pos a ltac:(lia)) as PA.
  pose proof (digits_pos b ltac:(lia)) as PB.
  pose proof (mantissa_bounds a Ha) as Ma.
  pose proof (mantissa_bounds b Hb) as Mb.
  destruct (Z.compare_spec (0 + digits a - 53) (0 + digits b - 53)) as [E|E|E].
  - assert (D : digits a = digits b) by lia.
    change (Pos.compare_cont Eq (Z.to_pos (mantissa a)) (Z.to_pos (mantissa b)))
      with (Pos.compare (Z.to_pos (mantissa a)) (Z.to_pos (mantissa b))).
    rewrite <- Z2Pos.inj_compare by lia.
    unfold mantissa. rewrite !Z.abs_eq by lia. rewrite D.
    symmetry. apply Zmult_compare_compat_r. apply Z.lt_gt. apply pow2_pos.
    pose proof (digits_le_53 b Hb). lia.
  - symmetry. apply Z.compare_lt_iff.
    assert (2 ^ digits a <= 2 ^ (digits b - 1))
      by (apply Z.pow_le_mono_r; lia).
    lia.
  - symmetry. apply Z.compare_gt_iff.
    assert (2 ^ digits b <= 2 ^ (digits a - 1))
      by (apply Z.pow_le_mono_r; lia).
    lia.
Qed.

Lemma compare_exact :
  forall a b,
    Z.abs a < 9007199254740992 -> Z.abs b < 9007199254740992 ->
    SFcompare (dyadic a 0) (dyadic b 0) = Some (Z.compare a b).
Proof.
  intros a b Ha Hb.
  destruct a as [|p|p], b as [|q|q]; try reflexivity.
  - cbn [dyadic SFcompare]. f_equal.
    apply (compare_magnitudes (Zpos p) (Zpos q)); lia.
  - cbn [dyadic SFcompare]. f_equal.
    change (Zneg p ?= Zneg q) with (CompOpp (Zpos p ?= Zpos q)).
    rewrite <- (compare_magnitudes (Zpos p) (Zpos q)) by lia.
    change (digits (Zneg p)) with (digits (Zpos p)).
    change (digits (Zneg q)) with (digits (Zpos q)).
    change (mantissa (Zneg p)) with (mantissa (Zpos p)).
    change (mantissa (Zneg q)) with (mantissa (Zpos q)).
    destruct (0 + digits (Zpos p) - 53 ?= 0 + digits (Zpos q) - 53);
      reflexivity.
Qed.

Lemma leb_exact :
  forall a b,
    Z.abs a < 9007199254740992 -> Z.abs b < 9007199254740992 ->
    JS.leb (dyadic a 0) (dyadic b 0) = (a <=? b).
Proof.
  intros a b Ha Hb. unfold JS.leb, SFleb. rewrite compare_exact by assumption.
  unfold Z.leb. destruct (a ?= b); reflexivity.
Qed.

(** ** The generator *)

Lemma uint32_range : forall x, 0 <= JS.uint32 x < 4294967296.
Proof. intro x. unfold JS.uint32, JS.two32. apply Z.mod_pos_bound. lia. Qed.

Lemma uint32_small : forall x, 0 <= x < 4294967296 -> JS.uint32 x = x.
Proof. intros x H. unfold JS.uint32, JS.two32. apply Z.mod_small. exact H. Qed.

Lemma uint32_int32 : forall x, JS.uint32 (JS.int32 x) = JS.uint32 x.
Proof.
  intro x. unfold JS.int32, JS.uint32, JS.two32.
  destruct (x mod 4294967296 <? 2147483648).
  - apply Z.mod_mod. lia.
  - replace (x mod 4294967296 - 4294967296)
      with (x mod 4294967296 + (-1) * 4294967296) by lia.
    rewrite Z.mod_add by lia. apply Z.mod_mod. lia.
Qed.

Lemma uint32_lxor :
  forall a b, JS.uint32 (Z.lxor a b) = Z.lxor (JS.uint32 a) (JS.uint32 b).
Proof.
  intros a b. unfold JS.uint32, JS.two32.
  change 4294967296 with (2 ^ 32). rewrite <- !Z.land_ones by lia.
  apply Z.bits_inj'. intros n Hn.
  rewrite !Z.land_spec, !Z.lxor_spec, !Z.land_spec.
  destruct (Z.testbit a n), (Z.testbit b n), (Z.testbit (Z.ones 32) n);
    reflexivity.
Qed.

Lemma uint32_lor :
  forall a b, JS.uint32 (Z.lor a b) = Z.lor (JS.uint32 a) (JS.uint32 b).
Proof.
  intros a b. unfold JS.uint32, JS.two32.
  change 4294967296 with (2 ^ 32). rewrite <- !Z.land_ones by lia.
  apply Z.land_lor_distr_l.
Qed.

Lemma uint32_bxor :
  forall x y, JS.uint32 (JS.bxor x y) = Z.lxor (JS.uint32 x) (JS.uint32 y).
Proof.
  intros x y. unfold JS.bxor.
  rewrite uint32_int32, uint32_lxor, !uint32_int32. reflexivity.
Qed.

Lemma uint32_bor :
  forall x y, JS.uint32 (JS.bor x y) = Z.lor (JS.uint32 x) (JS.uint32 y).
Proof.
  intros x y. unfold JS.bor.
  rewrite uint32_int32, uint32_lor, !uint32_int32. reflexivity.
Qed.

Lemma uint32_imul :
  forall x y,
    JS.uint32 (JS.imul x y) = (JS.uint32 x * JS.uint32 y) mod JS.two32.
Proof. intros x y. unfold JS.imul. rewrite uint32_int32. reflexivity. Qed.

Lemma uint32_add :
  forall x y, JS.uint32 (x + y) = (JS.uint32 x + JS.uint32 y) mod JS.two32.
Proof. intros x y. unfold JS.uint32, JS.two32. apply Zplus_mod. Qed.

Lemma shiftr_range :
  forall u k, 0 <= u < 4294967296 -> 0 <= k -> 0 <= Z.shiftr u k < 4294967296.
Proof.
  intros u k Hu Hk. rewrite Z.shiftr_div_pow2 by lia.
  pose proof (pow2_pos k Hk). split.
  - apply Z.div_pos; lia.
  - apply Z.div_lt_upper_bound; [lia|nia].
Qed.

Lemma uint32_ushr :
  forall x k, 0 <= k < 32 ->
    JS.uint32 (JS.ushr x k) = Z.shiftr (JS.uint32 x) k.
Proof.
  intros x k Hk. unfold JS.ushr.
  replace (JS.uint32 k mod 32) with k.
  - apply uint32_small. apply shiftr_range; [apply uint32_range|lia].
  - rewrite uint32_small by lia. symmetry. apply Z.mod_small. lia.
Qed.

Lemma ushr_shiftr :
  forall x k, 0 <= k < 32 -> JS.ushr x k = Z.shiftr (JS.uint32 x) k.
Proof.
  intros x k Hk. unfold JS.ushr.
  replace (JS.uint32 k mod 32) with k; [reflexivity|].
  rewrite uint32_small by lia. symmetry. apply Z.mod_small. lia.
Qed.

(** The source's mixing, written with signed 32-bit conversions, is the
    mixing of unsigned words: it depends on the state only modulo 2^32. *)
Lemma mix_refines : forall t, mix t = mix_word (JS.uint32 t).
Proof.
  intro t. unfold mix, mix_word. cbv zeta.
  set (t1 := JS.imul (JS.bxor t (JS.ushr t 15)) (JS.bor t 1)).
  assert (E1 : JS.uint32 t1
               = (Z.lxor (JS.uint32 t) (Z.shiftr (JS.uint32 t) 15)
                  * Z.lor (JS.uint32 t) 1) mod JS.two32).
  { unfold t1. rewrite uint32_imul, uint32_bxor, uint32_bor.
    rewrite uint32_ushr by lia. rewrite (uint32_small 1) by lia. reflexivity. }
  rewrite <- E1.
  set (t2 := JS.bxor t1 (t1 + JS.imul (JS.bxor t1 (JS.ushr t1 7)) (JS.bor t1 61))).
  assert (E2 : JS.uint32 t2
               = Z.lxor (JS.uint32 t1)
                   ((JS.uint32 t1
                     + (Z.lxor (JS.uint32 t1) (Z.shiftr (JS.uint32 t1) 7)
                        * Z.lor (JS.uint32 t1) 61) mod JS.two32) mod JS.two32)).
  { unfold t2. rewrite uint32_bxor, uint32_add, uint32_imul, uint32_bxor,
      uint32_bor.
    rewrite uint32_ushr by lia. rewrite (uint32_small 61) by lia. reflexivity. }
  rewrite <- E2.
  rewrite ushr_shiftr by lia. rewrite Z.shiftr_0_r.
  rewrite uint32_bxor. rewrite uint32_ushr by lia. reflexivity.
Qed.

Lemma mix_range : forall t, 0 <= mix t < 4294967296.
Proof.
  intro t. unfold mix. cbv zeta. rewrite ushr_shiftr by lia.
  rewrite Z.shiftr_0_r. apply uint32_range.
Qed.

(** Whatever the state, a call returns [w / 2^32] for a 32-bit word [w],
    exactly. *)
Lemma rand_output :
  forall a, fst (rand a) = dyadic (mix (JS.trunc (snd (rand a)))) (-32).
Proof.
  intro a. unfold rand. cbn [fst snd].
  pose proof (mix_range (JS.trunc (JS.add a (JS.of_Z 1831565813)))) as R.
  rewrite (of_Z_dyadic (mix _)) by lia.
  rewrite (of_Z_dyadic 4294967296) by lia.
  apply div_two32_exact. lia.
Qed.

(** While the state stays below 2^53 it is advanced exactly. *)
Lemma rand_state :
  forall z,
    Z.abs z < 9007199254740992 -> Z.abs (z + 1831565813) < 9007199254740992 ->
    snd (rand (dyadic z 0)) = dyadic (z + 1831565813) 0.
Proof.
  intros z Hz Hz'. unfold rand. cbn [snd].
  rewrite (of_Z_dyadic 1831565813) by lia.
  apply add_exact; lia.
Qed.

Lemma advance_exact :
  forall n z,
    Z.abs z < 9007199254740992 ->
    z + Z.of_nat n * 1831565813 < 9007199254740992 ->
    advance n (dyadic z 0) = dyadic (z + Z.of_nat n * 1831565813) 0.
Proof.
  induction n as [|n IH]; intros z Hz Hn.
  - simpl. rewrite Z.add_0_r. reflexivity.
  - cbn [advance]. rewrite rand_state by lia.
    rewrite IH by lia. f_equal. lia.
Qed.

Lemma draw_at_exact :
  forall n z,
    Z.abs z < 9007199254740992 ->
    z + (Z.of_nat n + 1) * 1831565813 < 9007199254740992 ->
    draw_at n (dyadic z 0)
    = dyadic (mix_word (JS.uint32 (z + (Z.of_nat n + 1) * 1831565813))) (-32).
Proof.
  intros n z Hz Hn. unfold draw_at.
  rewrite advance_exact by lia.
  rewrite rand_output. rewrite rand_state by lia.
  rewrite trunc_exact by lia. rewrite mix_refines.
  f_equal. f_equal. f_equal. lia.
Qed.

Lemma digits_le_32 : forall w, 0 < w < 4294967296 -> digits w <= 32.
Proof.
  intros w Hw. unfold digits. rewrite Z.abs_eq by lia.
  assert (Z.log2 w < 32); [|lia].
  apply Z.log2_lt_pow2; [lia|]. change (2 ^ 32) with 4294967296. lia.
Qed.

(** [w / 2^32] lies in [0, 1). *)
Lemma unit_interval :
  forall w, 0 <= w < 4294967296 ->
    JS.leb (JS.of_Z 0) (dyadic w (-32)) = true
    /\ JS.ltb (dyadic w (-32)) (JS.of_Z 1) = true.
Proof.
  intros w Hw. destruct (Z.eq_dec w 0) as [E|E]; [subst; split; reflexivity|].
  rewrite (dyadic_finite w (-32) E).
  replace (negative w) with false by (symmetry; apply Z.ltb_ge; lia).
  split; [reflexivity|].
  change (JS.of_Z 1) with (S754_finite false 4503599627370496 (-52)).
  unfold JS.ltb, SFltb, SFcompare.
  pose proof (digits_le_32 w ltac:(lia)).
  replace (-32 + digits w - 53 ?= -52) with Lt
    by (symmetry; apply Z.compare_lt_iff; lia).
  reflexivity.
Qed.

Lemma mulberry32_word_range :
  forall seed n, 0 <= mulberry32_word seed n < 4294967296.
Proof.
  intros seed n. unfold mulberry32_word.
  change ((seed + (Z.of_nat n + 1) * 1831565813) mod JS.two32)
    with (JS.uint32 (seed + (Z.of_nat n + 1) * 1831565813)).
  rewrite <- mix_refines. apply mix_range.
Qed.

(** X1: for an integer seed and a position [n] up to which the state,
    which the source keeps in a Number and never reduces, stays below 2^53
    (seed + (n + 1) * 0x6D2B79F5 < 2^53), the generator returns
    r = w / 2^32 with 0 <= r < 1, the division being exact, where w is the
    32-bit word obtained by advancing the state by 0x6D2B79F5 modulo 2^32
    and mixing it with all arithmetic wrapping at 32 bits. *)
Theorem mulberry32_sequence :
  forall (seed : Z) (n : nat),
    Z.abs seed < 9007199254740992 ->
    seed + (Z.of_nat n + 1) * 1831565813 < 9007199254740992 ->
    let r := draw_at n (mulberry32 (JS.of_Z seed)) in
    let w := mulberry32_word seed n in
    0 <= w < 4294967296
    /\ r = JS.div (JS.of_Z w) (JS.of_Z 4294967296)
    /\ r = dyadic w (-32)
    /\ JS.leb (JS.of_Z 0) r = true
    /\ JS.ltb r (JS.of_Z 1) = true.
Proof.
  intros seed n Hs Hn r w.
  pose proof (mulberry32_word_range seed n) as Hw. fold w in Hw.
  assert (E : r = dyadic w (-32)).
  { unfold r, w, mulberry32, mulberry32_word.
    rewrite of_Z_dyadic by exact Hs.
    apply draw_at_exact; assumption. }
  split; [exact Hw|]. split; [|split; [exact E|]].
  - rewrite E. rewrite (of_Z_dyadic w) by lia.
    rewrite (of_Z_dyadic 4294967296) by lia.
    symmetry. apply div_two32_exact. lia.
  - rewrite E. apply unit_interval. exact Hw.
Qed.

(** Seed 42: the first value is 2581720956 / 2^32. *)
Lemma mulberry32_sequence_witness :
  draw_at 0 (mulberry32 (JS.of_Z 42)) = dyadic 2581720956 (-32).
Proof.
  destruct (mulberry32_sequence 42 0 ltac:(simpl; lia) ltac:(simpl; lia))
    as [_ [_ [E _]]].
  rewrite E. vm_compute. reflexivity.
Defined.

(** C8: the generator is mulberry32 only as long as its state is an
    exact integer.  With seed 42 the state after 4917758 calls is still
    exact; the next call, [a += 0x6d2b79f5] without a reduction to 32
    bits, pushes it above 2^53, where the addition rounds, and the value
    returned at position 4917758 (counting from 0) is 2543212789 / 2^32,
    whereas the word of that position under 32-bit wrapping is
    2345769536. *)
Lemma state_outgrows_exact_integers :
  draw_at (Z.to_nat 4917758) (mulberry32 (JS.of_Z 42)) = dyadic 2543212789 (-32)
  /\ mulberry32_word 42 (Z.to_nat 4917758) = 2345769536.
Proof.
  split.
  - unfold draw_at, mulberry32.
    rewrite (of_Z_dyadic 42) by (simpl; lia).
    rewrite advance_exact by (rewrite ?Z2Nat.id; simpl; lia).
    rewrite Z2Nat.id by lia.
    vm_compute. reflexivity.
  - unfold mulberry32_word. rewrite Z2Nat.id by lia.
    vm_compute. reflexivity.
Qed.

(** ** Parameter sampling *)

(** pickParam is one draw followed by the selection of a candidate. *)
Lemma pickParam_sample :
  forall a sp,
    pickParam a (min sp) (max sp) (step sp) = (sample (fst (rand a)) sp, snd (rand a)).
Proof.
  intros a sp. unfold pickParam, sample.
  destruct (rand a) as [r a']. reflexivity.
Qed.

Lemma sample_integer :
  forall (r : JS.number) (w mn mx st : Z) (sto : option JS.number),
    r = dyadic w (-32) -> 0 <= w < 4294967296 ->
    -1125899906842624 <= mn -> mn <= mx -> mx <= 1125899906842624 ->
    1 <= st < 9007199254740992 -> (mx - mn) / st < 2097152 ->
    sto = Some (int st) \/ (sto = None /\ st = 1) ->
    sample r (integer_spec mn mx sto)
    = int (mn + (w * ((mx - mn) / st + 1)) / 4294967296 * st).
Proof.
  intros r w mn mx st sto Hr Hw Hmn Hle Hmx Hst Hn Hstep.
  unfold sample, integer_spec. cbn [min max step].
  assert (Es : match sto with Some s => s | None => JS.of_Z 1 end = dyadic st 0).
  { destruct Hstep as [E|[E E1]]; subst sto.
    - unfold int. apply of_Z_dyadic. lia.
    - subst st. apply of_Z_dyadic. lia. }
  rewrite Es. unfold int.
  set (q := (mx - mn) / st).
  assert (Hq : 0 <= q) by (apply Z.div_pos; lia).
  assert (Hqs : q * st <= mx - mn).
  { unfold q. rewrite Z.mul_comm. apply Z.mul_div_le. lia. }
  set (k := (w * (q + 1)) / 4294967296).
  assert (Hk : 0 <= k <= q).
  { unfold k. split.
    - apply Z.div_pos; nia.
    - assert (w * (q + 1) / 4294967296 < q + 1); [|lia].
      apply Z.div_lt_upper_bound; nia. }
  rewrite (of_Z_dyadic mx), (of_Z_dyadic mn) by lia.
  rewrite sub_exact by lia.
  rewrite floor_div_exact by lia. fold q.
  rewrite (of_Z_dyadic 1) by lia.
  rewrite add_exact by lia.
  rewrite Hr.
  rewrite mul_exact; try nia.
  2:{ intro P. pose proof (digits_range (w * (q + 1)) ltac:(lia) ltac:(nia)). lia. }
  replace (-32 + 0) with (-32) by lia.
  rewrite floor_exact by nia.
  change (2 ^ (- (-32))) with 4294967296. fold k.
  rewrite mul_exact; try nia.
  2:{ intro P. pose proof (digits_range (k * st) ltac:(lia) ltac:(nia)). lia. }
  replace (0 + 0) with 0 by lia.
  rewrite add_exact by nia.
  symmetry. apply of_Z_dyadic. nia.
Qed.

Lemma strict_eq_refl :
  forall x, JS.is_finite x = true -> JS.strict_eq x x = true.
Proof.
  intros [s|s| |s m e] H; try discriminate H; try reflexivity.
  unfold JS.strict_eq, SFeqb, SFcompare.
  rewrite Z.compare_refl.
  change (Pos.compare_cont Eq m m) with (Pos.compare m m).
  rewrite Pos.compare_refl. destruct s; reflexivity.
Qed.

Lemma sub_same :
  forall x, JS.is_finite x = true -> JS.sub x x = S754_zero false.
Proof.
  intros [s|s| |s m e] H; try discriminate H.
  - destruct s; reflexivity.
  - unfold JS.sub, SFsub, shl_align.
    rewrite Z.min_id, Z.sub_diag. reflexivity.
Qed.

(** With min == max, whatever finite value it is and whatever the
    positive finite step, the value picked is min. *)
Lemma sample_single :
  forall (r : JS.number) (w : Z) (x : JS.number) (sto : option JS.number) nm,
    r = dyadic w (-32) -> 0 <= w < 4294967296 ->
    JS.is_finite x = true ->
    (sto = None \/ exists m e, sto = Some (S754_finite false m e)) ->
    JS.strict_eq
      (sample r {| name := nm; min := x; max := x; step := sto |}) x = true.
Proof.
  intros r w x sto nm Hr Hw Hx Hstep.
  unfold sample. cbn [min max step].
  rewrite sub_same by exact Hx.
  assert (Es : exists m e,
             match sto with Some s => s | None => JS.of_Z 1 end
             = S754_finite false m e).
  { destruct Hstep as [E|[m [e E]]]; subst sto.
    - exists 4503599627370496%positive, (-52). reflexivity.
    - exists m, e. reflexivity. }
  destruct Es as [m [e Es]]. rewrite Es.
  change (JS.div (S754_zero false) (S754_finite false m e))
    with (S754_zero false).
  change (JS.floor (S754_zero false)) with (S754_zero false).
  change (JS.add (S754_zero false) (JS.of_Z 1)) with (dyadic 1 0).
  rewrite Hr. rewrite mul_exact; try lia.
  2:{ intro P. pose proof (digits_range (w * 1) ltac:(lia) ltac:(lia)). lia. }
  rewrite Z.mul_1_r. replace (-32 + 0) with (-32) by lia.
  rewrite floor_exact by lia.
  change (2 ^ (- (-32))) with 4294967296.
  rewrite Z.div_small by lia.
  change (JS.mul (dyadic 0 0) (S754_finite false m e)) with (S754_zero false).
  destruct x as [s|s| |s mx ex]; try discriminate Hx.
  - destruct s; reflexivity.
  - change (JS.add (S754_finite s mx ex) (S754_zero false))
      with (S754_finite s mx ex).
    apply strict_eq_refl. reflexivity.
Qed.

(** C3: for integer min <= max of magnitude at most 2^50, an integer
    step >= 1 (1 when omitted) and at most 2^21 candidate values, and for
    every state of the generator, whose draw is r = w / 2^32: pickParam
    returns v = min + k * step with k = floor(r * nSteps) and
    nSteps = floor((max - min) / step) + 1, so that 0 <= k < nSteps,
    min <= v <= max and (v - min) mod step = 0.  With min == max, for any
    finite min and any positive finite step, pickParam returns min. *)
Theorem pickParam_on_integer_grid :
  (forall (a : JS.number) (mn mx st : Z) (sto : option JS.number),
      -1125899906842624 <= mn -> mn <= mx -> mx <= 1125899906842624 ->
      1 <= st < 9007199254740992 -> (mx - mn) / st < 2097152 ->
      sto = Some (int st) \/ (sto = None /\ st = 1) ->
      let n := (mx - mn) / st + 1 in
      let w := mix (JS.trunc (snd (rand a))) in
      let k := (w * n) / 4294967296 in
      let v := fst (pickParam a (int mn) (int mx) sto) in
      (fst (rand a) = dyadic w (-32) /\ 0 <= w < 4294967296)
      /\ v = int (mn + k * st)
      /\ 0 <= k < n
      /\ mn <= mn + k * st <= mx
      /\ (mn + k * st - mn) mod st = 0
      /\ JS.leb (int mn) v = true
      /\ JS.leb v (int mx) = true)
  /\ (forall (a x : JS.number) (sto : option JS.number),
        JS.is_finite x = true ->
        (sto = None \/ exists m e, sto = Some (S754_finite false m e)) ->
        JS.strict_eq (fst (pickParam a x x sto)) x = true).
Proof.
  split.
  - intros a mn mx st sto Hmn Hle Hmx Hst Hn Hsto n w k v.
    pose proof (mix_range (JS.trunc (snd (rand a)))) as Hw. fold w in Hw.
    pose proof (rand_output a) as Hr. fold w in Hr.
    assert (Hq : 0 <= (mx - mn) / st) by (apply Z.div_pos; lia).
    assert (Hqs : (mx - mn) / st * st <= mx - mn).
    { rewrite Z.mul_comm. apply Z.mul_div_le. lia. }
    assert (Hk : 0 <= k < n).
    { unfold k, n. split.
      - apply Z.div_pos; nia.
      - apply Z.div_lt_upper_bound; nia. }
    assert (Ev : v = int (mn + k * st)).
    { unfold v.
      change (pickParam a (int mn) (int mx) sto)
        with (pickParam a (min (integer_spec mn mx sto))
                (max (integer_spec mn mx sto)) (step (integer_spec mn mx sto))).
      rewrite pickParam_sample. cbn [fst].
      apply (sample_integer (fst (rand a)) w mn mx st sto); assumption. }
    assert (Hv : mn <= mn + k * st <= mx) by (unfold n in Hk; nia).
    split; [split; assumption|].
    split; [exact Ev|]. split; [exact Hk|]. split; [exact Hv|].
    split.
    { replace (mn + k * st - mn) with (k * st) by lia. apply Z_mod_mult. }
    rewrite Ev. unfold int.
    rewrite (of_Z_dyadic mn), (of_Z_dyadic mx), (of_Z_dyadic (mn + k * st)) by lia.
    rewrite !leb_exact by lia.
    split; apply Z.leb_le; lia.
  - intros a x sto Hx Hsto.
    change (pickParam a x x sto)
      with (pickParam a (min {| name := "p"; min := x; max := x; step := sto |})
              (max {| name := "p"; min := x; max := x; step := sto |})
              (step {| name := "p"; min := x; max := x; step := sto |})).
    rewrite pickParam_sample. cbn [fst].
    apply (sample_single (fst (rand a)) (mix (JS.trunc (snd (rand a))))).
    + apply rand_output.
    + apply mix_range.
    + exact Hx.
    + exact Hsto.
Qed.

(** The resistance of the demonstration problem, from 4 to 12 by 1, with
    the generator seeded with 42: the value picked is 9. *)
Lemma pickParam_grid_witness :
  fst (pickParam (mulberry32 (int 42)) (int 4) (int 12) (Some (int 1))) = int 9.
Proof.
  destruct (proj1 pickParam_on_integer_grid (mulberry32 (int 42)) 4 12 1
              (Some (int 1))
              ltac:(lia) ltac:(lia) ltac:(lia) ltac:(lia)
              ltac:(vm_compute; reflexivity) (or_introl eq_refl))
    as [_ [E _]].
  rewrite E. vm_compute. reflexivity.
Defined.

(** From 0 to 1.7 by 0.1 with the generator seeded with 36: the draw
    selects the last of the 18 candidates, and 17 times 0.1 is the Number
    1.7000000000000002, above the maximum. *)
Lemma fractional_step_leaves_range :
  let lo := int 0 in
  let hi := JS.of_ratio false 17 10 in
  let st := JS.of_ratio false 1 10 in
  let v := fst (pickParam (mulberry32 (int 36)) lo hi (Some st)) in
  JS.leb lo hi = true
  /\ JS.ltb (int 0) st = true
  /\ JS.to_string v = "1.7000000000000002"
  /\ JS.leb v hi = false.
Proof.
  vm_compute. repeat split; reflexivity.
Qed.

(** ** Bindings: one draw per parameter, in declared order *)

Lemma own_set_own_same :
  forall b x v, own (set_own b x v) x = Some v.
Proof.
  induction b as [|[k w] r IH]; intros x v; simpl.
  - rewrite String.eqb_refl. reflexivity.
  - destruct (String.eqb k x) eqn:E; simpl; rewrite E; [reflexivity|apply IH].
Qed.

Lemma own_set_own_other :
  forall b x y v, x <> y -> own (set_own b x v) y = own b y.
Proof.
  induction b as [|[k w] r IH]; intros x y v H; simpl.
  - destruct (String.eqb x y) eqn:E; [|reflexivity].
    apply String.eqb_eq in E. contradiction.
  - destruct (String.eqb k x) eqn:E; simpl.
    + apply String.eqb_eq in E. subst k.
      destruct (String.eqb x y) eqn:E'; [|reflexivity].
      apply String.eqb_eq in E'. contradiction.
    + destruct (String.eqb k y); [reflexivity|apply IH; exact H].
Qed.

Lemma own_assign_same :
  forall b x v, x <> "__proto__" -> own (assign b x v) x = Some v.
Proof.
  intros b x v H. unfold assign.
  destruct (String.eqb x "__proto__") eqn:E.
  - apply String.eqb_eq in E. contradiction.
  - apply own_set_own_same.
Qed.

Lemma own_assign_other :
  forall b x y v, x <> y -> own (assign b x v) y = own b y.
Proof.
  intros b x y v H. unfold assign.
  destruct (String.eqb x "__proto__"); [reflexivity|].
  apply own_set_own_other. exact H.
Qed.

Lemma bind_params_cons :
  forall sp ps a out,
    bind_params (sp :: ps) a out =
    bind_params ps (snd (rand a)) (assign out (name sp) (sample (fst (rand a)) sp)).
Proof.
  intros sp ps a out. cbn [bind_params]. rewrite pickParam_sample. reflexivity.
Qed.

Lemma draw_at_S :
  forall i a, draw_at (S i) a = draw_at i (snd (rand a)).
Proof. intros i a. unfold draw_at. cbn [advance]. reflexivity. Qed.

(** A name that no parameter carries keeps what the object held. *)
Lemma own_bind_params_other :
  forall ps a out x,
    (forall sp, In sp ps -> name sp <> x) ->
    own (bind_params ps a out) x = own out x.
Proof.
  induction ps as [|sp ps IH]; intros a out x H; [reflexivity|].
  rewrite bind_params_cons, IH.
  - apply own_assign_other. apply H. left; reflexivity.
  - intros sp' Hin. apply H. right; exact Hin.
Qed.

(** With distinct names, the parameter declared at position [i] is bound
    to what [pickParam] makes of the draw at position [i]. *)
Lemma own_bind_params_nth :
  forall ps a out i sp,
    NoDup (map name ps) ->
    nth_error ps i = Some sp -> name sp <> "__proto__" ->
    own (bind_params ps a out) (name sp) = Some (sample (draw_at i a) sp).
Proof.
  induction ps as [|sp0 ps IH]; intros a out i sp Hnd Hi Hp.
  - destruct i; discriminate.
  - rewrite bind_params_cons. inversion Hnd as [|x l Hnot Hnd']; subst.
    destruct i as [|i].
    + simpl in Hi. inversion Hi; subst sp0.
      unfold draw_at. cbn [advance].
      rewrite own_bind_params_other.
      * apply own_assign_same. exact Hp.
      * intros sp' Hin Heq. apply Hnot. rewrite <- Heq.
        apply in_map. exact Hin.
    + simpl in Hi. rewrite draw_at_S.
      apply (IH (snd (rand a)) _ i sp Hnd' Hi Hp).
Qed.

(** Every declared name ends up bound, whatever its specification. *)
Lemma own_bind_params_bound :
  forall ps a out x,
    x <> "__proto__" ->
    (In x (map name ps) \/ exists v, own out x = Some v) ->
    exists v, own (bind_params ps a out) x = Some v.
Proof.
  induction ps as [|sp ps IH]; intros a out x Hp H.
  - destruct H as [[]|H]. exact H.
  - rewrite bind_params_cons. apply IH; [exact Hp|].
    destruct (string_dec (name sp) x) as [E|E].
    + right. subst x. rewrite own_assign_same by exact Hp. eauto.
    + destruct H as [[H|H]|[v H]].
      * contradiction.
      * left. exact H.
      * right. exists v. rewrite own_assign_other by exact E. exact H.
Qed.

Lemma own_bind_params_proto :
  forall ps a out,
    own (bind_params ps a out) "__proto__" = own out "__proto__".
Proof.
  induction ps as [|sp ps IH]; intros a out; [reflexivity|].
  rewrite bind_params_cons, IH. unfold assign.
  destruct (String.eqb (name sp) "__proto__") eqn:E; [reflexivity|].
  apply own_set_own_other. intro H. rewrite H in E. discriminate.
Qed.

Section Swap.

Local Open Scope list_scope.

Variables (l1 l2 l3 : list param_spec) (s1 s2 : param_spec).

Let declared := l1 ++ s1 :: l2 ++ s2 :: l3.
Let swapped := l1 ++ s2 :: l2 ++ s1 :: l3.
Let i := List.length l1.
Let j := (List.length l1 + 1 + List.length l2)%nat.

Lemma declared_i : nth_error declared i = Some s1.
Proof.
  unfold declared, i. rewrite nth_error_app2 by lia.
  rewrite Nat.sub_diag. reflexivity.
Qed.

Lemma declared_j : nth_error declared j = Some s2.
Proof.
  unfold declared, j. rewrite nth_error_app2 by lia.
  replace (List.length l1 + 1 + List.length l2 - List.length l1)%nat
    with (S (List.length l2)) by lia.
  simpl. rewrite nth_error_app2 by lia.
  rewrite Nat.sub_diag. reflexivity.
Qed.

Lemma swapped_i : nth_error swapped i = Some s2.
Proof.
  unfold swapped, i. rewrite nth_error_app2 by lia.
  rewrite Nat.sub_diag. reflexivity.
Qed.

Lemma swapped_j : nth_error swapped j = Some s1.
Proof.
  unfold swapped, j. rewrite nth_error_app2 by lia.
  replace (List.length l1 + 1 + List.length l2 - List.length l1)%nat
    with (S (List.length l2)) by lia.
  simpl. rewrite nth_error_app2 by lia.
  rewrite Nat.sub_diag. reflexivity.
Qed.

Lemma swapped_elsewhere :
  forall k, k <> i -> k <> j -> nth_error swapped k = nth_error declared k.
Proof.
  intros k Hi Hj. unfold swapped, declared, i, j in *.
  destruct (Nat.lt_ge_cases k (List.length l1)) as [H|H].
  - rewrite !nth_error_app1 by lia. reflexivity.
  - rewrite !nth_error_app2 by lia.
    destruct (k - List.length l1)%nat as [|m] eqn:E; [lia|].
    simpl.
    destruct (Nat.lt_ge_cases m (List.length l2)) as [H'|H'].
    + rewrite !nth_error_app1 by lia. reflexivity.
    + rewrite !nth_error_app2 by lia.
      destruct (m - List.length l2)%nat as [|m'] eqn:E'; [lia|].
      reflexivity.
Qed.

Lemma swapped_names :
  forall x, In x (map name swapped) <-> In x (map name declared).
Proof.
  intro x. unfold swapped, declared.
  rewrite !map_app. simpl. rewrite !map_app. simpl.
  rewrite !in_app_iff. simpl. rewrite !in_app_iff. simpl. tauto.
Qed.

Lemma swapped_NoDup :
  NoDup (map name declared) -> NoDup (map name swapped).
Proof.
  apply Permutation_NoDup. apply Permutation_map.
  unfold declared, swapped. apply Permutation_app_head.
  transitivity (s1 :: s2 :: l2 ++ l3).
  - apply perm_skip. symmetry. apply Permutation_middle.
  - transitivity (s2 :: s1 :: l2 ++ l3).
    + apply perm_swap.
    + apply perm_skip. apply Permutation_middle.
Qed.

End Swap.

Lemma own_generateBindings_unnamed :
  forall p seed x,
    ~ In x (map name (params p)) -> own (generateBindings p seed) x = None.
Proof.
  intros p seed x H. unfold generateBindings.
  rewrite own_bind_params_other; [reflexivity|].
  intros sp Hin E. apply H. rewrite <- E. apply in_map. exact Hin.
Qed.

Lemma own_generateBindings_nth :
  forall p seed i sp,
    NoDup (map name (params p)) ->
    nth_error (params p) i = Some sp -> name sp <> "__proto__" ->
    own (generateBindings p seed) (name sp)
      = Some (sample (draw_at i (mulberry32 seed)) sp).
Proof.
  intros p seed i sp Hnd Hi Hp. unfold generateBindings.
  apply own_bind_params_nth; assumption.
Qed.

(** C9: each parameter consumes exactly one draw, in declared order: with
    distinct names, the parameter declared at position [i] is bound to
    what pickParam makes of draw [i].  Exchanging the specifications at
    positions [i] and [j] therefore gives each the other's draw, and the
    resulting bindings differ from the original ones exactly when one of
    the two parameters gets a different value from the other's draw. *)
Theorem bindings_follow_declared_order :
  forall (p : problem) (seed : JS.number),
    (forall i sp,
        NoDup (map name (params p)) ->
        nth_error (params p) i = Some sp -> name sp <> "__proto__" ->
        own (generateBindings p seed) (name sp)
          = Some (sample (draw_at i (mulberry32 seed)) sp))
    /\ (forall l1 s1 l2 s2 l3,
          NoDup (map name (l1 ++ s1 :: l2 ++ s2 :: l3)%list) ->
          name s1 <> "__proto__" -> name s2 <> "__proto__" ->
          let ri := draw_at (List.length l1) (mulberry32 seed) in
          let rj := draw_at (List.length l1 + 1 + List.length l2)
                      (mulberry32 seed) in
          (forall x,
              own (generateBindings
                     (with_params p (l1 ++ s1 :: l2 ++ s2 :: l3)%list) seed) x
              = own (generateBindings
                       (with_params p (l1 ++ s2 :: l2 ++ s1 :: l3)%list) seed) x)
          <-> (sample ri s1 = sample rj s1 /\ sample rj s2 = sample ri s2)).
Proof.
  intros p seed. split.
  - intros i sp. apply own_generateBindings_nth.
  - intros l1 s1 l2 s2 l3 Hnd Hp1 Hp2 ri rj.
    pose proof (swapped_NoDup l1 l2 l3 s1 s2 Hnd) as Hnd'.
    set (pa := with_params p (l1 ++ s1 :: l2 ++ s2 :: l3)%list).
    set (pb := with_params p (l1 ++ s2 :: l2 ++ s1 :: l3)%list).
    assert (A1 : own (generateBindings pa seed) (name s1) = Some (sample ri s1)).
    { apply own_generateBindings_nth; [exact Hnd| |exact Hp1].
      apply declared_i. }
    assert (A2 : own (generateBindings pa seed) (name s2) = Some (sample rj s2)).
    { apply own_generateBindings_nth; [exact Hnd| |exact Hp2].
      apply declared_j. }
    assert (B1 : own (generateBindings pb seed) (name s1) = Some (sample rj s1)).
    { apply own_generateBindings_nth; [exact Hnd'| |exact Hp1].
      apply swapped_j. }
    assert (B2 : own (generateBindings pb seed) (name s2) = Some (sample ri s2)).
    { apply own_generateBindings_nth; [exact Hnd'| |exact Hp2].
      apply swapped_i. }
    split.
    + intro H. split.
      * pose proof (H (name s1)) as E. rewrite A1, B1 in E.
        inversion E. reflexivity.
      * pose proof (H (name s2)) as E. rewrite A2, B2 in E.
        inversion E. reflexivity.
    + intros [E1 E2] x.
      destruct (in_dec string_dec x (map name (params pa))) as [Hin|Hout].
      * destruct (string_dec x "__proto__") as [Ex|Ex].
        { subst x. unfold generateBindings.
          rewrite !own_bind_params_proto. reflexivity. }
        apply in_map_iff in Hin. destruct Hin as [sp [Hn Hin]].
        apply In_nth_error in Hin. destruct Hin as [k Hk].
        subst x.
        destruct (Nat.eq_dec k (List.length l1)) as [Ki|Ki].
        { subst k. simpl in Hk. rewrite declared_i in Hk.
          inversion Hk; subst sp. rewrite A1, B1, E1. reflexivity. }
        destruct (Nat.eq_dec k (List.length l1 + 1 + List.length l2)) as [Kj|Kj].
        { subst k. simpl in Hk. rewrite declared_j in Hk.
          inversion Hk; subst sp. rewrite A2, B2, E2. reflexivity. }
        rewrite (own_generateBindings_nth pa seed k sp Hnd Hk Ex).
        rewrite (own_generateBindings_nth pb seed k sp Hnd').
        { reflexivity. }
        { simpl. rewrite swapped_elsewhere by assumption. exact Hk. }
        { exact Ex. }
      * rewrite (own_generateBindings_unnamed pa seed x Hout).
        rewrite (own_generateBindings_unnamed pb seed x); [reflexivity|].
        intro Hin. apply Hout. simpl in *.
        apply swapped_names. exact Hin.
Qed.

(** On the demonstration problem with seed 42, R is bound from the first
    draw. *)
Lemma bindings_order_witness :
  own (generateBindings ohm1 (int 42)) "R"
    = Some (sample (draw_at 0 (mulberry32 (int 42))) spec_R).
Proof.
  apply (proj1 (bindings_follow_declared_order ohm1 (int 42)) 0%nat spec_R).
  - simpl. repeat constructor; simpl; intuition discriminate.
  - reflexivity.
  - discriminate.
Defined.

(** With seed 7 the demonstration problem gets R = 4 and V = 6 in either
    order of its two specifications, whose ranges and steps differ. *)
Lemma swap_keeps_bindings :
  (min spec_R <> min spec_V /\ max spec_R <> max spec_V
   /\ step spec_R <> step spec_V)
  /\ params ohm1 = [spec_R; spec_V]
  /\ forall x,
       own (generateBindings ohm1 (int 7)) x
       = own (generateBindings (with_params ohm1 [spec_V; spec_R]) (int 7)) x.
Proof.
  split; [|split].
  - repeat split; vm_compute; discriminate.
  - reflexivity.
  - assert (A : generateBindings ohm1 (int 7) = [("R", int 4); ("V", int 6)])
      by (vm_compute; reflexivity).
    assert (B : generateBindings (with_params ohm1 [spec_V; spec_R]) (int 7)
                = [("V", int 6); ("R", int 4)])
      by (vm_compute; reflexivity).
    intro x. rewrite A, B. cbn [own].
    destruct (String.eqb "R" x) eqn:ER; destruct (String.eqb "V" x) eqn:EV;
      try reflexivity.
    apply String.eqb_eq in ER. apply String.eqb_eq in EV. congruence.
Qed.

(** ** Malformed parameter specifications *)

(** C5: sampling validates nothing and never fails: whatever the
    specifications of a problem are (min above max and non-positive
    steps included), generateBindings binds every declared name other
    than __proto__ to a Number, the one pickParam computes from the
    specification as given when the names are distinct. *)
Theorem sampling_never_rejects :
  forall (p : problem) (seed : JS.number) (sp : param_spec),
    In sp (params p) -> name sp <> "__proto__" ->
    (exists v, own (generateBindings p seed) (name sp) = Some v)
    /\ (NoDup (map name (params p)) ->
        exists i, nth_error (params p) i = Some sp
                  /\ own (generateBindings p seed) (name sp)
                     = Some (sample (draw_at i (mulberry32 seed)) sp)).
Proof.
  intros p seed sp Hin Hp. split.
  - unfold generateBindings. apply own_bind_params_bound; [exact Hp|].
    left. apply in_map. exact Hin.
  - intro Hnd. apply In_nth_error in Hin. destruct Hin as [i Hi].
    exists i. split; [exact Hi|].
    apply own_generateBindings_nth; assumption.
Qed.

(** The specification with min 5 and max 1 is sampled like any other. *)
Lemma sampling_witness :
  exists v, own (generateBindings malformed (int 42)) "x" = Some v.
Proof.
  apply (proj1 (sampling_never_rejects malformed (int 42)
                  {| name := "x"; min := int 5; max := int 1;
                     step := Some (int 1) |}
                  (or_introl eq_refl)
                  ltac:(discriminate))).
Defined.

(** With seed 42 the malformed problem is sampled without any error: x,
    declared with min 5 above max 1, is bound to 3, and y, declared with
    step 0, to NaN; the variant is then rendered and matched as usual. *)
Lemma malformed_spec_is_sampled :
  JS.ltb (int 1) (int 5) = true
  /\ JS.leb (int 0) (int 0) = true
  /\ generateBindings malformed (int 42) = [("x", int 3); ("y", JS.NaN)]
  /\ fst (variantResult malformed (int 42) sample_host)
     = Normal {| rendered_stem := "x = 3, y = NaN";
                 correct_index := 0;
                 numeric_answer := None |}.
Proof.
  repeat split; vm_compute; reflexivity.
Qed.

(** ** Template rendering *)

Section Render.

Variable b : bindings.

Lemma skip_spaces_length :
  forall s, (String.length (skip_spaces s) <= String.length s)%nat.
Proof.
  induction s as [|c r IH]; simpl; [lia|].
  destruct (is_space c); simpl; lia.
Qed.

Lemma span_word_length :
  forall s w t, span_word s = (w, t) ->
    (String.length t <= String.length s)%nat.
Proof.
  induction s as [|c r IH]; simpl; intros w t H.
  - inversion H; simpl; lia.
  - destruct (is_word c).
    + destruct (span_word r) as [w' t'] eqn:E. inversion H; subst.
      specialize (IH _ _ eq_refl). lia.
    + inversion H; subst; simpl; lia.
Qed.

Lemma match_placeholder_shorter :
  forall s w r, match_placeholder s = Some (w, r) ->
    (String.length r < String.length s)%nat.
Proof.
  intros s w r H. unfold match_placeholder in H.
  destruct s as [|c1 [|c2 s]]; try discriminate.
  - destruct c1 as [[] [] [] [] [] [] [] []]; discriminate.
  - destruct c1 as [[] [] [] [] [] [] [] []]; try discriminate.
    destruct c2 as [[] [] [] [] [] [] [] []]; try discriminate.
    destruct (span_word (skip_spaces s)) as [w' r'] eqn:Ew.
    pose proof (span_word_length _ _ _ Ew) as L1.
    pose proof (skip_spaces_length s) as L2.
    pose proof (skip_spaces_length r') as L3.
    destruct w' as [|a w'']; try discriminate.
    destruct (skip_spaces r') as [|d1 [|d2 t]] eqn:Er; try discriminate.
    + destruct d1 as [[] [] [] [] [] [] [] []]; discriminate.
    + destruct d1 as [[] [] [] [] [] [] [] []]; try discriminate.
      destruct d2 as [[] [] [] [] [] [] [] []]; try discriminate.
      inversion H; subst. simpl in *. lia.
Qed.

(** Enough fuel is any fuel above the length of the template. *)
Lemma replace_placeholders_fuel :
  forall f1 f2 s,
    (String.length s < f1)%nat -> (String.length s < f2)%nat ->
    replace_placeholders f1 s b = replace_placeholders f2 s b.
Proof.
  induction f1 as [|f1 IH]; intros f2 s H1 H2; [lia|].
  destruct f2 as [|f2]; [lia|]. simpl.
  destruct (match_placeholder s) as [[w r]|] eqn:E.
  - apply match_placeholder_shorter in E.
    f_equal. apply IH; lia.
  - destruct s as [|c r]; [reflexivity|].
    simpl in H1, H2. f_equal. apply IH; lia.
Qed.

Lemma replace_placeholders_step :
  forall f s,
    replace_placeholders (S f) s b =
    match match_placeholder s with
    | Some (w, r) => (substitute b w ++ replace_placeholders f r b)%string
    | None =>
        match s with
        | EmptyString => ""
        | String c r => String c (replace_placeholders f r b)
        end
    end.
Proof. reflexivity. Qed.

(** A placeholder at the head is replaced by the text of its binding and
    rendering goes on after it. *)
Lemma renderTemplate_placeholder :
  forall s w r, match_placeholder s = Some (w, r) ->
    renderTemplate s b = (substitute b w ++ renderTemplate r b)%string.
Proof.
  intros s w r H. unfold renderTemplate.
  rewrite replace_placeholders_step, H.
  f_equal. pose proof (match_placeholder_shorter _ _ _ H).
  apply replace_placeholders_fuel; lia.
Qed.

(** Any other character is copied. *)
Lemma renderTemplate_char :
  forall c r, match_placeholder (String c r) = None ->
    renderTemplate (String c r) b = String c (renderTemplate r b).
Proof.
  intros c r H. unfold renderTemplate.
  rewrite replace_placeholders_step, H. reflexivity.
Qed.

Lemma renderTemplate_empty : renderTemplate "" b = "".
Proof. reflexivity. Qed.

(** A template without placeholders is returned unchanged. *)
Lemma renderTemplate_plain :
  forall s, no_placeholder s -> renderTemplate s b = s.
Proof.
  induction s as [|c r IH]; intros H; [reflexivity|].
  destruct H as [H1 H2]. rewrite renderTemplate_char by exact H1.
  rewrite IH by exact H2. reflexivity.
Qed.

End Render.

(** The shape [{{ name }}]: two braces, spaces, a word, spaces, two
    braces. *)
Lemma skip_spaces_app :
  forall sp t, all_chars is_space sp ->
    skip_spaces (sp ++ t) = skip_spaces t.
Proof.
  induction sp as [|c r IH]; intros t H; [reflexivity|].
  simpl. rewrite (H c) by (simpl; auto).
  apply IH. intros d Hd. apply H. simpl; auto.
Qed.

Lemma span_word_app :
  forall w t, all_chars is_word w ->
    match t with String c _ => is_word c = false | EmptyString => True end ->
    span_word (w ++ t) = (w, t).
Proof.
  induction w as [|c r IH]; intros t Hw Ht.
  - simpl. destruct t as [|c t]; [reflexivity|].
    simpl. rewrite Ht. reflexivity.
  - simpl. rewrite (Hw c) by (simpl; auto).
    rewrite IH; [reflexivity| |exact Ht].
    intros d Hd. apply Hw. simpl; auto.
Qed.

Lemma word_not_space : forall c, is_word c = true -> is_space c = false.
Proof.
  intros c. destruct c as [[] [] [] [] [] [] [] []];
    vm_compute; intros; congruence.
Qed.

Lemma space_not_word : forall c, is_space c = true -> is_word c = false.
Proof.
  intros c H. destruct (is_word c) eqn:E; [|reflexivity].
  apply word_not_space in E. congruence.
Qed.

Lemma match_placeholder_shape :
  forall sp1 w sp2 rest,
    all_chars is_space sp1 -> all_chars is_space sp2 ->
    all_chars is_word w -> w <> "" ->
    match_placeholder ("{{" ++ sp1 ++ w ++ sp2 ++ "}}" ++ rest) = Some (w, rest).
Proof.
  intros sp1 w sp2 rest H1 H2 Hw Hne.
  destruct w as [|c w']; [congruence|].
  assert (Hc : is_word c = true) by (apply Hw; simpl; auto).
  cbn [append match_placeholder].
  rewrite skip_spaces_app by exact H1.
  cbn [append skip_spaces]. rewrite (word_not_space c Hc).
  replace (String c (w' ++ sp2 ++ String "}" (String "}" rest)))%string
    with (String c w' ++ (sp2 ++ "}}" ++ rest))%string by reflexivity.
  rewrite span_word_app.
  - rewrite skip_spaces_app by exact H2. reflexivity.
  - exact Hw.
  - destruct sp2 as [|d sp2']; simpl; [reflexivity|].
    apply space_not_word. apply H2. simpl; auto.
Qed.

Lemma substitute_bound :
  forall b name x, own b name = Some x ->
    substitute b name = JS.to_string x.
Proof.
  intros b name x H. unfold substitute, get. rewrite H. reflexivity.
Qed.

Lemma substitute_unbound :
  forall b name, own b name = None -> inherited name = false ->
    substitute b name = "".
Proof.
  intros b name H Hi. unfold substitute, get. rewrite H.
  unfold inherited in Hi.
  apply orb_false_iff in Hi. destruct Hi as [Hi H3].
  apply orb_false_iff in Hi. destruct Hi as [H1 H2].
  rewrite H1, H2, H3. reflexivity.
Qed.

(** C7: renderTemplate("V={{V}}, R={{R}}", {V:10, R:5}) is "V=10, R=5",
    yet a name that the bindings do not hold is not always rendered as
    the empty string: [constructor], [toString] and [__proto__] are found
    on the prototype of the bindings object and rendered as that
    property's text. *)
Theorem renderTemplate_inherited_name :
  let b := [("V", int 10); ("R", int 5)] in
  renderTemplate "V={{V}}, R={{R}}" b = "V=10, R=5"
  /\ own b "constructor" = None
  /\ renderTemplate "{{constructor}}" b = "function Object() { [native code] }"
  /\ renderTemplate "{{ toString }}" [] = "function toString() { [native code] }"
  /\ renderTemplate "{{__proto__}}" [] = "[object Object]"
  /\ renderTemplate "{{missing}}" b = "".
Proof.
  repeat split; vm_compute; reflexivity.
Qed.

(** ** Trimming *)

Lemma rev_string_app :
  forall a b acc, rev_string (a ++ b) acc = rev_string b (rev_string a acc).
Proof.
  induction a as [|c a IH]; intros b acc; [reflexivity|].
  cbn [append rev_string]. apply IH.
Qed.

Lemma app_assoc_string :
  forall a b c : string, (a ++ b) ++ c = a ++ b ++ c.
Proof.
  induction a as [|x a IH]; intros b c; simpl; [reflexivity|].
  rewrite IH. reflexivity.
Qed.

Lemma rev_string_acc :
  forall s acc, rev_string s acc = rev_string s "" ++ acc.
Proof.
  induction s as [|c s IH]; intro acc; [reflexivity|].
  cbn [rev_string]. rewrite IH. rewrite (IH (String c "")).
  rewrite app_assoc_string. reflexivity.
Qed.

Lemma all_chars_tail :
  forall f c s, all_chars f (String c s) -> f c = true /\ all_chars f s.
Proof.
  intros f c s H. split.
  - apply H. left. reflexivity.
  - intros d Hd. apply H. right. exact Hd.
Qed.

Lemma all_chars_rev :
  forall f s acc, all_chars f s -> all_chars f acc ->
    all_chars f (rev_string s acc).
Proof.
  induction s as [|c s IH]; intros acc Hs Ha; [exact Ha|].
  cbn [rev_string]. apply all_chars_tail in Hs. destruct Hs as [Hc Hs].
  apply IH; [exact Hs|].
  intros d [E|Hd]; [subst d; exact Hc|apply Ha; exact Hd].
Qed.

Lemma all_chars_empty : forall f, all_chars f "".
Proof. intros f c []. Qed.

Lemma skip_spaces_all :
  forall s, all_chars is_space s -> skip_spaces s = "".
Proof.
  induction s as [|c s IH]; intro H; [reflexivity|].
  apply all_chars_tail in H. destruct H as [Hc Hs].
  cbn [skip_spaces]. rewrite Hc. apply IH. exact Hs.
Qed.

Lemma skip_spaces_append :
  forall s t, skip_spaces s <> "" -> skip_spaces (s ++ t) = skip_spaces s ++ t.
Proof.
  induction s as [|c s IH]; intros t H; [contradiction H; reflexivity|].
  cbn [append skip_spaces] in *. destruct (is_space c).
  - apply IH. exact H.
  - reflexivity.
Qed.

Lemma skip_spaces_blank_or_not :
  forall s, skip_spaces s = "" -> all_chars is_space s.
Proof.
  induction s as [|c s IH]; intro H; [apply all_chars_empty|].
  cbn [skip_spaces] in H. destruct (is_space c) eqn:E; [|discriminate H].
  intros d [Ed|Hd]; [subst d; exact E|apply (IH H); exact Hd].
Qed.

Lemma trim_blanks :
  forall sp1 s sp2, all_chars is_space sp1 -> all_chars is_space sp2 ->
    trim (sp1 ++ s ++ sp2) = trim s.
Proof.
  intros sp1 s sp2 H1 H2. unfold trim.
  rewrite skip_spaces_app by exact H1.
  destruct (string_dec (skip_spaces s) "") as [E|E].
  - rewrite E.
    assert (A : all_chars is_space (s ++ sp2)).
    { pose proof (skip_spaces_blank_or_not s E) as Hs.
      clear E. induction s as [|c s IH]; [exact H2|].
      apply all_chars_tail in Hs. destruct Hs as [Hc Hs].
      intros d [Ed|Hd]; [subst d; exact Hc|apply (IH Hs); exact Hd]. }
    rewrite (skip_spaces_all _ A). reflexivity.
  - rewrite skip_spaces_append by exact E.
    rewrite rev_string_app.
    rewrite (rev_string_acc sp2).
    rewrite skip_spaces_app; [reflexivity|].
    apply all_chars_rev; [exact H2|apply all_chars_empty].
Qed.

(** ** Option matching *)

Lemma without_leading_skip_spaces :
  forall s, Rule.without_leading s = skip_spaces s.
Proof.
  induction s as [|c s IH]; [reflexivity|].
  cbn [Rule.without_leading skip_spaces]. rewrite IH. reflexivity.
Qed.

Lemma rev_string_cons :
  forall c s, rev_string (String c s) "" = rev_string s "" ++ String c "".
Proof.
  intros c s. cbn [rev_string]. apply rev_string_acc.
Qed.

Lemma rev_string_snoc :
  forall s c, rev_string (s ++ String c "") "" = String c (rev_string s "").
Proof.
  intros s c. rewrite rev_string_app. reflexivity.
Qed.

Lemma rev_string_nonempty :
  forall s, s <> "" -> rev_string s "" <> "".
Proof.
  intros [|c s] H; [contradiction H; reflexivity|].
  rewrite rev_string_cons. destruct (rev_string s ""); discriminate.
Qed.

Lemma without_trailing_rev :
  forall s,
    Rule.without_trailing s
    = rev_string (skip_spaces (rev_string s "")) "".
Proof.
  induction s as [|c s IH]; [reflexivity|].
  cbn [Rule.without_trailing]. rewrite IH. rewrite rev_string_cons.
  destruct (string_dec (skip_spaces (rev_string s "")) "") as [E|E].
  - rewrite E. cbn [rev_string].
    pose proof (skip_spaces_blank_or_not _ E) as B.
    rewrite skip_spaces_app by exact B.
    cbn [skip_spaces]. destruct (is_space c); reflexivity.
  - rewrite skip_spaces_append by exact E.
    rewrite rev_string_snoc.
    pose proof (rev_string_nonempty _ E) as N.
    destruct (rev_string (skip_spaces (rev_string s "")) ""); [contradiction N; reflexivity|].
    reflexivity.
Qed.

Lemma trim_trimmed : forall s, trim s = Rule.trimmed s.
Proof.
  intro s. unfold trim, Rule.trimmed.
  rewrite without_trailing_rev, without_leading_skip_spaces. reflexivity.
Qed.

Lemma append_empty : forall s : string, s ++ "" = s.
Proof.
  induction s as [|c s IH]; [reflexivity|]. simpl. rewrite IH. reflexivity.
Qed.

Lemma number_at_fraction :
  forall int rest,
    match rest with
    | String "." r =>
        match fst (JS.span_digits r) with
        | EmptyString => int
        | frac => int ++ "." ++ frac
        end
    | _ => int
    end
    = int ++ match rest with
             | String "." r =>
                 match fst (JS.span_digits r) with
                 | EmptyString => ""
                 | d => String "." d
                 end
             | _ => ""
             end.
Proof.
  intros int rest. destruct rest as [|c r]; [rewrite append_empty; reflexivity|].
  destruct (ascii_dec c ".") as [E|E].
  - subst c. destruct (fst (JS.span_digits r));
      [rewrite append_empty; reflexivity|reflexivity].
  - destruct c as [[] [] [] [] [] [] [] []];
      try (rewrite append_empty; reflexivity).
    contradiction E. reflexivity.
Qed.

Lemma span_digits_digit :
  forall c r, JS.is_digit c = true ->
    JS.span_digits (String c r)
    = (String c (fst (JS.span_digits r)), snd (JS.span_digits r)).
Proof.
  intros c r H. cbn [JS.span_digits]. rewrite H.
  destruct (JS.span_digits r). reflexivity.
Qed.

Lemma span_digits_other :
  forall c r, JS.is_digit c = false ->
    JS.span_digits (String c r) = ("", String c r).
Proof.
  intros c r H. cbn [JS.span_digits]. rewrite H. reflexivity.
Qed.

Lemma match_numeric_digits :
  forall s, Rule.starts_with_digit s = true ->
    match JS.span_digits s with
    | (String c int, rest) =>
        Some (String c int
              ++ match rest with
                 | String "." r =>
                     match fst (JS.span_digits r) with
                     | EmptyString => ""
                     | d => String "." d
                     end
                 | _ => ""
                 end)
    | _ => None
    end = Some (Rule.number_at s).
Proof.
  intros [|c r] H; [discriminate H|]. cbn [Rule.starts_with_digit] in H.
  unfold Rule.number_at. rewrite (span_digits_digit c r H).
  rewrite (number_at_fraction (String c (fst (JS.span_digits r)))).
  reflexivity.
Qed.

Lemma match_numeric_none :
  forall s, Rule.starts_with_digit s = false ->
    match JS.span_digits s with
    | (String c int, rest) =>
        Some (String c int
              ++ match rest with
                 | String "." r =>
                     match fst (JS.span_digits r) with
                     | EmptyString => ""
                     | d => String "." d
                     end
                 | _ => ""
                 end)
    | _ => None
    end = None.
Proof.
  intros [|c r] H; [reflexivity|]. cbn [Rule.starts_with_digit] in H.
  rewrite (span_digits_other c r H). reflexivity.
Qed.

Lemma match_numeric_at :
  forall c r,
    match_numeric (String c r)
    = if JS.is_digit c then Some (Rule.number_at (String c r))
      else if (JS.code c =? 45) && Rule.starts_with_digit r
      then Some ("-" ++ Rule.number_at r)
      else None.
Proof.
  intros c r. unfold match_numeric.
  destruct (ascii_dec c "-") as [E|E].
  - subst c. change (JS.is_digit "-") with false.
    change (JS.code "-" =? 45) with true. cbn [andb].
    destruct (Rule.starts_with_digit r) eqn:D.
    + pose proof (match_numeric_digits r D) as M.
      destruct (JS.span_digits r) as [[|d int] rest]; [discriminate M|].
      injection M as M. rewrite <- M. reflexivity.
    + pose proof (match_numeric_none r D) as M.
      destruct (JS.span_digits r) as [[|d int] rest]; [reflexivity|discriminate M].
  - replace (match String c r with
             | String "-" r0 => ("-", r0)
             | _ => ("", String c r)
             end) with ("", String c r).
    2:{ destruct c as [[] [] [] [] [] [] [] []]; try reflexivity.
        contradiction E. reflexivity. }
    assert (C : (JS.code c =? 45) = false).
    { apply Z.eqb_neq. intro H. apply E.
      destruct c as [[] [] [] [] [] [] [] []]; vm_compute in H;
        try discriminate H. reflexivity. }
    rewrite C. cbn [andb].
    destruct (JS.is_digit c) eqn:D.
    + pose proof (match_numeric_digits (String c r) D) as M.
      destruct (JS.span_digits (String c r)) as [[|d int] rest];
        [discriminate M|].
      injection M as M. rewrite <- M. reflexivity.
    + pose proof (match_numeric_none (String c r) D) as M.
      destruct (JS.span_digits (String c r)) as [[|d int] rest];
        [reflexivity|discriminate M].
Qed.

Lemma first_numeric_leading_number :
  forall o, first_numeric o = Rule.leading_number o.
Proof.
  induction o as [|c r IH]; [reflexivity|].
  cbn [first_numeric Rule.leading_number]. rewrite match_numeric_at.
  destruct (JS.is_digit c); [reflexivity|].
  destruct ((JS.code c =? 45) && Rule.starts_with_digit r); [reflexivity|].
  exact IH.
Qed.

Lemma is_numeric_rule_numeric : forall p, is_numeric_rule p = Rule.numeric p.
Proof. intro p. reflexivity. Qed.

Lemma rounding_of_precision : forall p, rounding_of p = Rule.precision p.
Proof.
  intro p. unfold rounding_of, Rule.precision.
  destruct (selectRule p) as [[m [d|]]|]; reflexivity.
Qed.

Lemma roundTo_rounded : forall x d, roundTo x d = Rule.rounded x d.
Proof. intros x d. reflexivity. Qed.

(** The test the code applies to an option is the selection rule of the
    specification. *)
Lemma option_matches_rule :
  forall p answer o, option_matches p answer o = Rule.matches p answer o.
Proof.
  intros p answer o. unfold option_matches, Rule.matches.
  rewrite is_numeric_rule_numeric. destruct (Rule.numeric p).
  - unfold numericFromOption. rewrite first_numeric_leading_number.
    rewrite rounding_of_precision.
    destruct (Rule.leading_number o) as [t|]; [|reflexivity].
    rewrite !roundTo_rounded. reflexivity.
  - rewrite !trim_trimmed. reflexivity.
Qed.

Lemma findIndex_none :
  forall {A} (f : A -> bool) l i,
    (forall x, In x l -> f x = false) -> findIndex f l i = -1.
Proof.
  intros A f l. induction l as [|x r IH]; intros i H; [reflexivity|].
  simpl. rewrite (H x) by (left; reflexivity).
  apply IH. intros y Hy. apply H. right; exact Hy.
Qed.

Lemma findIndex_first :
  forall {A} (f : A -> bool) l n x i,
    nth_error l n = Some x -> f x = true ->
    (forall m y, (m < n)%nat -> nth_error l m = Some y -> f y = false) ->
    findIndex f l i = i + Z.of_nat n.
Proof.
  intros A f l. induction l as [|a r IH]; intros n x i Hn Hx Hlt.
  - destruct n; discriminate.
  - destruct n as [|n].
    + simpl in Hn. inversion Hn; subst. simpl. rewrite Hx. lia.
    + simpl. rewrite (Hlt 0%nat a) by (first [lia | reflexivity]).
      rewrite (IH n x (i + 1) Hn Hx).
      * lia.
      * intros m y Hm Hy. apply (Hlt (S m) y); [lia|exact Hy].
Qed.

Lemma findIndex_bounds :
  forall {A} (f : A -> bool) l j,
    findIndex f l j = -1 \/ j <= findIndex f l j.
Proof.
  intros A f l. induction l as [|b l IH]; intro j; simpl; [left; reflexivity|].
  destruct (f b); [right; lia|].
  destruct (IH (j + 1)) as [E|E]; [left; exact E|right; lia].
Qed.

Lemma findIndex_hit :
  forall {A} (f : A -> bool) l i n,
    0 <= i -> findIndex f l i = i + Z.of_nat n ->
    exists x, nth_error l n = Some x /\ f x = true.
Proof.
  intros A f l. induction l as [|a r IH]; intros i n Hi H.
  - simpl in H. lia.
  - simpl in H. destruct (f a) eqn:Ea.
    + assert (n = 0%nat) by lia. subst n. exists a. split; [reflexivity|exact Ea].
    + destruct n as [|n].
      * destruct (findIndex_bounds f r (i + 1)) as [E|E]; lia.
      * apply (IH (i + 1) n); [lia|]. rewrite H. lia.
Qed.

Lemma findIndex_sentinel :
  forall {A} (f : A -> bool) l i,
    0 <= i -> findIndex f l i = -1 -> forall x, In x l -> f x = false.
Proof.
  intros A f l. induction l as [|a r IH]; intros i Hi H x Hx; [destruct Hx|].
  simpl in H. destruct (f a) eqn:Ea; [lia|].
  destruct Hx as [Hx|Hx]; [subst x; exact Ea|].
  apply (IH (i + 1)); [lia|exact H|exact Hx].
Qed.

Lemma numeric_loop_findIndex :
  forall opts i r target,
    numeric_loop opts i r target =
    findIndex (fun o => JS.is_finite (numericFromOption o)
                        && JS.strict_eq (roundTo (numericFromOption o) r) target)
      opts i.
Proof.
  induction opts as [|o rest IH]; intros i r target; [reflexivity|].
  simpl. destruct (JS.is_finite (numericFromOption o)); simpl.
  - destruct (JS.strict_eq _ _); [reflexivity|apply IH].
  - apply IH.
Qed.

Lemma matchAnswer_index :
  forall p answer,
    index (matchAnswer p answer) =
    findIndex (option_matches p answer) (options p) 0.
Proof.
  intros p answer. unfold matchAnswer, option_matches.
  destruct (is_numeric_rule p); simpl.
  - apply numeric_loop_findIndex.
  - reflexivity.
Qed.

Lemma matchAnswer_rule :
  forall p answer,
    index (matchAnswer p answer)
    = findIndex (Rule.matches p answer) (options p) 0.
Proof.
  intros p answer. rewrite matchAnswer_index.
  generalize 0. induction (options p) as [|o rest IH]; intro i; [reflexivity|].
  cbn [findIndex]. rewrite option_matches_rule, IH. reflexivity.
Qed.

Lemma selectOption_symbol :
  forall p d h, is_numeric_rule p = true ->
    selectOption p (VSymbol d) h
    = (Throw (TypeError "Cannot convert a Symbol value to a number"), h).
Proof.
  intros p d h H. unfold selectOption. rewrite H. reflexivity.
Qed.

Lemma selectOption_normal :
  forall p answer h, is_numeric_rule p && is_symbol answer = false ->
    selectOption p answer h = (Normal (matchAnswer p answer), h).
Proof.
  intros p answer h H. unfold selectOption.
  destruct (is_numeric_rule p); [|reflexivity].
  destruct answer; try reflexivity. discriminate H.
Qed.

(** C6: for a declared rounding of at most 22 decimals (the powers of
    ten that are Numbers exactly): under the numeric rule an answer that
    is a Symbol makes Number(answer) throw a TypeError.  For every other
    evaluated answer the matcher does not throw: it returns index -1
    exactly when no option matches the answer under the selection rule
    of the specification (rounded values equal, or trimmed texts equal),
    and the position of the first matching option in list order when one
    does.  chooseCorrectIndex is the evaluation followed by this
    matcher. *)
Theorem option_matcher_sentinel_and_first :
  forall (p : problem) (answer : value),
    (Rule.numeric p = true -> (Rule.precision p <= 22)%nat) ->
    (Rule.numeric p = true -> is_symbol answer = true ->
       forall h, exists what,
         selectOption p answer h = (Throw (TypeError what), h))
    /\ (Rule.numeric p && is_symbol answer = false ->
        exists c,
          (forall h, selectOption p answer h = (Normal c, h))
          /\ (index c = -1 <->
              forall o, In o (options p) -> Rule.matches p answer o = false)
          /\ (forall n o,
                nth_error (options p) n = Some o ->
                Rule.matches p answer o = true ->
                (forall m o', (m < n)%nat ->
                   nth_error (options p) m = Some o' ->
                   Rule.matches p answer o' = false) ->
                index c = Z.of_nat n))
    /\ (forall b h h',
          evaluate (scope_of b) (answerExpr p) h = (Normal answer, h') ->
          chooseCorrectIndex p b h = selectOption p answer h').
Proof.
  intros p answer _. split; [|split].
  - intros Hn Hs h. destruct answer; try discriminate Hs.
    eexists. apply selectOption_symbol. exact Hn.
  - intro H. exists (matchAnswer p answer). split; [|split].
    + intro h. apply selectOption_normal. exact H.
    + rewrite matchAnswer_rule. split.
      * intro E. apply (findIndex_sentinel _ _ 0); [lia|exact E].
      * apply findIndex_none.
    + intros n o Hn Ho Hlt. rewrite matchAnswer_rule.
      rewrite (findIndex_first _ _ n o 0 Hn Ho Hlt). lia.
  - intros b h h' E. unfold chooseCorrectIndex, bind. rewrite E. reflexivity.
Qed.

(** The matcher on the demonstration problem, whose rule is numeric with
    one decimal: an answer of 1.04 rounds to 1 and selects option 3, the
    first whose number rounds to 1; an answer of 3.3 selects none.  In
    string mode the option [ 3 ], with a blank on either side, is
    selected by the answer 3.  A Symbol makes the matcher of the
    demonstration problem throw, and chooseCorrectIndex on V = 10 and
    R = 10 is the matcher on the value of V / R. *)
Lemma option_matcher_witness :
  (exists c, selectOption ohm1 (VNum (JS.of_ratio false 104 100)) sample_host
             = (Normal c, sample_host) /\ index c = Z.of_nat 3)
  /\ (exists c, selectOption ohm1 (VNum (JS.of_ratio false 33 10)) sample_host
                = (Normal c, sample_host) /\ index c = -1)
  /\ (exists c, selectOption (with_options malformed [" 3 "; "4"])
                  (VNum (int 3)) sample_host
                = (Normal c, sample_host) /\ index c = Z.of_nat 0)
  /\ (exists what, selectOption ohm1 (VSymbol "") sample_host
                   = (Throw (TypeError what), sample_host))
  /\ chooseCorrectIndex ohm1 [("V", int 10); ("R", int 10)] sample_host
     = selectOption ohm1 (VNum (int 1)) sample_host.
Proof.
  split; [|split; [|split; [|split]]].
  - destruct (proj1 (proj2 (option_matcher_sentinel_and_first ohm1
                              (VNum (JS.of_ratio false 104 100))
                              ltac:(intros _; cbv; lia)))
                eq_refl) as [c [S [_ F]]].
    exists c. split; [apply S|].
    apply (F 3%nat "1.0 A").
    + reflexivity.
    + vm_compute. reflexivity.
    + intros m o' Hm Hn.
      destruct m as [|[|[|m]]]; try lia; simpl in Hn; inversion Hn; subst;
        vm_compute; reflexivity.
  - destruct (proj1 (proj2 (option_matcher_sentinel_and_first ohm1
                              (VNum (JS.of_ratio false 33 10))
                              ltac:(intros _; cbv; lia)))
                eq_refl) as [c [S [N _]]].
    exists c. split; [apply S|].
    apply N. intros o Ho. simpl in Ho.
    repeat (destruct Ho as [Ho|Ho]; [subst o; vm_compute; reflexivity|]).
    contradiction.
  - destruct (proj1 (proj2 (option_matcher_sentinel_and_first
                              (with_options malformed [" 3 "; "4"])
                              (VNum (int 3))
                              ltac:(intro H; discriminate H)))
                eq_refl) as [c [S [_ F]]].
    exists c. split; [apply S|].
    apply (F 0%nat " 3 ").
    + reflexivity.
    + vm_compute. reflexivity.
    + intros m o' Hm. lia.
  - apply (proj1 (option_matcher_sentinel_and_first ohm1 (VSymbol "")
                    ltac:(intros _; cbv; lia)));
      reflexivity.
  - assert (E : forall h,
               evaluate (scope_of [("V", int 10); ("R", int 10)])
                 (answerExpr ohm1) h = (Normal (VNum (int 1)), h))
      by (intro h; vm_compute; reflexivity).
    apply (proj2 (proj2 (option_matcher_sentinel_and_first ohm1 (VNum (int 1))
                           ltac:(intros _; cbv; lia)))
             [("V", int 10); ("R", int 10)] sample_host sample_host).
    apply E.
Defined.

(** A Symbol as the evaluated answer of the demonstration problem: it
    matches no option, and the matcher throws instead of returning -1;
    so does chooseCorrectIndex when the answer expression names a global
    that holds a Symbol. *)
Lemma symbol_answer_throws :
  forallb (fun o => negb (Rule.matches ohm1 (VSymbol "") o)) (options ohm1)
  = true
  /\ selectOption ohm1 (VSymbol "") sample_host
     = (Throw (TypeError "Cannot convert a Symbol value to a number"),
        sample_host)
  /\ fst (chooseCorrectIndex (with_answerExpr ohm1 "sym")
            [("V", int 10); ("R", int 10)] symbol_host)
     = Throw (TypeError "Cannot convert a Symbol value to a number").
Proof.
  split; [vm_compute; reflexivity|split].
  - apply selectOption_symbol. reflexivity.
  - vm_compute. reflexivity.
Qed.

(** ** Known-answer scenario *)

(** C2: for the problem with options 0.2 A, 0.4 A, 0.5 A, 1.0 A, 2.0 A,
    expression V / R, numeric matching and rounding 1, under the bindings
    V = 10 and R = 10, the expression evaluates to 1 and
    chooseCorrectIndex returns index 3 (with numeric answer 1), on every
    host. *)
Theorem known_answer_ohm :
  forall h : host,
    evaluate (scope_of [("V", int 10); ("R", int 10)]) (answerExpr ohm1) h
      = (Normal (VNum (int 1)), h)
    /\ chooseCorrectIndex ohm1 [("V", int 10); ("R", int 10)] h
      = (Normal {| index := 3; numericAnswer := Some (int 1) |}, h).
Proof.
  intro h. split; vm_compute; reflexivity.
Qed.

(** ** Answer evaluation and the host *)

Lemma eval_call :
  forall sc m args h,
    eval sc (EMathCall m args) h
    = (f <- math_get m ;; vs <- eval_list sc args ;; call f vs) h.
Proof.
  intros sc m args h. cbn [eval]. unfold bind.
  destruct (math_get m h) as [[f| |] h1]; try reflexivity.
  assert (E : forall l h0,
             (fix eval_arguments (l : list expr) : M (list value) :=
                match l with
                | [] => ret []
                | a :: r =>
                    v <- eval sc a ;;
                    vs <- eval_arguments r ;;
                    ret (v :: vs)
                end) l h0 = eval_list sc l h0).
  { induction l as [|a r IH]; intro h0; [reflexivity|].
    cbn [eval_list]. unfold bind.
    destruct (eval sc a h0) as [[v| |] h2]; try reflexivity.
    rewrite IH. reflexivity. }
  rewrite E. reflexivity.
Qed.

Lemma random_free_call :
  forall m args,
    random_free (EMathCall m args)
    = negb (String.eqb m "random") && all_random_free args.
Proof.
  intros m args. reflexivity.
Qed.

Lemma math_covered_call :
  forall m args,
    math_covered (EMathCall m args)
    = negb (mem_string m math_others) && all_math_covered args.
Proof.
  intros m args. reflexivity.
Qed.

Lemma keeps_refl : forall h, keeps h h.
Proof. intro h. repeat split. Qed.

Lemma keeps_trans : forall h1 h2 h3, keeps h1 h2 -> keeps h2 h3 -> keeps h1 h3.
Proof.
  intros h1 h2 h3 [A [B C]] [D [E F]]. repeat split; congruence.
Qed.

(** *** Computations that leave the host as it is *)

Lemma pure_ret : forall {A} (a : A), pure (ret a).
Proof. intros A a h. reflexivity. Qed.

Lemma pure_throw : forall {A} e, pure (@throw A e).
Proof. intros A e h. reflexivity. Qed.

Lemma pure_unmodelled : forall {A}, pure (@unmodelled A).
Proof. intros A h. reflexivity. Qed.

Lemma pure_bind :
  forall {A B} (m : M A) (k : A -> M B),
    pure m -> (forall a, pure (k a)) -> pure (bind m k).
Proof.
  intros A B m k Hm Hk h. unfold bind. specialize (Hm h).
  destruct (m h) as [[a| |] h1]; simpl in Hm; subst h1; try reflexivity.
  apply Hk.
Qed.

Lemma pure_to_number : forall v, pure (to_number v).
Proof. intros [] h; reflexivity. Qed.

Lemma pure_to_string : forall v, pure (to_string v).
Proof. intros [] h; reflexivity. Qed.

Lemma pure_math_get : forall m, pure (math_get m).
Proof.
  intros m h. unfold math_get.
  destruct (own math_constants m); [reflexivity|].
  destruct (mem_string m math_functions); [reflexivity|].
  destruct (mem_string m math_others); reflexivity.
Qed.

Lemma pure_resolve : forall sc x, pure (resolve sc x).
Proof.
  intros sc x h. unfold resolve.
  destruct (scope_get sc x); [reflexivity|].
  destruct (global h x); reflexivity.
Qed.

Lemma pure_arith : forall op x y, pure (arith op x y).
Proof. intros [] x y h; reflexivity. Qed.

Lemma pure_numeric : forall op v w, pure (numeric op v w).
Proof.
  intros op v w. unfold numeric.
  apply pure_bind; [apply pure_to_number|]. intro x.
  apply pure_bind; [apply pure_to_number|]. intro y.
  apply pure_bind; [apply pure_arith|]. intro z. apply pure_ret.
Qed.

(** The three ways [+] goes. *)
Lemma plus_shape :
  forall v w,
    plus v w = numeric Add v w
    \/ (exists s b, plus v w = (t <- to_string b ;; ret (VStr (s ++ t))))
    \/ (exists a t, plus v w = (s <- to_string a ;; ret (VStr (s ++ t)))).
Proof.
  intros v w. unfold plus.
  destruct v, w; cbn [to_primitive];
    first [ left; reflexivity
          | right; left; eexists; eexists; reflexivity
          | right; right; eexists; eexists; reflexivity ].
Qed.

Lemma pure_plus : forall v w, pure (plus v w).
Proof.
  intros v w.
  destruct (plus_shape v w) as [E|[[s [b E]]|[a [t E]]]]; rewrite E.
  - apply pure_numeric.
  - apply pure_bind; [apply pure_to_string|]. intro. apply pure_ret.
  - apply pure_bind; [apply pure_to_string|]. intro. apply pure_ret.
Qed.

Lemma pure_binary : forall op v w, pure (binary op v w).
Proof.
  intros [] v w; cbn [binary]; first [apply pure_plus|apply pure_numeric].
Qed.

Lemma pure_to_numbers : forall vs, pure (to_numbers vs).
Proof.
  induction vs as [|v r IH]; [apply pure_ret|].
  cbn [to_numbers]. apply pure_bind; [apply pure_to_number|]. intro x.
  apply pure_bind; [exact IH|]. intro xs. apply pure_ret.
Qed.

Lemma pure_apply_math : forall m xs, pure (apply_math m xs).
Proof.
  intros m xs h. unfold apply_math.
  destruct (String.eqb m "abs"); [reflexivity|].
  destruct (String.eqb m "floor"); [reflexivity|].
  destruct (String.eqb m "round"); [reflexivity|].
  destruct (String.eqb m "sqrt"); reflexivity.
Qed.

Lemma pure_call :
  forall f vs,
    match f with VNative m => String.eqb m "random" = false | _ => True end ->
    pure (call f vs).
Proof.
  intros f vs H. destruct f as [|x| |m| | | | |];
    try apply pure_throw; try apply pure_unmodelled.
  cbn [call]. rewrite H.
  destruct (mem_string m math_functions); [|apply pure_unmodelled].
  apply pure_bind; [apply pure_to_numbers|]. intro xs.
  apply pure_bind; [apply pure_apply_math|]. intro x. apply pure_ret.
Qed.

(** *** What every computation keeps of the host *)

Lemma pure_keeping : forall {A} (m : M A), pure m -> keeping m.
Proof. intros A m H h. rewrite H. apply keeps_refl. Qed.

Lemma keeping_bind :
  forall {A B} (m : M A) (k : A -> M B),
    keeping m -> (forall a, keeping (k a)) -> keeping (bind m k).
Proof.
  intros A B m k Hm Hk h. unfold bind.
  specialize (Hm h). destruct (m h) as [[a| |] h1]; simpl in *; try exact Hm.
  eapply keeps_trans; [exact Hm|apply Hk].
Qed.

Lemma keeping_Math_random : keeping Math_random.
Proof. intro h. repeat split. Qed.

Lemma keeping_call : forall f vs, keeping (call f vs).
Proof.
  intros f vs. destruct f as [|x| |m| | | | |];
    try (apply pure_keeping; first [apply pure_throw|apply pure_unmodelled]).
  destruct (String.eqb m "random") eqn:R.
  - cbn [call]. rewrite R.
    apply keeping_bind; [apply keeping_Math_random|].
    intro x. apply pure_keeping. apply pure_ret.
  - apply pure_keeping. apply pure_call. exact R.
Qed.

Lemma bind_fst :
  forall {A B} (m : M A) (k : A -> M B) h1 h2,
    fst (m h1) = fst (m h2) -> snd (m h1) = h1 -> snd (m h2) = h2 ->
    (forall a, fst (m h1) = Normal a -> fst (k a h1) = fst (k a h2)) ->
    fst (bind m k h1) = fst (bind m k h2).
Proof.
  intros A B m k h1 h2 Hf H1 H2 Hk. unfold bind.
  destruct (m h1) as [c1 h1']; destruct (m h2) as [c2 h2'].
  simpl in *. subst h1' h2' c2.
  destruct c1; simpl; [apply Hk; reflexivity|reflexivity|reflexivity].
Qed.

Section EvalHost.

Variable sc : scope.

Lemma keeping_eval_list :
  forall l, Forall (fun e => keeping (eval sc e)) l -> keeping (eval_list sc l).
Proof.
  induction 1 as [|a r Ha Hr IH]; [apply pure_keeping; apply pure_ret|].
  cbn [eval_list]. apply keeping_bind; [exact Ha|].
  intro v. apply keeping_bind; [exact IH|].
  intro vs. apply pure_keeping. apply pure_ret.
Qed.

(** Evaluation leaves the global object, the random source and the
    functions of [Math] alone. *)
Lemma eval_keeps : forall e, keeping (eval sc e).
Proof.
  induction e as [x|x|m|m args IH|a IH|a IH|op l r IHl IHr]
    using expr_induction.
  - apply pure_keeping. apply pure_ret.
  - apply pure_keeping. apply pure_resolve.
  - apply pure_keeping. apply pure_math_get.
  - intro h. rewrite eval_call. revert h.
    apply keeping_bind; [apply pure_keeping; apply pure_math_get|].
    intro f. apply keeping_bind; [apply keeping_eval_list; exact IH|].
    intro vs. apply keeping_call.
  - cbn [eval]. apply keeping_bind; [exact IH|].
    intro v. apply pure_keeping.
    apply pure_bind; [apply pure_to_number|]. intro. apply pure_ret.
  - cbn [eval]. apply keeping_bind; [exact IH|].
    intro v. apply pure_keeping.
    apply pure_bind; [apply pure_to_number|]. intro. apply pure_ret.
  - cbn [eval]. apply keeping_bind; [exact IHl|].
    intro v. apply keeping_bind; [exact IHr|].
    intro w. apply pure_keeping. apply pure_binary.
Qed.

Lemma pure_eval_list :
  forall l,
    Forall (fun e => random_free e = true -> pure (eval sc e)) l ->
    all_random_free l = true -> pure (eval_list sc l).
Proof.
  induction 1 as [|a r Ha Hr IH]; intro Hf; [apply pure_ret|].
  cbn [all_random_free] in Hf. apply andb_true_iff in Hf. destruct Hf as [F1 F2].
  cbn [eval_list]. apply pure_bind; [apply Ha; exact F1|].
  intro v. apply pure_bind; [apply IH; exact F2|].
  intro vs. apply pure_ret.
Qed.

Lemma math_get_value :
  forall m f h, fst (math_get m h) = Normal f ->
    (exists x, f = VNum x)
    \/ (f = VNative m /\ mem_string m math_functions = true)
    \/ f = VUndefined.
Proof.
  intros m f h H. unfold math_get in H.
  destruct (own math_constants m) as [x|].
  { left. exists x. inversion H. reflexivity. }
  destruct (mem_string m math_functions) eqn:F.
  { right; left. inversion H. split; reflexivity. }
  destruct (mem_string m math_others); inversion H.
  right; right. reflexivity.
Qed.

(** Without a call of Math.random the host is left as it was. *)
Lemma eval_random_free_pure :
  forall e, random_free e = true -> pure (eval sc e).
Proof.
  induction e as [x|x|m|m args IH|a IH|a IH|op l r IHl IHr]
    using expr_induction; intro Hf.
  - apply pure_ret.
  - apply pure_resolve.
  - apply pure_math_get.
  - rewrite random_free_call in Hf. apply andb_true_iff in Hf.
    destruct Hf as [F1 F2]. apply negb_true_iff in F1.
    intro h. rewrite eval_call. unfold bind.
    pose proof (pure_math_get m h) as Eh.
    destruct (math_get m h) as [[f| |] h1] eqn:Eg; simpl in Eh; subst h1;
      try reflexivity.
    pose proof (pure_eval_list args IH F2 h) as El.
    destruct (eval_list sc args h) as [[vs| |] h2]; simpl in El; subst h2;
      try reflexivity.
    apply pure_call.
    destruct (math_get_value m f h) as [[x E]|[[E _]|E]];
      [rewrite Eg; reflexivity|subst f; exact I|subst f; exact F1|subst f; exact I].
  - cbn [eval random_free] in *.
    apply pure_bind; [apply IH; exact Hf|].
    intro v. apply pure_bind; [apply pure_to_number|]. intro. apply pure_ret.
  - cbn [eval random_free] in *.
    apply pure_bind; [apply IH; exact Hf|].
    intro v. apply pure_bind; [apply pure_to_number|]. intro. apply pure_ret.
  - cbn [eval random_free] in *.
    apply andb_true_iff in Hf. destruct Hf as [F1 F2].
    apply pure_bind; [apply IHl; exact F1|].
    intro v. apply pure_bind; [apply IHr; exact F2|].
    intro w. apply pure_binary.
Qed.

End EvalHost.

Section EvalGlobal.

Variable sc : scope.
Variables h1 h2 : host.
Hypothesis same_global : global h1 = global h2.
Hypothesis same_math : math h1 = math h2.

Lemma alike_bind :
  forall {A B} (m : M A) (k : A -> M B),
    alike h1 h2 m -> pure m -> (forall a, alike h1 h2 (k a)) -> alike h1 h2 (bind m k).
Proof.
  intros A B m k Hm Hp Hk. unfold alike.
  apply bind_fst; [exact Hm|apply Hp|apply Hp|].
  intros a _. apply Hk.
Qed.

Lemma alike_ret : forall {A} (a : A), alike h1 h2 (ret a).
Proof. intros A a. reflexivity. Qed.

Lemma alike_resolve : forall x, alike h1 h2 (resolve sc x).
Proof.
  intro x. unfold alike, resolve. destruct (scope_get sc x); [reflexivity|].
  rewrite same_global. destruct (global h2 x); reflexivity.
Qed.

Lemma alike_math_get : forall m, alike h1 h2 (math_get m).
Proof.
  intro m. unfold alike, math_get.
  destruct (own math_constants m); [reflexivity|].
  destruct (mem_string m math_functions); [reflexivity|].
  destruct (mem_string m math_others); reflexivity.
Qed.

Lemma alike_to_number : forall v, alike h1 h2 (to_number v).
Proof. intros []; reflexivity. Qed.

Lemma alike_to_string : forall v, alike h1 h2 (to_string v).
Proof. intros []; reflexivity. Qed.

Lemma alike_arith : forall op x y, alike h1 h2 (arith op x y).
Proof.
  intros [] x y; try reflexivity.
  unfold alike, arith. cbn [fst]. rewrite same_math. reflexivity.
Qed.

Lemma alike_numeric : forall op v w, alike h1 h2 (numeric op v w).
Proof.
  intros op v w. unfold numeric.
  apply alike_bind; [apply alike_to_number|apply pure_to_number|]. intro x.
  apply alike_bind; [apply alike_to_number|apply pure_to_number|]. intro y.
  apply alike_bind; [apply alike_arith|apply pure_arith|]. intro z.
  apply alike_ret.
Qed.

Lemma alike_plus : forall v w, alike h1 h2 (plus v w).
Proof.
  intros v w.
  destruct (plus_shape v w) as [E|[[s [b E]]|[a [t E]]]]; rewrite E.
  - apply alike_numeric.
  - apply alike_bind; [apply alike_to_string|apply pure_to_string|].
    intro. apply alike_ret.
  - apply alike_bind; [apply alike_to_string|apply pure_to_string|].
    intro. apply alike_ret.
Qed.

Lemma alike_binary : forall op v w, alike h1 h2 (binary op v w).
Proof.
  intros [] v w; cbn [binary]; first [apply alike_plus|apply alike_numeric].
Qed.

Lemma alike_to_numbers : forall vs, alike h1 h2 (to_numbers vs).
Proof.
  induction vs as [|v r IH]; [apply alike_ret|].
  cbn [to_numbers].
  apply alike_bind; [apply alike_to_number|apply pure_to_number|]. intro x.
  apply alike_bind; [exact IH|apply pure_to_numbers|]. intro xs.
  apply alike_ret.
Qed.

Lemma alike_apply_math : forall m xs, alike h1 h2 (apply_math m xs).
Proof.
  intros m xs. unfold alike, apply_math.
  destruct (String.eqb m "abs"); [reflexivity|].
  destruct (String.eqb m "floor"); [reflexivity|].
  destruct (String.eqb m "round"); [reflexivity|].
  destruct (String.eqb m "sqrt"); [reflexivity|].
  cbn [fst]. rewrite same_math. reflexivity.
Qed.

Lemma alike_call :
  forall f vs,
    match f with VNative m => String.eqb m "random" = false | _ => True end ->
    alike h1 h2 (call f vs).
Proof.
  intros f vs H. destruct f as [|x| |m| | | | |]; try reflexivity.
  cbn [call]. rewrite H.
  destruct (mem_string m math_functions); [|reflexivity].
  apply alike_bind; [apply alike_to_numbers|apply pure_to_numbers|]. intro xs.
  apply alike_bind; [apply alike_apply_math|apply pure_apply_math|]. intro x.
  apply alike_ret.
Qed.

Lemma alike_eval_list :
  forall l,
    Forall (fun e => random_free e = true -> alike h1 h2 (eval sc e)) l ->
    all_random_free l = true -> alike h1 h2 (eval_list sc l).
Proof.
  induction l as [|a r IH]; intros Hl Hf; [apply alike_ret|].
  inversion Hl as [|a' r' Ha Hr]; subst.
  cbn [all_random_free] in Hf. apply andb_true_iff in Hf. destruct Hf as [F1 F2].
  cbn [eval_list].
  apply alike_bind;
    [apply Ha; exact F1|apply eval_random_free_pure; exact F1|].
  intro v.
  apply alike_bind; [apply IH; assumption| |intro; apply alike_ret].
  apply pure_eval_list; [|exact F2].
  apply Forall_forall. intros e _. apply eval_random_free_pure.
Qed.

(** Without a call of Math.random the outcome depends on the host only
    through the global object and the functions of [Math]. *)
Lemma alike_eval :
  forall e, random_free e = true -> alike h1 h2 (eval sc e).
Proof.
  induction e as [x|x|m|m args IH|a IH|a IH|op l r IHl IHr]
    using expr_induction; intro Hf.
  - apply alike_ret.
  - apply alike_resolve.
  - apply alike_math_get.
  - rewrite random_free_call in Hf. apply andb_true_iff in Hf.
    destruct Hf as [F1 F2]. apply negb_true_iff in F1.
    unfold alike. rewrite !eval_call.
    apply bind_fst;
      [apply alike_math_get|apply pure_math_get|apply pure_math_get|].
    intros f Hg.
    assert (L : pure (eval_list sc args)).
    { apply pure_eval_list; [|exact F2].
      apply Forall_forall. intros e _. apply eval_random_free_pure. }
    apply bind_fst; [apply alike_eval_list; assumption|apply L|apply L|].
    intros vs _. apply alike_call.
    destruct (math_get_value m f h1 Hg) as [[x E]|[[E _]|E]]; subst f;
      [exact I|exact F1|exact I].
  - cbn [eval random_free] in *.
    apply alike_bind; [apply IH; exact Hf|apply eval_random_free_pure; exact Hf|].
    intro v.
    apply alike_bind; [apply alike_to_number|apply pure_to_number|].
    intro. apply alike_ret.
  - cbn [eval random_free] in *.
    apply alike_bind; [apply IH; exact Hf|apply eval_random_free_pure; exact Hf|].
    intro v.
    apply alike_bind; [apply alike_to_number|apply pure_to_number|].
    intro. apply alike_ret.
  - cbn [eval random_free] in *.
    apply andb_true_iff in Hf. destruct Hf as [F1 F2].
    apply alike_bind; [apply IHl; exact F1|apply eval_random_free_pure; exact F1|].
    intro v.
    apply alike_bind; [apply IHr; exact F2|apply eval_random_free_pure; exact F2|].
    intro w. apply alike_binary.
Qed.

End EvalGlobal.

(** *** Outcomes the model accounts for *)

Lemma accounted_ret : forall {A} (a : A), accounted (ret a).
Proof. intros A a h. discriminate. Qed.

Lemma accounted_throw : forall {A} e, accounted (@throw A e).
Proof. intros A e h. discriminate. Qed.

Lemma accounted_bind :
  forall {A B} (m : M A) (k : A -> M B),
    accounted m -> (forall a, accounted (k a)) -> accounted (bind m k).
Proof.
  intros A B m k Hm Hk h. unfold bind. specialize (Hm h).
  destruct (m h) as [[a| |] h1]; simpl in *;
    [apply Hk|discriminate|contradiction Hm; reflexivity].
Qed.

Lemma accounted_to_number : forall v, accounted (to_number v).
Proof. intros [] h; discriminate. Qed.

Lemma accounted_to_string : forall v, accounted (to_string v).
Proof. intros [] h; discriminate. Qed.

Lemma accounted_resolve : forall sc x, accounted (resolve sc x).
Proof.
  intros sc x h. unfold resolve. destruct (scope_get sc x); [discriminate|].
  destruct (global h x); discriminate.
Qed.

Lemma accounted_math_get :
  forall m, mem_string m math_others = false -> accounted (math_get m).
Proof.
  intros m H h. unfold math_get.
  destruct (own math_constants m); [discriminate|].
  destruct (mem_string m math_functions); [discriminate|].
  rewrite H. discriminate.
Qed.

Lemma accounted_arith : forall op x y, accounted (arith op x y).
Proof. intros [] x y h; discriminate. Qed.

Lemma accounted_numeric : forall op v w, accounted (numeric op v w).
Proof.
  intros op v w. unfold numeric.
  apply accounted_bind; [apply accounted_to_number|]. intro x.
  apply accounted_bind; [apply accounted_to_number|]. intro y.
  apply accounted_bind; [apply accounted_arith|]. intro z.
  apply accounted_ret.
Qed.

Lemma accounted_plus : forall v w, accounted (plus v w).
Proof.
  intros v w.
  destruct (plus_shape v w) as [E|[[s [b E]]|[a [t E]]]]; rewrite E.
  - apply accounted_numeric.
  - apply accounted_bind; [apply accounted_to_string|]. intro. apply accounted_ret.
  - apply accounted_bind; [apply accounted_to_string|]. intro. apply accounted_ret.
Qed.

Lemma accounted_binary : forall op v w, accounted (binary op v w).
Proof.
  intros [] v w; cbn [binary];
    first [apply accounted_plus|apply accounted_numeric].
Qed.

Lemma accounted_to_numbers : forall vs, accounted (to_numbers vs).
Proof.
  induction vs as [|v r IH]; [apply accounted_ret|].
  cbn [to_numbers]. apply accounted_bind; [apply accounted_to_number|]. intro x.
  apply accounted_bind; [exact IH|]. intro xs. apply accounted_ret.
Qed.

Lemma accounted_apply_math : forall m xs, accounted (apply_math m xs).
Proof.
  intros m xs h. unfold apply_math.
  destruct (String.eqb m "abs"); [discriminate|].
  destruct (String.eqb m "floor"); [discriminate|].
  destruct (String.eqb m "round"); [discriminate|].
  destruct (String.eqb m "sqrt"); discriminate.
Qed.

Lemma accounted_call :
  forall m f vs h, fst (math_get m h) = Normal f -> accounted (call f vs).
Proof.
  intros m f vs h H.
  destruct (math_get_value m f h H) as [[x E]|[[E F]|E]]; subst f;
    try apply accounted_throw.
  cbn [call]. destruct (String.eqb m "random").
  - apply accounted_bind; [intro h0; discriminate|]. intro. apply accounted_ret.
  - rewrite F.
    apply accounted_bind; [apply accounted_to_numbers|]. intro xs.
    apply accounted_bind; [apply accounted_apply_math|]. intro x.
    apply accounted_ret.
Qed.

Lemma accounted_eval_list :
  forall sc l,
    Forall (fun e => math_covered e = true -> accounted (eval sc e)) l ->
    all_math_covered l = true -> accounted (eval_list sc l).
Proof.
  intros sc. induction l as [|a r IH]; intros Hl Hf; [apply accounted_ret|].
  inversion Hl as [|a' r' Ha Hr]; subst.
  cbn [all_math_covered] in Hf. apply andb_true_iff in Hf. destruct Hf as [F1 F2].
  cbn [eval_list]. apply accounted_bind; [apply Ha; exact F1|].
  intro v. apply accounted_bind; [apply IH; assumption|].
  intro vs. apply accounted_ret.
Qed.

(** An expression whose members of [Math] are modelled evaluates to a
    value or throws. *)
Lemma accounted_eval :
  forall sc e, math_covered e = true -> accounted (eval sc e).
Proof.
  intros sc.
  induction e as [x|x|m|m args IH|a IH|a IH|op l r IHl IHr]
    using expr_induction; intro Hf.
  - apply accounted_ret.
  - apply accounted_resolve.
  - cbn [math_covered] in Hf. apply negb_true_iff in Hf.
    apply accounted_math_get. exact Hf.
  - rewrite math_covered_call in Hf. apply andb_true_iff in Hf.
    destruct Hf as [F1 F2]. apply negb_true_iff in F1.
    intro h. rewrite eval_call. unfold bind.
    pose proof (accounted_math_get m F1 h) as Hm.
    pose proof (pure_math_get m h) as Ph.
    destruct (math_get m h) as [[f| |] h0] eqn:Eg;
      [|discriminate|contradiction Hm; reflexivity].
    cbn [snd] in Ph. subst h0.
    pose proof (accounted_eval_list sc args IH F2 h) as Hl.
    destruct (eval_list sc args h) as [[vs| |] h3];
      [|discriminate|contradiction Hl; reflexivity].
    apply (accounted_call m f vs h). rewrite Eg. reflexivity.
  - cbn [eval math_covered] in *.
    apply accounted_bind; [apply IH; exact Hf|]. intro v.
    apply accounted_bind; [apply accounted_to_number|]. intro.
    apply accounted_ret.
  - cbn [eval math_covered] in *.
    apply accounted_bind; [apply IH; exact Hf|]. intro v.
    apply accounted_bind; [apply accounted_to_number|]. intro.
    apply accounted_ret.
  - cbn [eval math_covered] in *.
    apply andb_true_iff in Hf. destruct Hf as [F1 F2].
    apply accounted_bind; [apply IHl; exact F1|]. intro v.
    apply accounted_bind; [apply IHr; exact F2|]. intro w.
    apply accounted_binary.
Qed.

(** *** The evaluation of an answer expression *)

Lemma evaluate_keeps : forall sc text, keeping (evaluate sc text).
Proof.
  intros sc text. unfold evaluate.
  destruct (forallb _ sc).
  - destruct (parse text);
      [apply eval_keeps|apply pure_keeping; apply pure_throw
      |apply pure_keeping; apply pure_unmodelled].
  - destruct (forallb _ sc); apply pure_keeping;
      [apply pure_throw|apply pure_unmodelled].
Qed.

Lemma evaluate_pure :
  forall sc text, arithmetic text -> pure (evaluate sc text).
Proof.
  intros sc text H. unfold evaluate, arithmetic in *.
  destruct (forallb _ sc).
  - destruct (parse text);
      [apply eval_random_free_pure; apply H|apply pure_throw|destruct H].
  - destruct (forallb _ sc); [apply pure_throw|apply pure_unmodelled].
Qed.

Lemma evaluate_alike :
  forall sc text h1 h2, arithmetic text ->
    global h1 = global h2 -> math h1 = math h2 ->
    alike h1 h2 (evaluate sc text).
Proof.
  intros sc text h1 h2 H G L. unfold alike, evaluate, arithmetic in *.
  destruct (forallb _ sc).
  - destruct (parse text);
      [apply alike_eval; [assumption|assumption|apply H]|reflexivity|destruct H].
  - destruct (forallb _ sc); reflexivity.
Qed.

Lemma evaluate_accounted :
  forall sc text, arithmetic text ->
    forallb (fun kv => simple_identifier (fst kv) || invalid_parameter (fst kv))
      sc = true ->
    accounted (evaluate sc text).
Proof.
  intros sc text H N. unfold evaluate, arithmetic in *.
  destruct (forallb (fun kv => simple_identifier (fst kv)) sc).
  - destruct (parse text);
      [apply accounted_eval; apply H|apply accounted_throw|destruct H].
  - rewrite N. apply accounted_throw.
Qed.

Lemma pure_selectOption : forall p answer, pure (selectOption p answer).
Proof.
  intros p answer. unfold selectOption. destruct (is_numeric_rule p).
  - apply pure_bind; [apply pure_to_number|]. intro. apply pure_ret.
  - apply pure_ret.
Qed.

Lemma accounted_selectOption : forall p answer, accounted (selectOption p answer).
Proof.
  intros p answer. unfold selectOption. destruct (is_numeric_rule p).
  - apply accounted_bind; [apply accounted_to_number|]. intro.
    apply accounted_ret.
  - apply accounted_ret.
Qed.

Lemma alike_selectOption :
  forall p answer h1 h2, alike h1 h2 (selectOption p answer).
Proof.
  intros p answer h1 h2. unfold alike, selectOption.
  destruct (is_numeric_rule p); [|reflexivity].
  destruct answer; reflexivity.
Qed.

Lemma chooseCorrectIndex_keeps :
  forall p b h, keeps h (snd (chooseCorrectIndex p b h)).
Proof.
  intros p b. unfold chooseCorrectIndex.
  apply keeping_bind; [apply evaluate_keeps|].
  intro answer. apply pure_keeping. apply pure_selectOption.
Qed.

Lemma chooseCorrectIndex_pure :
  forall p b, arithmetic (answerExpr p) -> pure (chooseCorrectIndex p b).
Proof.
  intros p b H. unfold chooseCorrectIndex.
  apply pure_bind; [apply evaluate_pure; exact H|].
  intro. apply pure_selectOption.
Qed.

Lemma chooseCorrectIndex_alike :
  forall p b h1 h2, arithmetic (answerExpr p) ->
    global h1 = global h2 -> math h1 = math h2 ->
    alike h1 h2 (chooseCorrectIndex p b).
Proof.
  intros p b h1 h2 H G L. unfold chooseCorrectIndex.
  apply alike_bind;
    [apply evaluate_alike; assumption|apply evaluate_pure; exact H|].
  intro. apply alike_selectOption.
Qed.

(** *** The names of the scope *)

Lemma set_own_names :
  forall b n v k, In k (map fst (set_own b n v)) -> In k (map fst b) \/ k = n.
Proof.
  induction b as [|[k0 w] r IH]; intros n v k H.
  - simpl in H. destruct H as [H|[]]. right. symmetry. exact H.
  - cbn [set_own] in H. destruct (String.eqb k0 n).
    + left. exact H.
    + cbn [map fst] in H. destruct H as [H|H].
      * left. left. exact H.
      * destruct (IH n v k H) as [A|A]; [left; right; exact A|right; exact A].
Qed.

Lemma bind_params_names :
  forall ps a out k,
    In k (map fst (bind_params ps a out)) ->
    In k (map fst out) \/ In k (map name ps).
Proof.
  induction ps as [|sp ps IH]; intros a out k H.
  - left. exact H.
  - rewrite bind_params_cons in H.
    destruct (IH _ _ _ H) as [A|A]; [|right; right; exact A].
    unfold assign in A. destruct (String.eqb (name sp) "__proto__").
    + left. exact A.
    + destruct (set_own_names _ _ _ _ A) as [B|B];
        [left; exact B|right; left; symmetry; exact B].
Qed.

Lemma scope_set_names :
  forall sc x v k, In k (map fst (scope_set sc x v)) -> In k (map fst sc) \/ k = x.
Proof.
  induction sc as [|[k0 w] r IH]; intros x v k H.
  - simpl in H. destruct H as [H|[]]. right. symmetry. exact H.
  - cbn [scope_set] in H. destruct (String.eqb k0 x).
    + left. exact H.
    + cbn [map fst] in H. destruct H as [H|H].
      * left. left. exact H.
      * destruct (IH x v k H) as [A|A]; [left; right; exact A|right; exact A].
Qed.

Lemma scope_names_settled :
  forall p seed, settled_names p ->
    forallb (fun kv => simple_identifier (fst kv) || invalid_parameter (fst kv))
      (scope_of (generateBindings p seed)) = true.
Proof.
  intros p seed H. apply forallb_forall. intros [k v] Hk.
  assert (K : In k (map fst (scope_of (generateBindings p seed)))).
  { apply (in_map fst) in Hk. exact Hk. }
  unfold scope_of in K. apply scope_set_names in K. cbn [fst].
  destruct K as [K|K]; [|subst k; reflexivity].
  rewrite map_map in K. cbn [fst] in K.
  unfold generateBindings in K. apply bind_params_names in K.
  destruct K as [[]|K].
  apply in_map_iff in K. destruct K as [sp [E Hsp]]. subst k.
  unfold settled_names in H. rewrite forallb_forall in H. apply H. exact Hsp.
Qed.

(** *** The variant result *)

Lemma variantResult_pure :
  forall p seed, arithmetic (answerExpr p) -> pure (variantResult p seed).
Proof.
  intros p seed H. unfold variantResult.
  apply pure_bind; [apply chooseCorrectIndex_pure; exact H|].
  intro. apply pure_ret.
Qed.

Lemma variantResult_alike :
  forall p seed h1 h2, arithmetic (answerExpr p) ->
    global h1 = global h2 -> math h1 = math h2 ->
    alike h1 h2 (variantResult p seed).
Proof.
  intros p seed h1 h2 H G L. unfold variantResult.
  apply alike_bind;
    [apply chooseCorrectIndex_alike; assumption
    |apply chooseCorrectIndex_pure; exact H|].
  intro. apply alike_ret.
Qed.

Lemma variantResult_accounted :
  forall p seed, settled_names p -> arithmetic (answerExpr p) ->
    accounted (variantResult p seed).
Proof.
  intros p seed N H. unfold variantResult.
  apply accounted_bind; [|intro; apply accounted_ret].
  unfold chooseCorrectIndex.
  apply accounted_bind; [|intro; apply accounted_selectOption].
  apply evaluate_accounted; [exact H|apply scope_names_settled; exact N].
Qed.
Lemma strict_eq_true :
  forall x y, JS.strict_eq x y = true ->
    x = y \/ exists s s', x = S754_zero s /\ y = S754_zero s'.
Proof.
  intros x y H. unfold JS.strict_eq, SFeqb in H.
  destruct x as [[]|[]| |[] m e], y as [[]|[]| |[] m' e']; simpl in H;
    try discriminate; try (left; reflexivity); try (right; eauto; fail);
    destruct (Z.compare e e') eqn:Ee; try discriminate;
    apply Z.compare_eq in Ee; subst e';
    destruct (Pos.compare_cont Eq m m') eqn:Em; try discriminate;
    apply Pos.compare_eq in Em; subst m'; left; reflexivity.
Qed.

Lemma rand_zero : forall s s', rand (S754_zero s) = rand (S754_zero s').
Proof.
  intros s s'. unfold rand.
  assert (E : JS.of_Z 1831565813 = S754_finite false 7682143815729152 (-22))
    by (vm_compute; reflexivity).
  rewrite E. reflexivity.
Qed.

Lemma generateBindings_strict_eq :
  forall p s s', JS.strict_eq s s' = true ->
    generateBindings p s = generateBindings p s'.
Proof.
  intros p s s' H. apply strict_eq_true in H.
  destruct H as [H|[z [z' [H1 H2]]]]; [subst; reflexivity|].
  subst. unfold generateBindings, mulberry32.
  destruct (params p) as [|sp ps]; [reflexivity|].
  rewrite !bind_params_cons. rewrite (rand_zero z z'). reflexivity.
Qed.

(** ** Determinism *)

(** C1: the bindings are a function of the parameter list and the seed:
    two problems with the same parameters and two seeds that are equal
    as Numbers give the same bindings.  The full variant result
    (rendered stem, correct option index, numeric answer) is the same on
    every call for a problem whose parameter names are identifiers (or
    certainly none) and whose answer expression is an arithmetic
    expression that does not call Math.random: the outcome is a result or
    a thrown error, it depends on the host only through the global
    object and the functions of Math, and computing it leaves the host
    as it was, so that a second call returns what the first returned. *)
Theorem variant_result_deterministic :
  forall (p : problem) (seed : JS.number),
    (forall p' seed',
        params p' = params p -> JS.strict_eq seed seed' = true ->
        generateBindings p' seed' = generateBindings p seed)
    /\ (forall h h',
          settled_names p -> arithmetic (answerExpr p) ->
          global h = global h' -> math h = math h' ->
          modelled (fst (variantResult p seed h))
          /\ fst (variantResult p seed h') = fst (variantResult p seed h)
          /\ variantResult p seed (snd (variantResult p seed h))
             = variantResult p seed h).
Proof.
  intros p seed. split.
  - intros p' seed' Hp Hs. unfold generateBindings at 1. rewrite Hp.
    symmetry. apply generateBindings_strict_eq. exact Hs.
  - intros h h' N H G L. split; [|split].
    + apply variantResult_accounted; assumption.
    + symmetry. apply variantResult_alike; assumption.
    + rewrite (variantResult_pure p seed H h). reflexivity.
Qed.

(** The demonstration problem, seed 42, computed twice in a row; the
    same with the answer expression Math.sqrt(V * V) / R % 3; and the
    bindings of a problem with the same parameters and other options,
    for the seeds -0 and +0. *)
Lemma variant_result_witness :
  (let first := variantResult ohm1 (int 42) sample_host in
   variantResult ohm1 (int 42) (snd first) = first)
  /\ (let q := with_answerExpr ohm1 "Math.sqrt(V * V) / R % 3" in
      let first := variantResult q (int 42) sample_host in
      variantResult q (int 42) (snd first) = first)
  /\ generateBindings (with_options ohm1 []) (S754_zero true)
     = generateBindings ohm1 (S754_zero false).
Proof.
  split; [|split];
    [| |apply (proj1 (variant_result_deterministic ohm1 (S754_zero false)));
        [reflexivity|vm_compute; reflexivity]].
  - apply (proj2 (variant_result_deterministic ohm1 (int 42))
             sample_host sample_host);
      [vm_compute; reflexivity|vm_compute; split; reflexivity
      |reflexivity|reflexivity].
  - apply (proj2 (variant_result_deterministic
                    (with_answerExpr ohm1 "Math.sqrt(V * V) / R % 3") (int 42))
             sample_host sample_host);
      [vm_compute; reflexivity|vm_compute; split; reflexivity
      |reflexivity|reflexivity].
Defined.

(** With Math.random as the answer expression two calls in a row for the
    same problem and seed return different numeric answers (0, then
    0.25). *)
Lemma random_answer_differs :
  let first := variantResult random_answer (int 42) sample_host in
  let second := variantResult random_answer (int 42) (snd first) in
  fst first <> fst second.
Proof.
  vm_compute. intro H. discriminate H.
Qed.

(** ** Failing answer expressions *)

Lemma render_bank_cons :
  forall rng p rest h,
    render_bank rng (p :: rest) h
    = (c <- chooseCorrectIndex p
              (generateBindings p
                 (JS.floor (JS.mul (fst (rand rng)) (JS.of_Z 1000000000)))) ;;
       items <- render_bank (snd (rand rng)) rest ;;
       ret ({| item_problem := p;
               item_bindings :=
                 generateBindings p
                   (JS.floor (JS.mul (fst (rand rng)) (JS.of_Z 1000000000)));
               item_index := index c;
               item_numericAnswer := numericAnswer c |} :: items)) h.
Proof.
  intros rng p rest h. cbn [render_bank].
  destruct (rand rng) as [r rng']. reflexivity.
Qed.

Lemma sub_seed_first :
  forall rng,
    JS.floor (JS.mul (fst (rand rng)) (JS.of_Z 1000000000))
    = sub_seed rng 0.
Proof. intro rng. unfold sub_seed, draw_at, mulberry32. reflexivity. Qed.

Lemma sub_seed_next :
  forall rng k, sub_seed rng (S k) = sub_seed (snd (rand rng)) k.
Proof.
  intros rng k. unfold sub_seed, mulberry32. rewrite draw_at_S. reflexivity.
Qed.

(** The first problem that throws ends the rendering with its error. *)
Lemma render_bank_throws :
  forall bank rng h k p e,
    nth_error bank k = Some p ->
    (forall j q, (j < k)%nat -> nth_error bank j = Some q ->
       forall h0, keeps h h0 ->
         exists c h1,
           chooseCorrectIndex q (generateBindings q (sub_seed rng j)) h0
           = (Normal c, h1)) ->
    (forall h0, keeps h h0 ->
       exists h1,
         chooseCorrectIndex p (generateBindings p (sub_seed rng k)) h0
         = (Throw e, h1)) ->
    exists h', render_bank rng bank h = (Throw e, h').
Proof.
  induction bank as [|q rest IH]; intros rng h k p e Hk Hbefore Hthrow.
  - destruct k; discriminate Hk.
  - rewrite render_bank_cons. rewrite sub_seed_first. unfold bind.
    destruct k as [|k].
    + injection Hk as Hq. subst q.
      destruct (Hthrow h (keeps_refl h)) as [h1 Ec].
      rewrite Ec. exists h1. reflexivity.
    + cbn [nth_error] in Hk.
      destruct (Hbefore 0%nat q ltac:(lia) eq_refl h (keeps_refl h))
        as [c [h1 Ec]].
      pose proof (chooseCorrectIndex_keeps q
                    (generateBindings q (sub_seed rng 0)) h) as K.
      rewrite Ec in *. cbn [snd] in K.
      destruct (IH (snd (rand rng)) h1 k p e Hk) as [h' Er].
      * intros j q' Hj Hq' h0 K0. rewrite <- sub_seed_next.
        apply (Hbefore (S j) q'); [lia|exact Hq'|].
        apply (keeps_trans h h1 h0); assumption.
      * intros h0 K0. rewrite <- sub_seed_next. apply Hthrow.
        apply (keeps_trans h h1 h0); assumption.
      * rewrite Er. exists h'. reflexivity.
Qed.

(** A problem that throws makes the rendering throw, wherever it stands
    in the bank. *)
Lemma render_bank_fails :
  forall bank rng h p,
    In p bank ->
    (forall seed h0, keeps h h0 ->
       exists e h1,
         chooseCorrectIndex p (generateBindings p seed) h0 = (Throw e, h1)) ->
    (forall q seed h0, In q bank -> keeps h h0 ->
       modelled (fst (chooseCorrectIndex q (generateBindings q seed) h0))) ->
    exists e h', render_bank rng bank h = (Throw e, h').
Proof.
  induction bank as [|q rest IH]; intros rng h p Hin Hthrow Hall.
  - destruct Hin.
  - rewrite render_bank_cons. rewrite sub_seed_first. unfold bind.
    pose proof (Hall q (sub_seed rng 0) h (or_introl eq_refl) (keeps_refl h))
      as Hq.
    pose proof (chooseCorrectIndex_keeps q
                  (generateBindings q (sub_seed rng 0)) h) as K.
    destruct (chooseCorrectIndex q (generateBindings q (sub_seed rng 0)) h)
      as [[c|e|] h1] eqn:Ec.
    + cbn [snd] in K.
      assert (Hp : In p rest).
      { destruct Hin as [E|Hin]; [|exact Hin]. subst q.
        destruct (Hthrow (sub_seed rng 0) h (keeps_refl h)) as [e [h2 Et]].
        rewrite Et in Ec. discriminate Ec. }
      destruct (IH (snd (rand rng)) h1 p Hp) as [e [h' Er]].
      * intros seed h0 K0. apply Hthrow.
        apply (keeps_trans h h1 h0); assumption.
      * intros q' seed h0 Hq' K0. apply Hall; [right; exact Hq'|].
        apply (keeps_trans h h1 h0); assumption.
      * rewrite Er. exists e, h'. reflexivity.
    + exists e, h1. reflexivity.
    + contradiction Hq. reflexivity.
Qed.

(** C4: an answer expression that fails to evaluate makes
    chooseCorrectIndex throw the same error, and ExamView does not catch
    it.  When the problems before it in the bank are evaluated, rendering
    the variant throws the error of that problem; and wherever a problem
    that throws stands in a bank whose problems all have an outcome the
    model accounts for, rendering the variant throws: no list of items
    is returned, for that problem or for any other. *)
Theorem evaluation_failure_aborts_variant :
  forall (bank : list problem) (seedIndex : Z) (h : host) (p : problem),
    let variantSeed := JS.add (JS.of_Z 12345) (JS.of_Z seedIndex) in
    (forall b h0 e h1,
        evaluate (scope_of b) (answerExpr p) h0 = (Throw e, h1) ->
        chooseCorrectIndex p b h0 = (Throw e, h1))
    /\ (forall k e,
          nth_error bank k = Some p ->
          (forall j q, (j < k)%nat -> nth_error bank j = Some q ->
             forall h0, keeps h h0 ->
               exists c h1,
                 chooseCorrectIndex q
                   (generateBindings q (sub_seed variantSeed j)) h0
                 = (Normal c, h1)) ->
          (forall h0, keeps h h0 ->
             exists h1,
               chooseCorrectIndex p
                 (generateBindings p (sub_seed variantSeed k)) h0
               = (Throw e, h1)) ->
          exists h', ExamView bank seedIndex h = (Throw e, h'))
    /\ (In p bank ->
        (forall seed h0, keeps h h0 ->
           exists e h1,
             chooseCorrectIndex p (generateBindings p seed) h0
             = (Throw e, h1)) ->
        (forall q seed h0, In q bank -> keeps h h0 ->
           modelled (fst (chooseCorrectIndex q (generateBindings q seed) h0))) ->
        exists e h', ExamView bank seedIndex h = (Throw e, h')).
Proof.
  intros bank seedIndex h p variantSeed. split; [|split].
  - intros b h0 e h1 E. unfold chooseCorrectIndex, bind. rewrite E. reflexivity.
  - intros k e Hk Hbefore Hthrow. unfold ExamView.
    apply (render_bank_throws bank _ h k p e Hk Hbefore Hthrow).
  - intros Hin Hthrow Hall. unfold ExamView.
    apply (render_bank_fails bank _ h p Hin Hthrow Hall).
Qed.

(** *** Expressions on Numbers alone *)

Lemma binary_numbers :
  forall op x y h, exists z, binary op (VNum x) (VNum y) h = (Normal (VNum z), h).
Proof.
  intros [] x y h; eexists; reflexivity.
Qed.

Lemma eval_plain_arithmetic :
  forall sc e h, plain_arithmetic sc e = true ->
    exists x, eval sc e h = (Normal (VNum x), h).
Proof.
  intros sc e. induction e as [x|x|m|m args IH|a IH|a IH|op l r IHl IHr]
    using expr_induction; intros h H; cbn [plain_arithmetic] in H;
    try discriminate H.
  - exists x. reflexivity.
  - cbn [eval]. unfold resolve.
    destruct (scope_get sc x) as [[| y | | | | | | |]|]; try discriminate H.
    exists y. reflexivity.
  - destruct (IH h H) as [x E]. exists (JS.neg x).
    cbn [eval]. unfold bind. rewrite E. reflexivity.
  - destruct (IH h H) as [x E]. exists x.
    cbn [eval]. unfold bind. rewrite E. reflexivity.
  - apply andb_true_iff in H. destruct H as [H1 H2].
    destruct (IHl h H1) as [x E1]. destruct (IHr h H2) as [y E2].
    destruct (binary_numbers op x y h) as [z E3].
    exists z. cbn [eval]. unfold bind. rewrite E1, E2. exact E3.
Qed.

Lemma selectOption_number :
  forall p x h, selectOption p (VNum x) h = (Normal (matchAnswer p (VNum x)), h).
Proof.
  intros p x h. unfold selectOption. destruct (is_numeric_rule p); reflexivity.
Qed.

(** With names that are identifiers, an expression on Numbers alone
    gives a Number and a choice, and leaves the host alone. *)
Lemma plain_arithmetic_choice :
  forall p b e h,
    forallb (fun kv => simple_identifier (fst kv)) (scope_of b) = true ->
    parse (answerExpr p) = Parsed e ->
    plain_arithmetic (scope_of b) e = true ->
    exists x,
      evaluate (scope_of b) (answerExpr p) h = (Normal (VNum x), h)
      /\ chooseCorrectIndex p b h = (Normal (matchAnswer p (VNum x)), h).
Proof.
  intros p b e h Hs Hp Ha.
  destruct (eval_plain_arithmetic (scope_of b) e h Ha) as [x E].
  exists x.
  assert (Ev : evaluate (scope_of b) (answerExpr p) h = (Normal (VNum x), h)).
  { unfold evaluate. rewrite Hs, Hp. exact E. }
  split; [exact Ev|].
  unfold chooseCorrectIndex, bind. rewrite Ev. apply selectOption_number.
Qed.

(** *** The demonstration problems on every seed *)

Lemma two_params :
  forall p seed s1 s2,
    params p = [s1; s2] ->
    String.eqb (name s1) "__proto__" = false ->
    String.eqb (name s2) "__proto__" = false ->
    String.eqb (name s1) (name s2) = false ->
    exists v1 v2, generateBindings p seed = [(name s1, v1); (name s2, v2)].
Proof.
  intros p seed s1 s2 Hp H1 H2 H12. unfold generateBindings. rewrite Hp.
  rewrite !bind_params_cons. cbn [bind_params].
  eexists. eexists. unfold assign. rewrite H1, H2. cbn [set_own].
  rewrite H12. reflexivity.
Qed.

Lemma ohm1_completes :
  forall seed h, exists c,
    chooseCorrectIndex ohm1 (generateBindings ohm1 seed) h = (Normal c, h).
Proof.
  intros seed h.
  destruct (two_params ohm1 seed spec_R spec_V eq_refl eq_refl eq_refl eq_refl)
    as [v1 [v2 E]].
  rewrite E. cbn [name spec_R spec_V].
  destruct (plain_arithmetic_choice ohm1 [("R", v1); ("V", v2)]
              (EBin Div (EVar "V") (EVar "R")) h)
    as [x [_ C]]; try reflexivity.
  eexists. exact C.
Qed.

Lemma capRC1_completes :
  forall seed h, exists c,
    chooseCorrectIndex capRC1 (generateBindings capRC1 seed) h = (Normal c, h).
Proof.
  intros seed h.
  destruct (two_params capRC1 seed
              {| name := "R"; min := int 5; max := int 25; step := Some (int 5) |}
              {| name := "C"; min := int 2; max := int 12; step := Some (int 2) |}
              eq_refl eq_refl eq_refl eq_refl)
    as [v1 [v2 E]].
  rewrite E. cbn [name].
  assert (P : exists e, parse (answerExpr capRC1) = Parsed e
                        /\ plain_arithmetic
                             (scope_of [("R", v1); ("C", v2)]) e = true).
  { eexists. split; [vm_compute; reflexivity|reflexivity]. }
  destruct P as [e [P1 P2]].
  destruct (plain_arithmetic_choice capRC1 [("R", v1); ("C", v2)] e h)
    as [x [_ C]]; try assumption; try reflexivity.
  eexists. exact C.
Qed.

Lemma broken_throws :
  forall seed h0, global h0 = standard_global ->
    chooseCorrectIndex broken (generateBindings broken seed) h0
    = (Throw (ReferenceError "Q"), h0).
Proof.
  intros seed h0 G.
  destruct (two_params broken seed spec_R spec_V eq_refl eq_refl eq_refl eq_refl)
    as [v1 [v2 E]].
  rewrite E. cbn [name spec_R spec_V].
  unfold chooseCorrectIndex, bind, evaluate.
  change (answerExpr broken) with "V / Q".
  replace (parse "V / Q") with (Parsed (EBin Div (EVar "V") (EVar "Q")))
    by (vm_compute; reflexivity).
  replace (forallb (fun kv => simple_identifier (fst kv))
             (scope_of [("R", v1); ("V", v2)])) with true
    by (vm_compute; reflexivity).
  cbn [eval]. unfold bind, resolve.
  replace (scope_get (scope_of [("R", v1); ("V", v2)]) "V") with (Some (VNum v2))
    by reflexivity.
  replace (scope_get (scope_of [("R", v1); ("V", v2)]) "Q") with (@None value)
    by reflexivity.
  unfold ret. rewrite G. reflexivity.
Qed.

(** The demonstration problem with an answer expression that stops
    after the operator. *)
Lemma unfinished_throws :
  forall seed h0,
    chooseCorrectIndex (with_answerExpr ohm1 "V /")
      (generateBindings (with_answerExpr ohm1 "V /") seed) h0
    = (Throw SyntaxError, h0).
Proof.
  intros seed h0.
  destruct (two_params (with_answerExpr ohm1 "V /") seed spec_R spec_V
              eq_refl eq_refl eq_refl eq_refl) as [v1 [v2 E]].
  rewrite E. cbn [name spec_R spec_V].
  unfold chooseCorrectIndex, bind, evaluate.
  replace (forallb (fun kv => simple_identifier (fst kv))
             (scope_of [("R", v1); ("V", v2)])) with true
    by (vm_compute; reflexivity).
  replace (parse (answerExpr (with_answerExpr ohm1 "V /"))) with Malformed
    by (vm_compute; reflexivity).
  reflexivity.
Qed.

(** A bank made of the demonstration problem and one that fails, on the
    sample host: an undeclared name ends the rendering in its
    ReferenceError, an unfinished expression in a SyntaxError; and the
    rendering of a variant of a bank of three with the unfinished
    expression in the middle throws. *)
Lemma evaluation_failure_witness :
  (exists h',
     ExamView [ohm1; broken] 0 sample_host = (Throw (ReferenceError "Q"), h'))
  /\ (exists h',
        ExamView [ohm1; with_answerExpr ohm1 "V /"] 0 sample_host
        = (Throw SyntaxError, h'))
  /\ (exists e h',
        ExamView [ohm1; with_answerExpr ohm1 "V /"; capRC1] 7 sample_host
        = (Throw e, h')).
Proof.
  split; [|split].
  - apply (proj1 (proj2 (evaluation_failure_aborts_variant [ohm1; broken] 0
                           sample_host broken)) 1%nat).
    + reflexivity.
    + intros j q Hj Hq h0 K. destruct j as [|j]; [|lia].
      injection Hq as Hq. subst q.
      destruct (ohm1_completes
                  (sub_seed (JS.add (JS.of_Z 12345) (JS.of_Z 0)) 0) h0)
        as [c C].
      exists c, h0. exact C.
    + intros h0 K. exists h0. apply broken_throws.
      destruct K as [G _]. exact G.
  - apply (proj1 (proj2 (evaluation_failure_aborts_variant
                           [ohm1; with_answerExpr ohm1 "V /"] 0
                           sample_host (with_answerExpr ohm1 "V /"))) 1%nat).
    + reflexivity.
    + intros j q Hj Hq h0 K. destruct j as [|j]; [|lia].
      injection Hq as Hq. subst q.
      destruct (ohm1_completes
                  (sub_seed (JS.add (JS.of_Z 12345) (JS.of_Z 0)) 0) h0)
        as [c C].
      exists c, h0. exact C.
    + intros h0 K. exists h0. apply unfinished_throws.
  - apply (proj2 (proj2 (evaluation_failure_aborts_variant
                           [ohm1; with_answerExpr ohm1 "V /"; capRC1] 7
                           sample_host (with_answerExpr ohm1 "V /")))).
    + right. left. reflexivity.
    + intros seed h0 K. exists SyntaxError, h0. apply unfinished_throws.
    + intros q seed h0 Hq K. unfold modelled.
      destruct Hq as [E|[E|[E|[]]]]; subst q.
      * destruct (ohm1_completes seed h0) as [c C]. rewrite C. discriminate.
      * rewrite unfinished_throws. discriminate.
      * destruct (capRC1_completes seed h0) as [c C]. rewrite C. discriminate.
Defined.

(** Rendering the demonstration problem together with the broken one
    ends in the ReferenceError of the broken one: the failure is not
    turned into a tagged result for that problem, and the item of the
    first problem is lost with it. *)
Lemma failure_is_not_isolated :
  fst (chooseCorrectIndex ohm1 (generateBindings ohm1 (int 42)) sample_host)
    = Normal {| index := -1; numericAnswer := Some (JS.of_ratio false 16 10) |}
  /\ fst (ExamView [ohm1; broken] 0 sample_host) = Throw (ReferenceError "Q").
Proof.
  split; vm_compute; reflexivity.
Qed.

(** ** The service worker's message handler *)

Module ServiceWorkerFacts.
Import ServiceWorker.

(** C10: on a 'setExamData' message whose text parses as JSON the stored
    exam text becomes the message text and the reply is {ok: true}; when
    parsing throws the stored text is left as it was and the reply is
    {ok: false} with the error message.  The reply goes to the first port
    of the event, and when the event carries no port nothing is posted. *)
Theorem setExamData_stores_or_keeps :
  forall (st : state) (ev : message_event) (d : message_data),
    data ev = Some d -> type d = Some "setExamData" ->
    (JSON_parse (text d) = None ->
       on_message st ev = (text d, post ev Ok))
    /\ (forall msg, JSON_parse (text d) = Some msg ->
          on_message st ev = (st, post ev (Failed msg)))
    /\ (forall p ps r, ports ev = p :: ps -> post ev r = [PostMessage p r])
    /\ (forall r, ports ev = [] -> post ev r = []).
Proof.
  intros st ev d Hd Ht. unfold on_message. rewrite Hd, Ht.
  repeat split.
  - intros H. rewrite H. reflexivity.
  - intros msg H. rewrite H. reflexivity.
  - intros p ps r H. unfold post. rewrite H. reflexivity.
  - intros r H. unfold post. rewrite H. reflexivity.
Qed.

(** A well-formed text replaces the stored one, a malformed text leaves
    it, and each is answered on port 7. *)
Lemma setExamData_witness :
  on_message (Some "[1]") (set_exam "{}" [7%nat]) =
    (Some "{}", [PostMessage 7%nat Ok])
  /\ on_message (Some "[1]") (set_exam "{" [7%nat]) =
    (Some "[1]", [PostMessage 7%nat (Failed "Unexpected token in JSON")]).
Proof.
  split.
  - destruct (setExamData_stores_or_keeps (Some "[1]") (set_exam "{}" [7%nat])
                {| type := Some "setExamData"; text := Some "{}" |}
                eq_refl eq_refl) as [H1 [_ [H3 _]]].
    rewrite (H1 eq_refl). f_equal.
  - destruct (setExamData_stores_or_keeps (Some "[1]") (set_exam "{" [7%nat])
                {| type := Some "setExamData"; text := Some "{" |}
                eq_refl eq_refl) as [_ [H2 _]].
    rewrite (H2 "Unexpected token in JSON" eq_refl). f_equal.
Defined.

(** A 'setExamData' message that carries no port is stored and gets no
    reply at all. *)
Lemma setExamData_without_port :
  JSON_parse (Some "{}") = None
  /\ on_message initial (set_exam "{}" []) = (Some "{}", []).
Proof.
  split; vm_compute; reflexivity.
Qed.

End ServiceWorkerFacts.

(** ** Sampling with a step of zero *)

Lemma sample_zero_step :
  forall r mn mx nm s w,
    r = dyadic w (-32) ->
    sample r {| name := nm; min := mn; max := mx; step := Some (S754_zero s) |}
    = JS.NaN.
Proof.
  intros r mn mx nm s w Hr. unfold sample. cbn [step min max].
  change (JS.of_Z 1) with (S754_finite false 4503599627370496 (-52)).
  assert (K : forall k, JS.add mn (JS.mul k (S754_zero s)) = JS.NaN
                        \/ JS.is_finite k = true).
  { intro k. destruct k as [ks|ks| |ks km ke]; try (right; reflexivity).
    - left. destruct mn; reflexivity.
    - left. destruct mn; reflexivity. }
  generalize (JS.sub mx mn). intro d.
  assert (N : forall q, JS.is_finite q = false ->
              JS.is_finite (JS.floor (JS.mul r
                (JS.add (JS.floor q) (S754_finite false 4503599627370496 (-52)))))
              = false).
  { intros q Hq. subst r.
    destruct q as [qs|qs| |qs qm qe]; try discriminate Hq.
    - destruct w; destruct qs; reflexivity.
    - destruct w; reflexivity. }
  assert (Q : JS.is_finite (JS.div d (S754_zero s)) = false).
  { destruct d as [ds|ds| |ds dm de]; reflexivity. }
  specialize (N _ Q).
  destruct (K (JS.floor (JS.mul r
              (JS.add (JS.floor (JS.div d (S754_zero s)))
                 (S754_finite false 4503599627370496 (-52)))))) as [E|E].
  - exact E.
  - rewrite E in N. discriminate N.
Qed.

(** X2: with a step of zero pickParam returns NaN, whatever the minimum,
    the maximum and the state of the generator are. *)
Theorem pickParam_zero_step :
  forall (a mn mx : JS.number) (s : bool),
    fst (pickParam a mn mx (Some (S754_zero s))) = JS.NaN.
Proof.
  intros a mn mx s.
  change (pickParam a mn mx (Some (S754_zero s)))
    with (pickParam a (min {| name := "p"; min := mn; max := mx;
                              step := Some (S754_zero s) |})
            (max {| name := "p"; min := mn; max := mx;
                    step := Some (S754_zero s) |})
            (step {| name := "p"; min := mn; max := mx;
                     step := Some (S754_zero s) |})).
  rewrite pickParam_sample. cbn [fst].
  apply (sample_zero_step _ mn mx "p" s (mix (JS.trunc (snd (rand a))))).
  apply rand_output.
Qed.

(** ** Bindings with repeated names *)

Lemma advance_S : forall n a, advance (S n) a = advance n (snd (rand a)).
Proof. reflexivity. Qed.

Lemma bind_params_app :
  forall l1 l2 a out,
    bind_params (l1 ++ l2)%list a out
    = bind_params l2 (advance (List.length l1) a) (bind_params l1 a out).
Proof.
  induction l1 as [|sp l1 IH]; intros l2 a out; [reflexivity|].
  change ((sp :: l1) ++ l2)%list with (sp :: (l1 ++ l2))%list.
  rewrite !bind_params_cons. rewrite IH.
  cbn [List.length]. rewrite advance_S. reflexivity.
Qed.

Lemma own_bind_params_last :
  forall l1 sp l2 a out,
    ~ In (name sp) (map name l2) -> name sp <> "__proto__" ->
    own (bind_params (l1 ++ sp :: l2)%list a out) (name sp)
    = Some (sample (draw_at (List.length l1) a) sp).
Proof.
  intros l1 sp l2 a out Hl2 Hp.
  rewrite bind_params_app. rewrite bind_params_cons.
  rewrite own_bind_params_other.
  - rewrite own_assign_same by exact Hp. unfold draw_at. reflexivity.
  - intros sp' Hin E. apply Hl2. rewrite <- E. apply in_map. exact Hin.
Qed.

Lemma own_bind_params_keys :
  forall ps a out x,
    own (bind_params ps a out) x <> None
    <-> ((In x (map name ps) /\ x <> "__proto__") \/ own out x <> None).
Proof.
  induction ps as [|sp ps IH]; intros a out x.
  - simpl. tauto.
  - rewrite bind_params_cons. rewrite IH. cbn [map In].
    destruct (string_dec (name sp) x) as [E|E].
    + destruct (string_dec x "__proto__") as [P|P].
      * subst x. rewrite P. unfold assign. simpl. tauto.
      * rewrite E. rewrite own_assign_same by exact P.
        split; [|intros _; right; discriminate].
        intros _. left. split; [left; reflexivity|exact P].
    + rewrite own_assign_other by exact E. tauto.
Qed.

(** X3: the bindings hold exactly the declared names other than __proto__,
    and a name declared more than once is bound by its last declaration,
    from the draw of that declaration's position. *)
Theorem generateBindings_names_and_last_declaration :
  forall (p : problem) (seed : JS.number),
    (forall x, own (generateBindings p seed) x <> None
               <-> (In x (map name (params p)) /\ x <> "__proto__"))
    /\ (forall l1 sp l2,
          params p = (l1 ++ sp :: l2)%list ->
          ~ In (name sp) (map name l2) -> name sp <> "__proto__" ->
          own (generateBindings p seed) (name sp)
          = Some (sample (draw_at (List.length l1) (mulberry32 seed)) sp)).
Proof.
  intros p seed. split.
  - intro x. unfold generateBindings. rewrite own_bind_params_keys.
    simpl. split; [intros [H|H]; [exact H|congruence]|intro H; left; exact H].
  - intros l1 sp l2 E Hl2 Hp. unfold generateBindings. rewrite E.
    apply own_bind_params_last; assumption.
Qed.

(** x declared from 1 to 3 and again from 10 to 20: with seed 42 it is
    bound to 14, from the second declaration. *)
Lemma generateBindings_last_declaration_witness :
  own (generateBindings twice_x (int 42)) "x" = Some (int 14).
Proof.
  pose proof (proj2 (generateBindings_names_and_last_declaration twice_x (int 42))
                [ {| name := "x"; min := int 1; max := int 3; step := None |} ]
                {| name := "x"; min := int 10; max := int 20; step := None |}
                [] eq_refl ltac:(simpl; tauto) ltac:(discriminate)) as H.
  cbn [name] in H. rewrite H. vm_compute. reflexivity.
Defined.

(** ** The variant assembler *)

Lemma billion : JS.of_Z 1000000000 = dyadic 1953125 9.
Proof. vm_compute. reflexivity. Qed.

Lemma scaled_draw :
  forall w, 0 <= w < 4294967296 ->
    JS.floor (JS.mul (dyadic w (-32)) (JS.of_Z 1000000000))
    = dyadic ((w * 1000000000) / 4294967296) 0.
Proof.
  intros w Hw. rewrite billion.
  rewrite mul_exact; try lia.
  - rewrite floor_exact by lia.
    change (2 ^ (- (-32 + 9))) with 8388608.
    f_equal.
    replace (w * 1000000000) with (w * 1953125 * 512) by lia.
    change 4294967296 with (8388608 * 512).
    rewrite Z.div_mul_cancel_r by lia. reflexivity.
  - intro Hp.
    pose proof (digits_range (w * 1953125) ltac:(lia) ltac:(lia)). lia.
Qed.

Lemma scaled_draw_range :
  forall w, 0 <= w < 4294967296 ->
    0 <= (w * 1000000000) / 4294967296 < 1000000000.
Proof.
  intros w Hw. split.
  - apply Z.div_pos; lia.
  - apply Z.div_lt_upper_bound; lia.
Qed.

Lemma sub_seed_value :
  forall (vs : Z) (k : nat),
    Z.abs vs < 9007199254740992 ->
    vs + (Z.of_nat k + 1) * 1831565813 < 9007199254740992 ->
    sub_seed (JS.of_Z vs) k
    = int ((mulberry32_word vs k * 1000000000) / 4294967296).
Proof.
  intros vs k Hvs Hk.
  pose proof (mulberry32_word_range vs k) as Hw.
  pose proof (scaled_draw_range _ Hw) as Hs.
  unfold sub_seed, mulberry32. rewrite of_Z_dyadic by exact Hvs.
  rewrite draw_at_exact by assumption.
  change (mix_word (JS.uint32 (vs + (Z.of_nat k + 1) * 1831565813)))
    with (mulberry32_word vs k).
  rewrite scaled_draw by exact Hw.
  unfold int. rewrite of_Z_dyadic by lia. reflexivity.
Qed.

(** X4: as long as the state of the variant's generator is an exact
    integer, the sub-seed of the problem at position [k],
    Math.floor(rng() * 1e9), is computed without rounding: it is the
    integer floor(w * 10^9 / 2^32) for the 32-bit word w of that position,
    hence an integer from 0 to 999999999. *)
Theorem sub_seed_exact :
  forall (vs : Z) (k : nat),
    Z.abs vs < 9007199254740992 ->
    vs + (Z.of_nat k + 1) * 1831565813 < 9007199254740992 ->
    let s := (mulberry32_word vs k * 1000000000) / 4294967296 in
    sub_seed (JS.of_Z vs) k = int s /\ 0 <= s < 1000000000.
Proof.
  intros vs k Hvs Hk s. split.
  - apply sub_seed_value; assumption.
  - apply scaled_draw_range. apply mulberry32_word_range.
Qed.

(** The first sub-seed of the variant seed 12345. *)
Lemma sub_seed_exact_witness :
  sub_seed (JS.of_Z 12345) 0 = int 979728267.
Proof.
  destruct (sub_seed_exact 12345 0 ltac:(simpl; lia) ltac:(simpl; lia)) as [E _].
  rewrite E. vm_compute. reflexivity.
Defined.

Lemma render_bank_keeps :
  forall bank rng h, keeps h (snd (render_bank rng bank h)).
Proof.
  induction bank as [|p rest IH]; intros rng h.
  - apply keeps_refl.
  - rewrite render_bank_cons. revert h.
    apply keeping_bind; [intro h; apply chooseCorrectIndex_keeps|].
    intro c. apply keeping_bind; [intro h; apply IH|].
    intro items. apply pure_keeping. apply pure_ret.
Qed.

Lemma render_bank_items :
  forall bank rng h items h',
    render_bank rng bank h = (Normal items, h') ->
    map item_problem items = bank
    /\ forall k p, nth_error bank k = Some p ->
         exists it hk hk',
           nth_error items k = Some it
           /\ item_bindings it = generateBindings p (sub_seed rng k)
           /\ keeps h hk
           /\ chooseCorrectIndex p (item_bindings it) hk
              = (Normal {| index := item_index it;
                           numericAnswer := item_numericAnswer it |}, hk').
Proof.
  induction bank as [|p rest IH]; intros rng h items h' E.
  - cbn [render_bank] in E. unfold ret in E. injection E as Ei Eh. subst items h'.
    split; [reflexivity|].
    intros k q Hk. destruct k; discriminate Hk.
  - rewrite render_bank_cons in E. rewrite sub_seed_first in E.
    remember (generateBindings p (sub_seed rng 0)) as b eqn:Eb.
    unfold bind in E.
    pose proof (chooseCorrectIndex_keeps p b h) as K.
    destruct (chooseCorrectIndex p b h) as [[c| |] h1] eqn:Ec;
      try discriminate E.
    cbn [snd] in K.
    destruct (render_bank (snd (rand rng)) rest h1) as [[its| |] h2] eqn:Er;
      try discriminate E.
    unfold ret in E. injection E as Ei Eh. subst items h'.
    destruct (IH _ _ _ _ Er) as [Hm Hn].
    split; [cbn [map item_problem]; rewrite Hm; reflexivity|].
    intros k q Hk. destruct k as [|k].
    + injection Hk as Hq. subst q.
      eexists. exists h, h1. split; [reflexivity|].
      cbn [item_bindings item_index item_numericAnswer].
      split; [exact Eb|].
      split; [apply keeps_refl|].
      rewrite Ec. destruct c; reflexivity.
    + cbn [nth_error] in Hk.
      destruct (Hn k q Hk) as [it [hk [hk' [A [B [C D]]]]]].
      exists it, hk, hk'. split; [exact A|].
      split; [rewrite B; rewrite sub_seed_next; reflexivity|].
      split; [apply (keeps_trans h h1 hk); assumption|exact D].
Qed.

Lemma render_bank_completes :
  forall bank rng h,
    (forall k p, nth_error bank k = Some p ->
       forall h0, keeps h h0 ->
         exists c h1,
           chooseCorrectIndex p (generateBindings p (sub_seed rng k)) h0
           = (Normal c, h1)) ->
    exists items h', render_bank rng bank h = (Normal items, h').
Proof.
  induction bank as [|p rest IH]; intros rng h H.
  - exists [], h. reflexivity.
  - rewrite render_bank_cons. rewrite sub_seed_first. unfold bind.
    destruct (H 0%nat p eq_refl h (keeps_refl h)) as [c [h1 Ec]].
    pose proof (chooseCorrectIndex_keeps p
                  (generateBindings p (sub_seed rng 0)) h) as K.
    rewrite Ec in *. cbn [snd] in K.
    destruct (IH (snd (rand rng)) h1) as [its [h2 Er]].
    { intros k q Hq h0 K0. rewrite <- sub_seed_next.
      apply (H (S k) q Hq). apply (keeps_trans h h1 h0); assumption. }
    rewrite Er. eexists. eexists. reflexivity.
Qed.

(** X5: ExamView returns one item per problem, in bank order.  The item at
    position [k] holds the bindings drawn for that problem from the
    sub-seed of position [k], whatever the other problems of the bank
    are, and the index and numeric answer chooseCorrectIndex returned
    for these bindings.  When chooseCorrectIndex returns for every
    problem on the bindings of its position, the list is returned. *)
Theorem ExamView_items_in_bank_order :
  forall (bank : list problem) (seedIndex : Z) (h : host),
    let variantSeed := JS.add (JS.of_Z 12345) (JS.of_Z seedIndex) in
    ((forall k p, nth_error bank k = Some p ->
        forall h0, keeps h h0 ->
          exists c h1,
            chooseCorrectIndex p
              (generateBindings p (sub_seed variantSeed k)) h0
            = (Normal c, h1)) ->
     exists items h', ExamView bank seedIndex h = (Normal items, h'))
    /\ (forall items h',
          ExamView bank seedIndex h = (Normal items, h') ->
          map item_problem items = bank
          /\ forall k p, nth_error bank k = Some p ->
               exists it hk hk',
                 nth_error items k = Some it
                 /\ item_bindings it
                    = generateBindings p (sub_seed variantSeed k)
                 /\ keeps h hk
                 /\ chooseCorrectIndex p (item_bindings it) hk
                    = (Normal {| index := item_index it;
                                 numericAnswer := item_numericAnswer it |},
                       hk')).
Proof.
  intros bank seedIndex h variantSeed. split.
  - intro H. unfold ExamView. apply render_bank_completes. exact H.
  - intros items h' E. unfold ExamView in E.
    apply render_bank_items in E. exact E.
Qed.

(** The demonstration bank, variant 0: both answer expressions are
    arithmetic on the parameters, so the list is returned, one item per
    problem. *)
Lemma ExamView_items_witness :
  exists items h',
    ExamView DEMO_BANK 0 sample_host = (Normal items, h')
    /\ map item_problem items = DEMO_BANK.
Proof.
  destruct (proj1 (ExamView_items_in_bank_order DEMO_BANK 0 sample_host))
    as [items [h' E]].
  - intros k p Hk h0 K.
    destruct k as [|[|k]].
    + injection Hk as Hp. subst p.
      destruct (ohm1_completes
                  (sub_seed (JS.add (JS.of_Z 12345) (JS.of_Z 0)) 0) h0)
        as [c C].
      exists c, h0. exact C.
    + injection Hk as Hp. subst p.
      destruct (capRC1_completes
                  (sub_seed (JS.add (JS.of_Z 12345) (JS.of_Z 0)) 1) h0)
        as [c C].
      exists c, h0. exact C.
    + destruct k; discriminate Hk.
  - exists items, h'. split; [exact E|].
    apply (proj2 (ExamView_items_in_bank_order DEMO_BANK 0 sample_host)
             items h' E).
Defined.




(** ** Arithmetic never throws *)

(** X7: when the names of the bindings are identifiers, an answer
    expression made of decimal Number literals, these names, signs,
    parentheses and the operators + - * / % ** never throws: it evaluates
    to a Number, leaves the host untouched, and chooseCorrectIndex
    returns a result, also when the expression divides by zero. *)
Theorem arithmetic_never_throws :
  forall (p : problem) (b : bindings) (e : expr) (h : host),
    forallb (fun kv => simple_identifier (fst kv)) (scope_of b) = true ->
    parse (answerExpr p) = Parsed e ->
    plain_arithmetic (scope_of b) e = true ->
    exists x,
      evaluate (scope_of b) (answerExpr p) h = (Normal (VNum x), h)
      /\ chooseCorrectIndex p b h = (Normal (matchAnswer p (VNum x)), h).
Proof.
  intros p b e h Hs Hp Ha.
  apply (plain_arithmetic_choice p b e h Hs Hp Ha).
Qed.

(** V / R with R = 0: the answer is Infinity and no option matches. *)
Lemma arithmetic_never_throws_witness :
  chooseCorrectIndex ohm1 [("V", int 10); ("R", int 0)] sample_host
  = (Normal {| index := -1; numericAnswer := Some JS.Infinity |}, sample_host).
Proof.
  destruct (arithmetic_never_throws ohm1 [("V", int 10); ("R", int 0)]
              (EBin Div (EVar "V") (EVar "R")) sample_host
              ltac:(vm_compute; reflexivity) ltac:(vm_compute; reflexivity)
              ltac:(vm_compute; reflexivity)) as [x [E C]].
  rewrite C. f_equal.
  assert (X : VNum x = VNum JS.Infinity).
  { assert (F : fst (evaluate (scope_of [("V", int 10); ("R", int 0)])
                       (answerExpr ohm1) sample_host)
                = Normal (VNum JS.Infinity)) by (vm_compute; reflexivity).
    rewrite E in F. cbn [fst] in F. injection F as F. rewrite F. reflexivity. }
  rewrite X. vm_compute. reflexivity.
Defined.

(** ** Answers that are not numbers, options without digits *)






Lemma span_digits_no_digit :
  forall s, (forall c, In c (list_ascii_of_string s) -> JS.is_digit c = false) ->
    JS.span_digits s = ("", s).
Proof.
  intros [|c r] H; [reflexivity|].
  cbn [JS.span_digits]. rewrite (H c) by (left; reflexivity). reflexivity.
Qed.

Lemma first_numeric_no_digit :
  forall s, (forall c, In c (list_ascii_of_string s) -> JS.is_digit c = false) ->
    first_numeric s = None.
Proof.
  induction s as [|c r IH]; intro H.
  - reflexivity.
  - assert (Hr : forall d, In d (list_ascii_of_string r) -> JS.is_digit d = false).
    { intros d Hd. apply H. right. exact Hd. }
    assert (M : match_numeric (String c r) = None).
    { unfold match_numeric.
      assert (Hc : JS.span_digits (String c r) = ("", String c r))
        by (apply span_digits_no_digit; exact H).
      assert (Hr' : JS.span_digits r = ("", r))
        by (apply span_digits_no_digit; exact Hr).
      destruct (Ascii.ascii_dec c "-") as [E|E].
      - subst c. rewrite Hr'. reflexivity.
      - replace (match String c r with
                 | String "-" r0 => ("-", r0)
                 | _ => ("", String c r)
                 end) with ("", String c r).
        + rewrite Hc. reflexivity.
        + destruct c as [[] [] [] [] [] [] [] []]; try reflexivity.
          contradiction E. reflexivity. }
    cbn [first_numeric]. rewrite M. apply IH. exact Hr.
Qed.

(** X9: in numeric mode an option that contains no digit is never the one
    selected, whatever the answer is. *)
Theorem numeric_rule_skips_options_without_digits :
  forall (p : problem) (answer : value) (n : nat) (o : string),
    is_numeric_rule p = true -> nth_error (options p) n = Some o ->
    (forall c, In c (list_ascii_of_string o) -> JS.is_digit c = false) ->
    index (matchAnswer p answer) <> Z.of_nat n.
Proof.
  intros p answer n o Hn Ho Hd E.
  rewrite matchAnswer_index in E.
  destruct (findIndex_hit (option_matches p answer) (options p) 0 n
              ltac:(lia) E) as [x [Hx Hm]].
  rewrite Ho in Hx. inversion Hx; subst x.
  unfold option_matches in Hm. rewrite Hn in Hm.
  unfold numericFromOption in Hm.
  rewrite (first_numeric_no_digit o Hd) in Hm. discriminate Hm.
Qed.

(** The option made of words is not the one selected. *)
Lemma numeric_rule_skips_witness :
  index (matchAnswer worded (VNum JS.NaN)) <> Z.of_nat 0.
Proof.
  apply (numeric_rule_skips_options_without_digits worded (VNum JS.NaN) 0%nat
           "none of these").
  - reflexivity.
  - reflexivity.
  - intros c Hc. simpl in Hc.
    repeat (destruct Hc as [Hc|Hc]; [subst c; reflexivity|]). contradiction.
Defined.

(** ** String matching and blanks *)

Lemma findIndex_same :
  forall {A} (f g : A -> bool) l i,
    (forall x, f x = g x) -> findIndex f l i = findIndex g l i.
Proof.
  intros A f g l. induction l as [|a r IH]; intros i H; [reflexivity|].
  cbn [findIndex]. rewrite (H a), (IH (i + 1) H). reflexivity.
Qed.

Lemma findIndex_replace :
  forall {A} (f : A -> bool) l1 a b l2 i,
    f a = f b -> findIndex f (l1 ++ a :: l2) i = findIndex f (l1 ++ b :: l2) i.
Proof.
  intros A f l1 a b l2. induction l1 as [|c r IH]; intros i H.
  - cbn [app findIndex]. rewrite H. reflexivity.
  - cbn [app findIndex]. rewrite (IH (i + 1) H). reflexivity.
Qed.

(** X10: in string mode white space around an option or around the text
    of the answer does not change the index chooseCorrectIndex selects:
    an option with blanks before and after it is selected exactly when
    the bare option in its place would be, and an answer text with
    blanks around it selects what the bare text selects. *)
Theorem string_rule_ignores_blanks :
  forall (p : problem) (answer : value) (before following : list string)
         (sp1 o sp2 : string),
    is_numeric_rule p = false ->
    all_chars is_space sp1 -> all_chars is_space sp2 ->
    index (matchAnswer
             (with_options p (before ++ (sp1 ++ o ++ sp2) :: following)) answer)
    = index (matchAnswer (with_options p (before ++ o :: following)) answer)
    /\ index (matchAnswer p (VStr (sp1 ++ o ++ sp2)))
       = index (matchAnswer p (VStr o)).
Proof.
  intros p answer before following sp1 o sp2 Hn H1 H2. split.
  - unfold matchAnswer.
    change (is_numeric_rule (with_options p _)) with (is_numeric_rule p).
    rewrite Hn. cbn [index options with_options].
    apply findIndex_replace. rewrite trim_blanks by assumption. reflexivity.
  - unfold matchAnswer. rewrite Hn. cbn [index String_of].
    apply findIndex_same. intro x. rewrite trim_blanks by assumption.
    reflexivity.
Qed.

(** The option 3 with a blank on either side is selected by the answer
    3. *)
Lemma string_rule_ignores_blanks_witness :
  index (matchAnswer (with_options malformed [" 3 "; "4"]) (VNum (int 3))) = 0.
Proof.
  assert (S1 : all_chars is_space " ").
  { intros c Hc. simpl in Hc. destruct Hc as [Hc|[]]. subst c. reflexivity. }
  change [" 3 "; "4"] with (([] ++ (" " ++ "3" ++ " ")%string :: ["4"])%list).
  rewrite (proj1 (string_rule_ignores_blanks malformed (VNum (int 3)) []
                    ["4"] " " "3" " " eq_refl S1 S1)).
  vm_compute. reflexivity.
Defined.

(** ** Templates: text without braces, and one placeholder at a time *)

Lemma match_placeholder_braces :
  forall s w r, match_placeholder s = Some (w, r) -> String.prefix "{{" s = true.
Proof.
  intros s w r H. unfold match_placeholder in H.
  destruct s as [|c1 [|c2 s]]; try discriminate.
  - destruct c1 as [[] [] [] [] [] [] [] []]; discriminate.
  - destruct c1 as [[] [] [] [] [] [] [] []]; try discriminate.
    destruct c2 as [[] [] [] [] [] [] [] []]; try discriminate.
    destruct s; reflexivity.
Qed.

Lemma includes_tail :
  forall c r pat, includes (String c r) pat = false -> includes r pat = false.
Proof.
  intros c r pat H. cbn [includes] in H.
  destruct (String.prefix pat (String c r)); [discriminate|exact H].
Qed.

Lemma includes_head :
  forall s pat, includes s pat = false -> String.prefix pat s = false.
Proof.
  intros s pat H. destruct s; cbn [includes] in H;
    destruct (String.prefix pat _); congruence.
Qed.

Lemma no_braces_no_placeholder :
  forall s, includes s "{{" = false -> no_placeholder s.
Proof.
  induction s as [|c r IH]; intro H.
  - split; [reflexivity|exact I].
  - split.
    + destruct (match_placeholder (String c r)) as [[w t]|] eqn:E; [|reflexivity].
      apply match_placeholder_braces in E.
      rewrite (includes_head _ _ H) in E. discriminate E.
    + apply IH. apply (includes_tail c). exact H.
Qed.

(** X11: a template in which two opening braces never follow each other
    is returned unchanged, whatever the bindings are. *)
Theorem renderTemplate_without_braces :
  forall (stem : string) (b : bindings),
    includes stem "{{" = false -> renderTemplate stem b = stem.
Proof.
  intros stem b H. apply renderTemplate_plain.
  apply no_braces_no_placeholder. exact H.
Qed.

(** Single braces are text. *)
Lemma renderTemplate_without_braces_witness :
  renderTemplate "A {single} brace } is text" [("single", int 1)]
  = "A {single} brace } is text".
Proof.
  apply renderTemplate_without_braces. reflexivity.
Defined.

(** X12: a placeholder at the head of a template, with any blanks around a
    name made of word characters, is replaced by the text of the Number
    bound to the name, or by nothing when the name is not bound and not
    one of the names every object inherits; the rest of the template is
    rendered after it. *)
Theorem renderTemplate_one_placeholder :
  forall (b : bindings) (sp1 w sp2 rest : string),
    all_chars is_space sp1 -> all_chars is_space sp2 ->
    all_chars is_word w -> w <> "" ->
    (forall x, own b w = Some x ->
       renderTemplate ("{{" ++ sp1 ++ w ++ sp2 ++ "}}" ++ rest) b
       = JS.to_string x ++ renderTemplate rest b)
    /\ (own b w = None -> inherited w = false ->
        renderTemplate ("{{" ++ sp1 ++ w ++ sp2 ++ "}}" ++ rest) b
        = renderTemplate rest b).
Proof.
  intros b sp1 w sp2 rest H1 H2 Hw Hne.
  pose proof (match_placeholder_shape sp1 w sp2 rest H1 H2 Hw Hne) as M.
  split.
  - intros x Hx. rewrite (renderTemplate_placeholder b _ w rest M).
    rewrite (substitute_bound b w x Hx). reflexivity.
  - intros Hx Hi. rewrite (renderTemplate_placeholder b _ w rest M).
    rewrite (substitute_unbound b w Hx Hi). reflexivity.
Qed.

(** A placeholder with blanks around the name. *)
Lemma renderTemplate_one_placeholder_witness :
  renderTemplate "{{ V }} volts" [("V", int 10)] = "10 volts".
Proof.
  assert (S1 : all_chars is_space " ").
  { intros c Hc. simpl in Hc. destruct Hc as [Hc|[]]. subst c. reflexivity. }
  assert (W : all_chars is_word "V").
  { intros c Hc. simpl in Hc. destruct Hc as [Hc|[]]. subst c. reflexivity. }
  destruct (renderTemplate_one_placeholder [("V", int 10)] " " "V" " " " volts"
              S1 S1 W ltac:(discriminate)) as [H _].
  change ("{{" ++ " " ++ "V" ++ " " ++ "}}" ++ " volts")
    with "{{ V }} volts" in H.
  rewrite (H (int 10) eq_refl). vm_compute. reflexivity.
Defined.

(** ** Reordering and removing images *)

Module ImagesFacts.
Import Images.

Section Arrays.

Context {A : Type}.

Lemma store_length :
  forall (l : list A) i v, List.length (store l i v) = List.length l.
Proof.
  induction l as [|x r IH]; intros [|i] v; simpl; try reflexivity.
  rewrite IH. reflexivity.
Qed.

Lemma nth_store_same :
  forall (l : list A) i v, (i < List.length l)%nat ->
    nth_error (store l i v) i = Some v.
Proof.
  induction l as [|x r IH]; intros [|i] v H; simpl in *; try lia.
  - reflexivity.
  - apply IH. lia.
Qed.

Lemma nth_store_other :
  forall (l : list A) i j v, i <> j ->
    nth_error (store l i v) j = nth_error l j.
Proof.
  induction l as [|x r IH]; intros [|i] [|j] v H; simpl; try reflexivity.
  - contradiction H. reflexivity.
  - apply IH. intro E. apply H. rewrite E. reflexivity.
Qed.

Lemma store_same :
  forall (l : list A) i v, nth_error l i = Some v -> store l i v = l.
Proof.
  induction l as [|x r IH]; intros [|i] v H; simpl in *; try discriminate.
  - inversion H. reflexivity.
  - rewrite IH by exact H. reflexivity.
Qed.

(** Exchanging two neighbours, as a list. *)
Lemma exchange_neighbours :
  forall (l : list A) i x y,
    nth_error l i = Some x -> nth_error l (S i) = Some y ->
    store (store l i y) (S i) x
    = (firstn i l ++ y :: x :: skipn (S (S i)) l)%list
    /\ l = (firstn i l ++ x :: y :: skipn (S (S i)) l)%list.
Proof.
  induction l as [|a r IH]; intros [|i] x y Hx Hy; simpl in *; try discriminate.
  - destruct r as [|b r]; [discriminate|]. simpl in *.
    inversion Hx; inversion Hy; subst. split; reflexivity.
  - destruct (IH i x y Hx Hy) as [E1 E2]. split.
    + f_equal. exact E1.
    + f_equal. exact E2.
Qed.

Lemma store_store_commute :
  forall (l : list A) i j v w, i <> j ->
    store (store l i v) j w = store (store l j w) i v.
Proof.
  induction l as [|a r IH]; intros [|i] [|j] v w H; simpl; try reflexivity.
  - contradiction H. reflexivity.
  - rewrite IH; [reflexivity|]. intro E. apply H. rewrite E. reflexivity.
Qed.

End Arrays.

Lemma move_up_swap :
  forall imgs i x y,
    nth_error imgs i = Some x -> nth_error imgs (S i) = Some y ->
    move_up imgs (S i) = Some (store (store imgs i y) (S i) x)
    /\ move_down imgs i = Some (store (store imgs i y) (S i) x).
Proof.
  intros imgs i x y Hx Hy. split.
  - unfold move_up. rewrite Hy.
    replace (0 <? S i)%nat with true by reflexivity.
    replace (S i - 1)%nat with i by lia. rewrite Hx. reflexivity.
  - unfold move_down. rewrite Hx.
    assert (L : (S i < List.length imgs)%nat).
    { apply nth_error_Some. rewrite Hy. discriminate. }
    replace (Z.of_nat i <? Z.of_nat (List.length imgs) - 1) with true
      by (symmetry; apply Z.ltb_lt; lia).
    replace (i + 1)%nat with (S i) by lia. rewrite Hy.
    rewrite store_store_commute by lia. reflexivity.
Qed.

(** X13: the up and down buttons of an image give a rearrangement of the
    same images: nothing is lost or duplicated and the number of images
    is kept.  Up on the first image and down on the last one change
    nothing; anywhere else the image changes places with its neighbour,
    and pressing the opposite button on the moved image restores the
    original order. *)
Theorem move_image_rearranges :
  forall (imgs : list image) (i : nat),
    (i < List.length imgs)%nat ->
    (exists up down,
        move_up imgs i = Some up /\ move_down imgs i = Some down
        /\ Permutation imgs up /\ Permutation imgs down
        /\ List.length up = List.length imgs
        /\ List.length down = List.length imgs)
    /\ move_up imgs 0 = Some imgs
    /\ move_down imgs (List.length imgs - 1) = Some imgs
    /\ (forall x y up,
          nth_error imgs i = Some x -> nth_error imgs (S i) = Some y ->
          move_up imgs (S i) = Some up ->
          nth_error up i = Some y /\ nth_error up (S i) = Some x
          /\ (forall k, k <> i -> k <> S i -> nth_error up k = nth_error imgs k)
          /\ move_down imgs i = Some up
          /\ move_down up i = Some imgs).
Proof.
  intros imgs i Hi.
  assert (Hnth : forall k, (k < List.length imgs)%nat ->
                   exists x, nth_error imgs k = Some x).
  { intros k Hk. destruct (nth_error imgs k) as [x|] eqn:E; [eauto|].
    apply nth_error_None in E. lia. }
  assert (Swap : forall j x y,
             nth_error imgs j = Some x -> nth_error imgs (S j) = Some y ->
             Permutation imgs (store (store imgs j y) (S j) x)).
  { intros j x y Hx Hy.
    destruct (exchange_neighbours imgs j x y Hx Hy) as [E1 E2].
    rewrite E1. rewrite E2 at 1.
    apply Permutation_app_head. apply perm_swap. }
  split; [|split; [|split]].
  - destruct (Hnth i Hi) as [x Hx].
    assert (Up : exists up, move_up imgs i = Some up /\ Permutation imgs up).
    { destruct i as [|j].
      - exists imgs. split; [|apply Permutation_refl].
        unfold move_up. rewrite Hx. reflexivity.
      - destruct (Hnth j ltac:(lia)) as [w Hw].
        exists (store (store imgs j x) (S j) w). split.
        + apply (move_up_swap imgs j w x Hw Hx).
        + apply Swap; assumption. }
    assert (Down : exists down,
               move_down imgs i = Some down /\ Permutation imgs down).
    { destruct (Nat.eq_dec (S i) (List.length imgs)) as [E|E].
      - exists imgs. split; [|apply Permutation_refl].
        unfold move_down. rewrite Hx.
        replace (Z.of_nat i <? Z.of_nat (List.length imgs) - 1) with false
          by (symmetry; apply Z.ltb_ge; lia).
        reflexivity.
      - destruct (Hnth (S i) ltac:(lia)) as [y Hy].
        exists (store (store imgs i y) (S i) x). split.
        + apply (move_up_swap imgs i x y Hx Hy).
        + apply Swap; assumption. }
    destruct Up as [up [U1 U2]]. destruct Down as [down [D1 D2]].
    exists up, down. repeat split; try assumption.
    + symmetry. apply Permutation_length. exact U2.
    + symmetry. apply Permutation_length. exact D2.
  - destruct (Hnth 0%nat ltac:(lia)) as [x Hx].
    unfold move_up. rewrite Hx. reflexivity.
  - destruct (Hnth (List.length imgs - 1)%nat ltac:(lia)) as [x Hx].
    unfold move_down. rewrite Hx.
    replace (Z.of_nat (List.length imgs - 1) <? Z.of_nat (List.length imgs) - 1)
      with false by (symmetry; apply Z.ltb_ge; lia).
    reflexivity.
  - intros x y up Hx Hy Hup.
    destruct (move_up_swap imgs i x y Hx Hy) as [U D].
    rewrite U in Hup. injection Hup as Hup. subst up.
    assert (L : (S i < List.length imgs)%nat).
    { apply nth_error_Some. rewrite Hy. discriminate. }
    assert (N1 : nth_error (store (store imgs i y) (S i) x) i = Some y).
    { rewrite nth_store_other by lia. apply nth_store_same. lia. }
    assert (N2 : nth_error (store (store imgs i y) (S i) x) (S i) = Some x).
    { apply nth_store_same. rewrite store_length. exact L. }
    split; [exact N1|]. split; [exact N2|]. split.
    + intros k K1 K2. rewrite !nth_store_other by congruence. reflexivity.
    + split; [exact D|].
      rewrite (proj2 (move_up_swap _ i y x N1 N2)). f_equal.
      rewrite (store_store_commute _ i (S i)) by lia.
      destruct (exchange_neighbours imgs i x y Hx Hy) as [E1 E2].
      (* put x back at i and y back at S i *)
      assert (R : forall (l : list image) j a b c d,
                 (S j < List.length l)%nat ->
                 store (store (store (store l j a) (S j) b) (S j) c) j d
                 = store (store l j d) (S j) c).
      { induction l as [|e r IH]; intros [|j] a b c d H; simpl in *; try lia.
        - destruct r; simpl in *; [lia|reflexivity].
        - f_equal. apply IH. lia. }
      rewrite R by exact L.
      rewrite (store_same imgs i x Hx). apply store_same. exact Hy.
Qed.

(** The third of three images moved up, then down again. *)
Lemma move_image_witness :
  move_up [pic "a"; pic "b"; pic "c"] 2 = Some [pic "a"; pic "c"; pic "b"]
  /\ move_down [pic "a"; pic "c"; pic "b"] 1 = Some [pic "a"; pic "b"; pic "c"].
Proof.
  destruct (move_image_rearranges [pic "a"; pic "b"; pic "c"] 1 ltac:(simpl; lia))
    as [_ [_ [_ H]]].
  destruct (H (pic "b") (pic "c") [pic "a"; pic "c"; pic "b"]
              eq_refl eq_refl eq_refl) as [_ [_ [_ [_ B]]]].
  split; [reflexivity|exact B].
Defined.

Lemma nth_error_remove_before :
  forall {A} (l : list A) i k, (k < i)%nat -> (i < List.length l)%nat ->
    nth_error (firstn i l ++ skipn (S i) l) k = nth_error l k.
Proof.
  intros A l i k Hk Hi.
  rewrite nth_error_app1 by (rewrite length_firstn; lia).
  rewrite nth_error_firstn.
  replace (k <? i)%nat with true by (symmetry; apply Nat.ltb_lt; exact Hk).
  reflexivity.
Qed.

Lemma nth_error_remove_after :
  forall {A} (l : list A) i k, (i <= k)%nat -> (i < List.length l)%nat ->
    nth_error (firstn i l ++ skipn (S i) l) k = nth_error l (S k).
Proof.
  intros A l i k Hk Hi.
  rewrite nth_error_app2 by (rewrite length_firstn; lia).
  rewrite length_firstn. rewrite nth_error_skipn.
  f_equal. lia.
Qed.

Lemma split_at :
  forall {A} (l : list A) i x, nth_error l i = Some x ->
    l = (firstn i l ++ x :: skipn (S i) l)%list.
Proof.
  induction l as [|a r IH]; intros [|i] x H; simpl in *; try discriminate.
  - inversion H. reflexivity.
  - f_equal. apply IH. exact H.
Qed.

(** X14: the remove button of an image takes exactly that image out: the
    images before it keep their places, those after it move up by one,
    and together with the removed image the result is a rearrangement of
    the original list. *)
Theorem remove_image_drops_one :
  forall (imgs : list image) (i : nat) (x : image),
    nth_error imgs i = Some x ->
    exists rest,
      remove_image imgs i = Some rest
      /\ Permutation imgs (x :: rest)
      /\ S (List.length rest) = List.length imgs
      /\ (forall k, (k < i)%nat -> nth_error rest k = nth_error imgs k)
      /\ (forall k, (i <= k)%nat -> nth_error rest k = nth_error imgs (S k)).
Proof.
  intros imgs i x Hx.
  assert (Hi : (i < List.length imgs)%nat).
  { apply nth_error_Some. rewrite Hx. discriminate. }
  exists (firstn i imgs ++ skipn (S i) imgs)%list.
  assert (P : Permutation imgs (x :: firstn i imgs ++ skipn (S i) imgs)).
  { rewrite (split_at imgs i x Hx) at 1. symmetry. apply Permutation_middle. }
  split; [unfold remove_image; rewrite Hx; reflexivity|].
  split; [exact P|]. split.
  - apply Permutation_length in P. cbn [List.length] in P. lia.
  - split.
    + intros k Hk. apply nth_error_remove_before; assumption.
    + intros k Hk. apply nth_error_remove_after; assumption.
Qed.

(** The second of three images removed. *)
Lemma remove_image_witness :
  remove_image [pic "a"; pic "b"; pic "c"] 1 = Some [pic "a"; pic "c"].
Proof.
  destruct (remove_image_drops_one [pic "a"; pic "b"; pic "c"] 1 (pic "b") eq_refl)
    as [rest [E _]].
  reflexivity.
Defined.

Lemma update_images_problems :
  forall bank pid imgs,
    map problem_of (update_images bank pid imgs) = map problem_of bank.
Proof.
  intros bank pid imgs. unfold update_images. rewrite map_map.
  apply map_ext. intro e. destruct (String.eqb _ pid); reflexivity.
Qed.

(** X15: storing a new image list for a problem id changes the images of
    every problem of the bank with that id, and nothing else: the bank
    keeps its length and order, every problem keeps its stem, parameters,
    options, answer expression and selection rule, so that the exam
    computed from the bank is the same as before, and problems with
    another id keep their images.  The image editor shows the first
    problem with the id, which then holds the new list. *)
Theorem update_images_changes_images_only :
  forall (bank : list entry) (pid : string) (imgs : list image),
    map problem_of (update_images bank pid imgs) = map problem_of bank
    /\ (forall seedIndex h,
          ExamView (map problem_of (update_images bank pid imgs)) seedIndex h
          = ExamView (map problem_of bank) seedIndex h)
    /\ (forall k e, nth_error bank k = Some e ->
          exists e', nth_error (update_images bank pid imgs) k = Some e'
            /\ problem_of e' = problem_of e
            /\ (id (problem_of e) = pid -> images e' = Some imgs)
            /\ (id (problem_of e) <> pid -> e' = e))
    /\ (forall e, find_problem bank pid = Some e ->
          exists e', find_problem (update_images bank pid imgs) pid = Some e'
            /\ problem_of e' = problem_of e /\ images_of e' = imgs).
Proof.
  intros bank pid imgs.
  split; [apply update_images_problems|].
  split; [intros; rewrite update_images_problems; reflexivity|].
  split.
  - intros k e Hk. unfold update_images.
    rewrite nth_error_map, Hk. cbn [option_map].
    eexists. split; [reflexivity|].
    destruct (String.eqb (id (problem_of e)) pid) eqn:E.
    + split; [reflexivity|]. split; [reflexivity|].
      apply String.eqb_eq in E. intro H. contradiction.
    + split; [reflexivity|]. split; [|reflexivity].
      apply String.eqb_neq in E. intro H. contradiction.
  - induction bank as [|a r IH]; intros e H; [discriminate H|].
    unfold find_problem in *. cbn [update_images map find] in *.
    destruct (String.eqb (id (problem_of a)) pid) eqn:E.
    + injection H as H. subst e. cbn [problem_of]. rewrite E.
      eexists. split; [reflexivity|]. split; reflexivity.
    + rewrite E. apply IH. exact H.
Qed.

(** Both problems with id ohm1 get the new list; the other keeps its
    image. *)
Lemma update_images_witness :
  map images
    (update_images
       [ {| problem_of := ohm1; images := None |};
         {| problem_of := capRC1; images := Some [pic "c"] |};
         {| problem_of := ohm1; images := Some [pic "a"] |} ]
       "ohm1" [pic "b"])
  = [Some [pic "b"]; Some [pic "c"]; Some [pic "b"]].
Proof.
  pose proof (update_images_changes_images_only
                [ {| problem_of := ohm1; images := None |};
                  {| problem_of := capRC1; images := Some [pic "c"] |};
                  {| problem_of := ohm1; images := Some [pic "a"] |} ]
                "ohm1" [pic "b"]) as [_ [_ [H _]]].
  destruct (H 2%nat _ eq_refl) as [e' [E [_ [I2 _]]]].
  reflexivity.
Defined.

End ImagesFacts.

(** ** The exported document *)

Module HtmlExportFacts.
Import Images HtmlExport.

Lemma options_html_some :
  forall opts i index show,
    (i + List.length opts <= 159)%nat ->
    exists t, options_html opts i index show = Some t.
Proof.
  induction opts as [|o rest IH]; intros i index show H.
  - exists "". reflexivity.
  - cbn [options_html]. cbn [List.length] in H.
    destruct (IH (S i) index show ltac:(lia)) as [t Ht]. rewrite Ht.
    unfold option_letter.
    replace (i <? 159)%nat with true by (symmetry; apply Nat.ltb_lt; lia).
    eexists. reflexivity.
Qed.

Lemma question_html_some :
  forall e idx b index show,
    (List.length (options (problem_of e)) <= 159)%nat ->
    exists t, question_html e idx b index show = Some t.
Proof.
  intros e idx b index show H. unfold question_html.
  destruct (options_html_some (options (problem_of e)) 0 index show H) as [t Ht].
  rewrite Ht. eexists. reflexivity.
Qed.

Lemma export_items_cons :
  forall rng e rest idx show h,
    export_items rng (e :: rest) idx show h
    = (c <- chooseCorrectIndex (problem_of e)
              (generateBindings (problem_of e)
                 (JS.floor (JS.mul (fst (rand rng)) (JS.of_Z 1000000000)))) ;;
       item <- match question_html e idx
                       (generateBindings (problem_of e)
                          (JS.floor (JS.mul (fst (rand rng))
                                       (JS.of_Z 1000000000))))
                       (index c) show with
               | Some text => ret text
               | None => unmodelled
               end ;;
       items <- export_items (snd (rand rng)) rest (S idx) show ;;
       ret (item :: items)) h.
Proof.
  intros rng e rest idx show h. cbn [export_items].
  destruct (rand rng) as [r rng']. reflexivity.
Qed.

Lemma export_items_render_bank :
  forall bank rng idx show h,
    (forall e, In e bank ->
       (List.length (options (problem_of e)) <= 159)%nat) ->
    export_items rng bank idx show h
    = (items <- render_bank rng (map problem_of bank) ;;
       ret (questions_of bank items idx show)) h.
Proof.
  induction bank as [|e rest IH]; intros rng idx show h H.
  - reflexivity.
  - rewrite export_items_cons. cbn [map]. unfold bind.
    rewrite render_bank_cons. unfold bind.
    remember (generateBindings (problem_of e)
                (JS.floor (JS.mul (fst (rand rng)) (JS.of_Z 1000000000))))
      as b eqn:Eb.
    destruct (chooseCorrectIndex (problem_of e) b h) as [[c| |] h1];
      try reflexivity.
    destruct (question_html_some e idx b (index c) show
                (H e (or_introl eq_refl))) as [t Ht].
    rewrite Ht. unfold ret at 1.
    rewrite (IH (snd (rand rng)) (S idx) show h1)
      by (intros e' He'; apply H; right; exact He').
    unfold bind.
    destruct (render_bank (snd (rand rng)) (map problem_of rest) h1)
      as [[its| |] h2]; try reflexivity.
    unfold ret. cbn [questions_of item_bindings item_index]. rewrite Ht.
    reflexivity.
Qed.

(** X16: the exported questions mirror the previewed variant.  For a bank
    whose problems have at most 159 options, exportNow's body is the
    markup of the very items ExamView computes for the same bank and
    variant: question [k] is rendered from the bindings and the correct
    index of item [k], and the export fails with the same error whenever
    the preview does. *)
Theorem export_mirrors_ExamView :
  forall (bank : list entry) (seedIndex : Z) (showSolutions : bool) (h : host),
    (forall e, In e bank ->
       (List.length (options (problem_of e)) <= 159)%nat) ->
    export_body bank seedIndex showSolutions h
    = (items <- ExamView (map problem_of bank) seedIndex ;;
       ret ("<div>"
            ++ String.concat "" (questions_of bank items 0 showSolutions)
            ++ "</div>")) h.
Proof.
  intros bank seedIndex show h H. unfold export_body, ExamView.
  unfold bind.
  rewrite (export_items_render_bank bank _ 0%nat show h H).
  unfold bind.
  destruct (render_bank _ (map problem_of bank) h) as [[its| |] h1];
    reflexivity.
Qed.

(** The demonstration bank, the second problem with an image, exported
    with solutions. *)
Lemma export_mirrors_witness :
  fst (export_body
         [ {| problem_of := ohm1; images := None |};
           {| problem_of := capRC1; images := Some [pic "rc.png"] |} ]
         0 true sample_host)
  = fst ((items <- ExamView DEMO_BANK 0 ;;
          ret ("<div>"
               ++ String.concat ""
                    (questions_of
                       [ {| problem_of := ohm1; images := None |};
                         {| problem_of := capRC1;
                            images := Some [pic "rc.png"] |} ]
                       items 0 true)
               ++ "</div>")) sample_host).
Proof.
  rewrite export_mirrors_ExamView.
  - reflexivity.
  - intros e [E|[E|[]]]; subst e; simpl; lia.
Defined.

Lemma prefix_app : forall p s, String.prefix p (p ++ s) = true.
Proof.
  induction p as [|c p IH]; intro s; simpl.
  - destruct s; reflexivity.
  - destruct (ascii_dec c c) as [_|N]; [apply IH|contradiction N; reflexivity].
Qed.

Lemma includes_prefix :
  forall s pat, String.prefix pat s = true -> includes s pat = true.
Proof.
  intros s pat H. destruct s; cbn [includes]; rewrite H; reflexivity.
Qed.

Lemma includes_app :
  forall a pat s, includes (a ++ pat ++ s) pat = true.
Proof.
  induction a as [|c a IH]; intros pat s.
  - change ("" ++ pat ++ s) with (pat ++ s).
    apply includes_prefix. apply prefix_app.
  - change (String c a ++ pat ++ s) with (String c (a ++ pat ++ s)).
    cbn [includes]. rewrite IH. destruct (String.prefix _ _); reflexivity.
Qed.

Lemma includes_split :
  forall s a pat c, s = a ++ pat ++ c -> includes s pat = true.
Proof. intros s a pat c E. rewrite E. apply includes_app. Qed.

(** X17: whatever the title, the body and the solutions flag are, the
    exported document starts with the doctype, includes the inlined
    style element, and contains the title and the body as they are
    given, without any escaping; with solutions shown the body element
    has the class [solutions]. *)
Theorem buildStandaloneHTML_shape :
  forall (title bodyHTML : string) (showSolutions : bool),
    let html := buildStandaloneHTML title bodyHTML showSolutions in
    String.prefix "<!DOCTYPE html>" html = true
    /\ includes html "<style>" = true
    /\ includes html ("<title>" ++ title ++ "</title>") = true
    /\ includes html (nl ++ "    " ++ bodyHTML ++ nl ++ "  </body></html>") = true
    /\ includes html
         ("<body class=" ++ dq ++ (if showSolutions then "solutions" else "")
          ++ dq ++ ">") = true.
Proof.
  intros title bodyHTML showSolutions html. unfold html, buildStandaloneHTML.
  split; [reflexivity|].
  split.
  { apply (includes_split _
             ("<!DOCTYPE html><html><head><meta charset=" ++ dq ++ "utf-8" ++ dq
              ++ "/>" ++ nl ++ "  <title>" ++ title ++ "</title>" ++ nl ++ "  ")
             _
             (baseCss ++ "</style>" ++ nl ++ "  </head>" ++ nl
              ++ "  <body class=" ++ dq
              ++ (if showSolutions then "solutions" else "") ++ dq ++ ">"
              ++ nl ++ "    " ++ bodyHTML ++ nl ++ "  </body></html>")).
    repeat rewrite app_assoc_string. reflexivity. }
  split.
  { apply (includes_split _
             ("<!DOCTYPE html><html><head><meta charset=" ++ dq ++ "utf-8" ++ dq
              ++ "/>" ++ nl ++ "  ")
             _
             (nl ++ "  <style>" ++ baseCss ++ "</style>" ++ nl ++ "  </head>"
              ++ nl ++ "  <body class=" ++ dq
              ++ (if showSolutions then "solutions" else "") ++ dq ++ ">"
              ++ nl ++ "    " ++ bodyHTML ++ nl ++ "  </body></html>")).
    repeat rewrite app_assoc_string. reflexivity. }
  split.
  { apply (includes_split _
             ("<!DOCTYPE html><html><head><meta charset=" ++ dq ++ "utf-8" ++ dq
              ++ "/>" ++ nl ++ "  <title>" ++ title ++ "</title>" ++ nl
              ++ "  <style>" ++ baseCss ++ "</style>" ++ nl ++ "  </head>"
              ++ nl ++ "  <body class=" ++ dq
              ++ (if showSolutions then "solutions" else "") ++ dq ++ ">")
             _ "").
    repeat rewrite app_assoc_string. reflexivity. }
  { apply (includes_split _
             ("<!DOCTYPE html><html><head><meta charset=" ++ dq ++ "utf-8" ++ dq
              ++ "/>" ++ nl ++ "  <title>" ++ title ++ "</title>" ++ nl
              ++ "  <style>" ++ baseCss ++ "</style>" ++ nl ++ "  </head>"
              ++ nl ++ "  ")
             _
             (nl ++ "    " ++ bodyHTML ++ nl ++ "  </body></html>")).
    repeat rewrite app_assoc_string. reflexivity. }
Qed.

End HtmlExportFacts.

(** ** The variant counter *)

Module VariantFacts.
Import Variant.

Lemma next_exact :
  forall n, 0 <= n < 9007199254740991 ->
    next (JS.of_Z n) = JS.of_Z (n + 1).
Proof.
  intros n Hn. unfold next.
  rewrite (of_Z_dyadic n), (of_Z_dyadic 1), (of_Z_dyadic (n + 1)) by lia.
  apply add_exact; lia.
Qed.

Lemma ltb_zero_positive :
  forall m, 0 < m -> JS.ltb (S754_zero false) (dyadic m 0) = true.
Proof.
  intros m Hm. rewrite dyadic_finite by lia.
  replace (negative m) with false by (symmetry; apply Z.ltb_ge; lia).
  reflexivity.
Qed.

Lemma previous_exact :
  forall n, 1 <= n < 9007199254740992 ->
    previous (JS.of_Z n) = JS.of_Z (n - 1).
Proof.
  intros n Hn. unfold previous.
  rewrite (of_Z_dyadic n), (of_Z_dyadic 1), (of_Z_dyadic (n - 1)) by lia.
  rewrite sub_exact by lia.
  change (JS.of_Z 0) with (S754_zero false).
  destruct (Z.eq_dec n 1) as [E|E].
  - subst n. reflexivity.
  - pose proof (ltb_zero_positive (n - 1) ltac:(lia)) as L.
    rewrite dyadic_finite in * by lia.
    unfold Math_max. rewrite L. reflexivity.
Qed.

Lemma remainder_24 :
  forall n, 0 <= n < 9007199254740992 ->
    JS.remainder (JS.of_Z n) (JS.of_Z 24) = dyadic (n mod 24) 0.
Proof.
  intros n Hn. rewrite of_Z_dyadic by lia.
  change (JS.of_Z 24) with (S754_finite false 6755399441055744 (-48)).
  destruct (Z.eq_dec n 0) as [E|E]; [subst n; reflexivity|].
  rewrite dyadic_finite by exact E.
  replace (negative n) with false by (symmetry; apply Z.ltb_ge; lia).
  pose proof (digits_range n E ltac:(lia)) as D.
  pose proof (mantissa_abs_bounds n E ltac:(lia)) as M.
  unfold JS.remainder.
  set (e := Z.min (0 + digits n - 53) (-48)).
  assert (He : e <= -48) by (unfold e; lia).
  assert (He' : e <= digits n - 53) by (unfold e; lia).
  rewrite Z2Pos.id by lia.
  assert (X : mantissa n * 2 ^ (0 + digits n - 53 - e) = n * 2 ^ (- e)).
  { unfold mantissa. rewrite Z.abs_eq by lia.
    rewrite <- Z.mul_assoc, <- Z.pow_add_r by lia.
    f_equal. f_equal. lia. }
  assert (Y : 6755399441055744 * 2 ^ (-48 - e) = 24 * 2 ^ (- e)).
  { change 6755399441055744 with (24 * 2 ^ 48).
    rewrite <- Z.mul_assoc, <- Z.pow_add_r by lia.
    f_equal. f_equal. lia. }
  rewrite X, Y.
  rewrite Z.mul_mod_distr_r by (try lia; apply Z.pow_nonzero; lia).
  replace (- e) with (0 - e) by lia.
  apply normalize_exact.
  - pose proof (Z.mod_pos_bound n 24 ltac:(lia)). lia.
  - lia.
  - intro Hz. pose proof (Z.mod_pos_bound n 24 ltac:(lia)) as B.
    pose proof (digits_range (n mod 24) Hz ltac:(lia)). lia.
Qed.

Lemma element_GREEK :
  forall k, (k < 24)%nat ->
    element GREEK (dyadic (Z.of_nat k) 0) = nth_error GREEK k.
Proof.
  intros k Hk.
  do 24 (destruct k as [|k]; [vm_compute; reflexivity|]). lia.
Qed.

Lemma marker_natural :
  forall n, 0 <= n < 9007199254740992 ->
    nth_error GREEK (Z.to_nat (n mod 24)) = Some (marker (JS.of_Z n)).
Proof.
  intros n Hn. unfold marker.
  change (JS.of_Z (Z.of_nat (List.length GREEK))) with (JS.of_Z 24).
  rewrite remainder_24 by exact Hn.
  pose proof (Z.mod_pos_bound n 24 ltac:(lia)) as B.
  rewrite <- (Z2Nat.id (n mod 24)) at 2 by lia.
  rewrite element_GREEK by lia.
  destruct (nth_error GREEK (Z.to_nat (n mod 24))) as [c|] eqn:E; [reflexivity|].
  apply nth_error_None in E. change (List.length GREEK) with 24%nat in E. lia.
Qed.

(** X18: the variant counter, which starts at 0 and changes by the - and +
    buttons only, is always an integer from 0 to 2^53: it never goes
    below 0.  Its Greek marker is the letter at position counter mod 24
    of GREEK, so the fallback is never needed and the markers repeat every
    24 variants.  Below 2^53, + followed by - gives the counter back. *)
Theorem counter_stays_natural :
  forall s : JS.number,
    counter s ->
    exists n,
      0 <= n <= 9007199254740992 /\ s = JS.of_Z n
      /\ nth_error GREEK (Z.to_nat (n mod 24)) = Some (marker s)
      /\ (n < 9007199254740992 -> previous (next s) = s).
Proof.
  assert (Top : marker (JS.of_Z 9007199254740992) = 953
                /\ next (JS.of_Z 9007199254740992) = JS.of_Z 9007199254740992
                /\ previous (JS.of_Z 9007199254740992)
                   = JS.of_Z 9007199254740991
                /\ next (JS.of_Z 9007199254740991) = JS.of_Z 9007199254740992
                /\ previous (JS.of_Z 0) = JS.of_Z 0).
  { repeat split; vm_compute; reflexivity. }
  destruct Top as [T1 [T2 [T3 [T4 T5]]]].
  assert (Mark : forall n, 0 <= n <= 9007199254740992 ->
             nth_error GREEK (Z.to_nat (n mod 24)) = Some (marker (JS.of_Z n))).
  { intros n Hn. destruct (Z.eq_dec n 9007199254740992) as [E|E].
    - subst n. rewrite T1. reflexivity.
    - apply marker_natural. lia. }
  assert (Back : forall n, 0 <= n < 9007199254740992 ->
             previous (next (JS.of_Z n)) = JS.of_Z n).
  { intros n Hn. destruct (Z.eq_dec n 9007199254740991) as [E|E].
    - subst n. rewrite T4. exact T3.
    - rewrite next_exact by lia. rewrite previous_exact by lia.
      f_equal. lia. }
  intros s H. induction H as [|s H IH|s H IH].
  - exists 0. split; [lia|]. split; [reflexivity|].
    split; [apply Mark; lia|intros _; apply Back; lia].
  - destruct IH as [n [Hn [Es _]]]. subst s.
    destruct (Z.eq_dec n 0) as [E0|E0].
    + subst n. rewrite T5. exists 0. split; [lia|]. split; [reflexivity|].
      split; [apply Mark; lia|intros _; apply Back; lia].
    + assert (P : previous (JS.of_Z n) = JS.of_Z (n - 1)).
      { destruct (Z.eq_dec n 9007199254740992) as [E|E].
        - subst n. exact T3.
        - apply previous_exact. lia. }
      rewrite P. exists (n - 1). split; [lia|]. split; [reflexivity|].
      split; [apply Mark; lia|intros _; apply Back; lia].
  - destruct IH as [n [Hn [Es _]]]. subst s.
    destruct (Z.eq_dec n 9007199254740992) as [E|E].
    + subst n. rewrite T2. exists 9007199254740992.
      split; [lia|]. split; [reflexivity|].
      split; [apply Mark; lia|intro; lia].
    + assert (N : next (JS.of_Z n) = JS.of_Z (n + 1)).
      { destruct (Z.eq_dec n 9007199254740991) as [E1|E1].
        - subst n. exact T4.
        - apply next_exact. lia. }
      rewrite N. exists (n + 1). split; [lia|]. split; [reflexivity|].
      split; [apply Mark; lia|intros Hlt; apply Back; lia].
Qed.

(** The counter after +, + and -. *)
Lemma counter_witness :
  exists n,
    0 <= n <= 9007199254740992
    /\ previous (next (next (JS.of_Z 0))) = JS.of_Z n
    /\ nth_error GREEK (Z.to_nat (n mod 24))
       = Some (marker (previous (next (next (JS.of_Z 0))))).
Proof.
  destruct (counter_stays_natural (previous (next (next (JS.of_Z 0))))
              (counter_previous _ (counter_next _ (counter_next _ counter_start))))
    as [n [Hn [Es [Hm _]]]].
  exists n. split; [exact Hn|]. split; [exact Es|exact Hm].
Defined.

End VariantFacts.

(** ** What the service worker serves *)

Module ExamDataWorkerFacts.
Import ServiceWorker ExamDataWorker.

(** The dispatch on the message type, by comparisons. *)
Lemma on_message_dispatch :
  forall st ev,
    on_message st ev =
    let d := match data ev with
             | Some d => d
             | None => {| type := None; text := None |}
             end in
    match type d with
    | Some t =>
        if String.eqb t "setExamData" then
          match JSON_parse (text d) with
          | None => (text d, post ev Ok)
          | Some msg => (st, post ev (Failed msg))
          end
        else if String.eqb t "claim" then (st, [ClaimClients])
        else (st, [])
    | None => (st, [])
    end.
Proof.
  intros st ev. unfold on_message. cbv zeta.
  destruct (type _) as [t|]; [|reflexivity].
  repeat (destruct t as [|[[|] [|] [|] [|] [|] [|] [|] [|]] t];
          try reflexivity).
Qed.




Lemma is_json_nonempty :
  forall t, is_json t = true -> exists c r, t = String c r.
Proof.
  intros [|c r] H; [vm_compute in H; discriminate H|eauto].
Qed.



Lemma on_message_ignored :
  forall st ev, ignored ev -> fst (on_message st ev) = st.
Proof.
  intros st ev H. rewrite on_message_dispatch. cbv zeta.
  unfold ignored in H.
  destruct (data ev) as [d|]; [|reflexivity].
  destruct (type d) as [t|] eqn:Et; [|reflexivity].
  destruct (String.eqb t "setExamData") eqn:E.
  - apply String.eqb_eq in E. subst t.
    destruct (JSON_parse (text d)) as [msg|] eqn:P; [reflexivity|].
    contradiction (H d eq_refl Et P).
  - destruct (String.eqb t "claim"); reflexivity.
Qed.

Lemma after_ignored :
  forall evs st, (forall ev, In ev evs -> ignored ev) -> after st evs = st.
Proof.
  induction evs as [|ev rest IH]; intros st H; [reflexivity|].
  cbn [after]. rewrite on_message_ignored by (apply H; left; reflexivity).
  apply IH. intros e He. apply H. right. exact He.
Qed.

(** X20: a text accepted by 'setExamData' is what the worker serves from
    then on: after the message, and after any further messages that are
    of another type or whose text does not parse, a request for
    /exam_data.json gets status 200, the JSON content type and exactly
    that text, whatever was stored before. *)
Theorem accepted_text_is_served :
  forall (st : state) (t : string) (ports : list nat)
         (later : list message_event) (pathname : string),
    is_json t = true ->
    (forall ev, In ev later -> ignored ev) ->
    endsWith pathname "/exam_data.json" = true ->
    on_fetch (after st (set_exam t ports :: later)) pathname
    = Some {| status := 200;
              content_type := "application/json; charset=utf-8";
              body := t |}.
Proof.
  intros st t ps later pathname Ht Hl Hp.
  cbn [after].
  assert (S : fst (on_message st (set_exam t ps)) = Some t).
  { rewrite on_message_dispatch. unfold set_exam. cbn [data type text].
    cbv zeta. cbn [data type text]. rewrite String.eqb_refl.
    unfold JSON_parse. rewrite Ht. reflexivity. }
  rewrite S. rewrite after_ignored by exact Hl.
  unfold on_fetch. rewrite Hp.
  destruct (is_json_nonempty t Ht) as [c [r Et]]. subst t. reflexivity.
Qed.

(** The accepted text replaces the stored one and survives a rejected
    message. *)
Lemma accepted_text_witness :
  on_fetch (after (Some "[0]")
              [set_exam "[1, 2]" []; set_exam "{" [7%nat]])
    "/exams/exam_data.json"
  = Some {| status := 200;
            content_type := "application/json; charset=utf-8";
            body := "[1, 2]" |}.
Proof.
  apply (accepted_text_is_served (Some "[0]") "[1, 2]" [] [set_exam "{" [7%nat]]).
  - vm_compute. reflexivity.
  - intros ev [E|[]]. subst ev. intros d Hd _.
    injection Hd as Hd. subst d. vm_compute. discriminate.
  - vm_compute. reflexivity.
Defined.

End ExamDataWorkerFacts.

(** ** The worker for exam and solutions data *)

Module SolutionsWorkerFacts.
Import SolutionsWorker.





Lemma on_message_exam_text :
  forall st ev,
    (forall d, data ev = Some d -> holds (type d) "setData" = false) ->
    currentExamText (fst (on_message st ev))
    = fst (ServiceWorker.on_message (currentExamText st) (plain ev))
    /\ ((forall d, data ev = Some d -> holds (type d) "setSolutionsData" = false) ->
        snd (on_message st ev)
        = snd (ServiceWorker.on_message (currentExamText st) (plain ev))).
Proof.
  intros st ev H.
  rewrite ExamDataWorkerFacts.on_message_dispatch. cbv zeta.
  unfold on_message, plain. cbv zeta. cbn [ServiceWorker.data].
  destruct (data ev) as [d|].
  - specialize (H d eq_refl).
    cbn [ServiceWorker.type ServiceWorker.text].
    unfold holds in *. destruct (type d) as [t|] eqn:Et; [|split; reflexivity].
    destruct (String.eqb t "setExamData") eqn:E1.
    { destruct (ServiceWorker.JSON_parse (text d)); split; reflexivity. }
    destruct (String.eqb t "setSolutionsData") eqn:E2.
    { apply String.eqb_eq in E2. subst t. cbn [String.eqb].
      split.
      - destruct (ServiceWorker.JSON_parse (text d)); reflexivity.
      - intro N. specialize (N d eq_refl). rewrite Et in N.
        rewrite String.eqb_refl in N. discriminate N. }
    rewrite H.
    destruct (String.eqb t "claim"); split; reflexivity.
  - cbn [type ServiceWorker.type holds]. split; reflexivity.
Qed.

(** X22: the worker for exam and solutions data treats exam data as sw.js
    does.  On any sequence of messages without a 'setData' message its
    exam text is, step by step, the text sw.js would hold after the same
    messages, and it answers a request for /exam_data.json as sw.js
    would. *)
Theorem exam_text_as_in_exam_worker :
  forall (events : list message_event) (st : stores) (pathname : string),
    (forall ev d, In ev events -> data ev = Some d ->
       holds (type d) "setData" = false) ->
    currentExamText (after st events)
    = ExamDataWorker.after (currentExamText st) (map plain events)
    /\ (ExamDataWorker.endsWith pathname "/exam_data.json" = true ->
        on_fetch (after st events) pathname
        = ExamDataWorker.on_fetch
            (ExamDataWorker.after (currentExamText st) (map plain events))
            pathname).
Proof.
  intros events st pathname H.
  assert (A : currentExamText (after st events)
              = ExamDataWorker.after (currentExamText st) (map plain events)).
  { revert st. induction events as [|ev rest IH]; intro st; [reflexivity|].
    cbn [after map ExamDataWorker.after].
    rewrite IH by (intros e d He; apply H; right; exact He).
    f_equal.
    apply (on_message_exam_text st ev).
    intros d Hd. apply (H ev d (or_introl eq_refl) Hd). }
  split; [exact A|].
  intro E. unfold on_fetch, ExamDataWorker.on_fetch. rewrite E, A.
  reflexivity.
Qed.

(** A 'setSolutionsData' message leaves the exam text as it is. *)
Lemma exam_text_witness :
  currentExamText (after initial [set_solutions "[1]"]) = None.
Proof.
  assert (H : forall ev d, In ev [set_solutions "[1]"] -> data ev = Some d ->
                holds (type d) "setData" = false).
  { intros ev d [E|[]] Hd. subst ev. injection Hd as Hd. subst d. reflexivity. }
  rewrite (proj1 (exam_text_as_in_exam_worker [set_solutions "[1]"] initial "" H)).
  reflexivity.
Defined.

End SolutionsWorkerFacts.
